(** * Update dispatch engine of the userbot API server

    A shallow embedding of [src/services/telegram/UpdateManager.ts] and of
    the helpers it uses ([handleMediaAlbum] from [src/utils/telegram.ts],
    [shouldIncludeUpdate] and [convertToMessage] from the type module),
    followed by the properties of the dedup cache, the album assembler,
    the poll buffer and its waiter, the sequence numbers and the webhook
    retry loop.

    Conventions of the embedding.
    - JavaScript numbers that hold identifiers, timestamps and delays are
      integers of [Z]; every value the engine computes stays far below
      2^53, and the one expression that does not ([2^attempt * 1000] for
      large [attempt]) is only compared against the 30000 cap.
    - [Map<string, _>] objects keyed by the phone number are [gmap string _];
      the dedup cache is an association list in insertion order, because
      its eviction sorts the entries with a stable sort.
    - [Date.now()] is an argument [now] of every handler run; all reads
      of the clock inside one synchronous run see the same instant.
    - [setTimeout] allocates a handle in a timer table held in the state;
      a timer fires through [fireTimer], which runs the callback that was
      registered for the handle.
    - The promise returned by a waiting [getUpdates] is identified by the
      handle of its timer; resolving it is an entry of the effect trace. *)

From Stdlib Require Import ZArith List Bool Lia Sorted Permutation.
From stdpp Require Import gmap strings list fin_maps sorting.
Import ListNotations.

Local Open Scope Z_scope.

(** ** Data model *)

Inductive UpdateType :=
  | T_message | T_edited_message | T_channel_post | T_edited_channel_post
  | T_delete | T_album | T_typing | T_user_update | T_chat_action
  | T_inline_query | T_callback_query | T_reaction | T_story | T_all.

#[global] Instance UpdateType_eq_dec : EqDecision UpdateType.
Proof. solve_decision. Defined.

Record UpdateOptions := {
  allowed_updates : option (list UpdateType);
  exclude_updates : option (list UpdateType)
}.

(** [Array.prototype.includes] on a list of update types. *)
Definition includes (t : UpdateType) (l : list UpdateType) : bool :=
  existsb (fun x => bool_decide (x = t)) l.

Definition shouldIncludeUpdate (type : UpdateType) (options : option UpdateOptions) : bool :=
  match options with
  | None => true
  | Some o =>
      if match exclude_updates o with Some ex => includes type ex | None => false end
      then false
      else match allowed_updates o with
           | None => true
           | Some al => includes type al || includes T_all al
           end
  end.

Inductive UpdateMode := ModeWebhook | ModePolling | ModeNone.

#[global] Instance UpdateMode_eq_dec : EqDecision UpdateMode.
Proof. solve_decision. Defined.

(** The columns of the [users] table the engine reads. *)
Record User := {
  phoneNumber : string;
  updateMode : UpdateMode;
  webhookUrl : option string;
  webhookSecret : option string
}.

(** The fields of a provider message ([Api.Message]) the engine reads.
    [groupedId] is a big integer object when present, so it is truthy
    whatever its value; [editDate] is a number, falsy when absent or 0.
    Sender, chat kind and media are copied through by [convertToMessage]
    without influencing dispatch and are left out. *)
Record ApiMessage := {
  id : Z;
  groupedId : option Z;
  editDate : option Z;
  post : bool;
  msg_text : string;
  msg_out : bool;
  chatId : option string
}.

Record Message := {
  message_id : Z;
  chat_id : string;
  date : Z;
  text : string;
  group_id : option Z;
  out : bool
}.

Definition convertToMessage (now : Z) (m : ApiMessage) : Message :=
  {| message_id := id m;
     chat_id := default EmptyString (chatId m);
     date := now / 1000;
     text := msg_text m;
     group_id := groupedId m;
     out := msg_out m |}.

(** Class names of the raw provider events the raw handler switches on. *)
Inductive RawClass :=
  | UpdateUserStatus | UpdateUserTyping | UpdateChannelUserTyping
  | UpdateChannel | UpdateChannelParticipant | UpdateNewChannelMessage
  | UpdateDeleteMessages | UpdateMessageReactions | UnhandledClass.

(** A raw provider event: its class, whether [getChatAction] finds an
    action in it, and the rest of its content, carried opaquely. *)
Record RawUpdate := {
  className : RawClass;
  hasChatAction : bool;
  rawBody : string
}.

Inductive Payload :=
  | P_message (kind : UpdateType) (m : Message)
  | P_album (album_id : option Z) (messages : list Message)
  | P_user_status (raw : RawUpdate)
  | P_typing_status (raw : RawUpdate)
  | P_chat_action (raw : RawUpdate)
  | P_deleted_message (raw : RawUpdate) (deleted_at : Z)
  | P_reaction (raw : RawUpdate).

Record Update := {
  update_id : Z;
  payload : Payload
}.

(** A pending long poll ([UpdateHandler]). *)
Record UpdateHandler := {
  offset : option Z;
  timeoutHandle : nat;
  options : option UpdateOptions
}.

(** Key of the dedup cache: the template string
    [`${phoneNumber}:${message.id}:${type}`].  The identifier is a number
    and the kind one of fourteen fixed words, so the string determines
    the triple. *)
Definition MessageKey : Type := string * Z * UpdateType.

Inductive TimerCallback :=
  | PollTimeout (phone : string)
  | AlbumInitial (groupId : Z)
  | AlbumSubsequent (groupId : Z).

Record Timer := {
  delay : Z;
  callback : TimerCallback
}.

Record PendingAlbum := {
  album_messages : list ApiMessage;
  album_timer : nat
}.

Record State := {
  updateHandlers : gmap string UpdateHandler;
  updateBuffers : gmap string (list Update);
  lastUpdateId : gmap string Z;
  processedMessages : list (MessageKey * Z);
  pendingAlbums : gmap Z PendingAlbum;
  timers : gmap nat Timer;
  nextTimer : nat
}.

Definition MESSAGE_CACHE_TTL : Z := 60 * 1000.
Definition MAX_CACHE_SIZE : nat := 1000.

(** State of a freshly constructed manager, with no album pending. *)
Definition init : State :=
  {| updateHandlers := ∅; updateBuffers := ∅; lastUpdateId := ∅;
     processedMessages := []; pendingAlbums := ∅; timers := ∅;
     nextTimer := 0%nat |}.

Definition set_updateHandlers (f : gmap string UpdateHandler -> gmap string UpdateHandler)
    (s : State) : State :=
  {| updateHandlers := f (updateHandlers s); updateBuffers := updateBuffers s;
     lastUpdateId := lastUpdateId s; processedMessages := processedMessages s;
     pendingAlbums := pendingAlbums s; timers := timers s; nextTimer := nextTimer s |}.

Definition set_updateBuffers (f : gmap string (list Update) -> gmap string (list Update))
    (s : State) : State :=
  {| updateHandlers := updateHandlers s; updateBuffers := f (updateBuffers s);
     lastUpdateId := lastUpdateId s; processedMessages := processedMessages s;
     pendingAlbums := pendingAlbums s; timers := timers s; nextTimer := nextTimer s |}.

Definition set_lastUpdateId (f : gmap string Z -> gmap string Z) (s : State) : State :=
  {| updateHandlers := updateHandlers s; updateBuffers := updateBuffers s;
     lastUpdateId := f (lastUpdateId s); processedMessages := processedMessages s;
     pendingAlbums := pendingAlbums s; timers := timers s; nextTimer := nextTimer s |}.

Definition set_processedMessages (f : list (MessageKey * Z) -> list (MessageKey * Z))
    (s : State) : State :=
  {| updateHandlers := updateHandlers s; updateBuffers := updateBuffers s;
     lastUpdateId := lastUpdateId s; processedMessages := f (processedMessages s);
     pendingAlbums := pendingAlbums s; timers := timers s; nextTimer := nextTimer s |}.

Definition set_pendingAlbums (f : gmap Z PendingAlbum -> gmap Z PendingAlbum)
    (s : State) : State :=
  {| updateHandlers := updateHandlers s; updateBuffers := updateBuffers s;
     lastUpdateId := lastUpdateId s; processedMessages := processedMessages s;
     pendingAlbums := f (pendingAlbums s); timers := timers s; nextTimer := nextTimer s |}.

(** ** Timers *)

Definition setTimeout (cb : TimerCallback) (ms : Z) (s : State) : State * nat :=
  ({| updateHandlers := updateHandlers s; updateBuffers := updateBuffers s;
      lastUpdateId := lastUpdateId s; processedMessages := processedMessages s;
      pendingAlbums := pendingAlbums s;
      timers := <[nextTimer s := {| delay := ms; callback := cb |}]> (timers s);
      nextTimer := S (nextTimer s) |}, nextTimer s).

Definition clearTimeout (h : nat) (s : State) : State :=
  {| updateHandlers := updateHandlers s; updateBuffers := updateBuffers s;
     lastUpdateId := lastUpdateId s; processedMessages := processedMessages s;
     pendingAlbums := pendingAlbums s; timers := delete h (timers s);
     nextTimer := nextTimer s |}.

(** ** Effect trace

    What a handler run does to the outside: it hands an update to
    [sendWebhook], it appends one to a poll buffer, or it resolves the
    promise of a waiting [getUpdates]. *)
Inductive Effect :=
  | Webhook (u : User) (upd : Update)
  | Buffered (phone : string) (upd : Update)
  | Resolved (handle : nat) (updates : list Update).

(** ** Sequence numbers *)

(** [this.lastUpdateId.get(phoneNumber) || Date.now()]: a stored 0 is
    falsy and falls through to the clock, like a missing entry. *)
Definition generateUpdateId (phone : string) (now : Z) (s : State) : State * Z :=
  let lastId := match lastUpdateId s !! phone with
                | Some v => if v =? 0 then now else v
                | None => now
                end in
  let newId := lastId + 1 in
  (set_lastUpdateId (insert phone newId) s, newId).

(** ** Poll buffer *)

(** [Array.prototype.findIndex]; [None] stands for -1. *)
Fixpoint findIndex {A} (p : A -> bool) (l : list A) : option nat :=
  match l with
  | [] => None
  | x :: r => if p x then Some 0%nat else option_map S (findIndex p r)
  end.

(** [!offset] holds for a missing offset and for offset 0. *)
Definition offset_falsy (offset : option Z) : bool :=
  match offset with
  | None => true
  | Some o => o =? 0
  end.

Definition getBufferedUpdates (phone : string) (offset : option Z) (s : State)
    : State * list Update :=
  let buffer := default [] (updateBuffers s !! phone) in
  if offset_falsy offset then
    (set_updateBuffers (insert phone []) s, buffer)
  else
    match findIndex (fun u => default 0 offset <? update_id u) buffer with
    | None => (s, [])
    | Some index => (set_updateBuffers (insert phone []) s, drop index buffer)
    end.

Definition clearHandlers (phone : string) (s : State) : State :=
  let s1 := match updateHandlers s !! phone with
            | Some h => clearTimeout (timeoutHandle h) s
            | None => s
            end in
  set_updateBuffers (insert phone []) (set_updateHandlers (delete phone) s1).

Definition bufferUpdate (phone : string) (update : Update) (s : State)
    : State * list Effect :=
  let buffer := default [] (updateBuffers s !! phone) in
  let s1 := set_updateBuffers (insert phone (buffer ++ [update])) s in
  match updateHandlers s1 !! phone with
  | Some handler =>
      let '(s2, updates) := getBufferedUpdates phone (offset handler) s1 in
      if (0 <? length updates)%nat then
        (set_updateHandlers (delete phone) (clearTimeout (timeoutHandle handler) s2),
         [Buffered phone update; Resolved (timeoutHandle handler) updates])
      else (s2, [Buffered phone update])
  | None => (s1, [Buffered phone update])
  end.

(** [Array.prototype.slice(0, limit)]: a negative [limit] counts from
    the end of the array. *)
Definition slice_to {A} (limit : Z) (l : list A) : list A :=
  if limit <? 0 then take (Z.to_nat (Z.of_nat (length l) + limit)) l
  else take (Z.to_nat limit) l.

Inductive GetUpdatesResult :=
  | Rejected (error : string)
  | Returned (updates : list Update)
  | Pending (handle : nat).

Definition getUpdates (user : User) (offset : option Z) (limit : Z) (timeout : Z)
    (options : option UpdateOptions) (s : State) : State * GetUpdatesResult :=
  match updateMode user with
  | ModeWebhook =>
      (s, Rejected "Updates cannot be retrieved via polling when webhook is enabled. Please delete the webhook first.")
  | _ =>
      let s1 := clearHandlers (phoneNumber user) s in
      let '(s2, bufferedUpdates) := getBufferedUpdates (phoneNumber user) offset s1 in
      if (0 <? length bufferedUpdates)%nat then
        (s2, Returned (slice_to limit bufferedUpdates))
      else if timeout =? 0 then (s2, Returned [])
      else
        let '(s3, h) := setTimeout (PollTimeout (phoneNumber user)) (timeout * 1000) s2 in
        (set_updateHandlers
           (insert (phoneNumber user)
              {| offset := offset; timeoutHandle := h; options := options |}) s3,
         Pending h)
  end.

(** Delivery router ([processUpdate], and the same test inlined twice in
    [handleMessageUpdate]). A URL is truthy when present and not empty. *)
Definition url_truthy (url : option string) : bool :=
  match url with
  | Some EmptyString => false
  | Some _ => true
  | None => false
  end.

Definition processUpdate (user : User) (update : Update) (s : State)
    : State * list Effect :=
  if bool_decide (updateMode user = ModeWebhook) && url_truthy (webhookUrl user)
  then (s, [Webhook user update])
  else bufferUpdate (phoneNumber user) update s.

(** ** Stable sort

    [Array.prototype.sort] with a comparator [(a, b) => key a - key b]
    is a stable ascending sort on the key. *)
Fixpoint insert_by {A} (key : A -> Z) (x : A) (l : list A) : list A :=
  match l with
  | [] => [x]
  | y :: r => if key x <=? key y then x :: y :: r else y :: insert_by key x r
  end.

Fixpoint sort_by {A} (key : A -> Z) (l : list A) : list A :=
  match l with
  | [] => []
  | x :: r => insert_by key x (sort_by key r)
  end.

(** ** Dedup cache

    A [Map] iterates in insertion order: a new key goes to the end, an
    existing key keeps its place. *)

(** Equality of two keys, compared component by component. *)
Definition key_eqb (a b : MessageKey) : bool :=
  (snd (fst a) =? snd (fst b)) && bool_decide (snd a = snd b)
  && String.eqb (fst (fst a)) (fst (fst b)).

Definition pm_has (k : MessageKey) (m : list (MessageKey * Z)) : bool :=
  existsb (fun e => key_eqb (fst e) k) m.

Definition pm_set (k : MessageKey) (v : Z) (m : list (MessageKey * Z))
    : list (MessageKey * Z) :=
  if pm_has k m
  then map (fun e => if key_eqb (fst e) k then (k, v) else e) m
  else m ++ [(k, v)].

Definition pm_delete (k : MessageKey) (m : list (MessageKey * Z))
    : list (MessageKey * Z) :=
  List.filter (fun e => negb (key_eqb (fst e) k)) m.

(** First loop of [cleanupProcessedMessages]. *)
Definition remove_expired (now : Z) (m : list (MessageKey * Z)) : list (MessageKey * Z) :=
  let expiredTime := now - MESSAGE_CACHE_TTL in
  List.filter (fun e => negb (snd e <? expiredTime)) m.

(** The entries its second loop deletes. *)
Definition oldest_entries (m : list (MessageKey * Z)) : list (MessageKey * Z) :=
  take (length m - MAX_CACHE_SIZE)%nat (sort_by snd m).

Definition remove_oldest (m : list (MessageKey * Z)) : list (MessageKey * Z) :=
  if (MAX_CACHE_SIZE <? length m)%nat
  then fold_left (fun acc e => pm_delete (fst e) acc) (oldest_entries m) m
  else m.

Definition cleanupProcessedMessages (now : Z) (m : list (MessageKey * Z))
    : list (MessageKey * Z) :=
  remove_oldest (remove_expired now m).

(** ** Album assembler ([handleMediaAlbum]) *)

Definition handleMediaAlbum (message : ApiMessage) (s : State) : State * list ApiMessage :=
  match groupedId message with
  | None => (s, [message])
  | Some groupId =>
      match pendingAlbums s !! groupId with
      | Some existingAlbum =>
          let s1 := clearTimeout (album_timer existingAlbum) s in
          let msgs := sort_by id (album_messages existingAlbum ++ [message]) in
          let '(s2, h) := setTimeout (AlbumSubsequent groupId) 500 s1 in
          let s3 := set_pendingAlbums
                      (insert groupId {| album_messages := msgs; album_timer := h |}) s2 in
          if (2 <=? length msgs)%nat
          then (set_pendingAlbums (delete groupId) s3, msgs)
          else (s3, [])
      | None =>
          let '(s1, h) := setTimeout (AlbumInitial groupId) 300 s in
          (set_pendingAlbums
             (insert groupId {| album_messages := [message]; album_timer := h |}) s1,
           [])
      end
  end.

(** ** Normalizer for message events ([handleMessageUpdate])

    The body of the source runs inside a [try] whose [catch] only logs.
    The model covers the runs in which building the update does not
    throw, that is, in which the provider message converts to a
    [Message]. A conversion that throws comes after the identifier is
    allocated: the identifier is then used up and no update is emitted.
    The raw handler likewise reads the fields of the event after it has
    allocated the identifier, and has no [catch]. *)

Definition messageKey (user : User) (message : ApiMessage) (type : UpdateType) : MessageKey :=
  (phoneNumber user, id message, type).

Definition handleMessageUpdate (user : User) (message : ApiMessage) (type : UpdateType)
    (now : Z) (s : State) : State * list Effect :=
  let key := messageKey user message type in
  if pm_has key (processedMessages s) then (s, [])
  else
    let s1 := set_processedMessages (pm_set key now) s in
    let s2 := if (MAX_CACHE_SIZE <? length (processedMessages s1))%nat
              then set_processedMessages (cleanupProcessedMessages now) s1
              else s1 in
    let '(s3, messages) := handleMediaAlbum message s2 in
    if (length messages =? 0)%nat then (s3, [])
    else
      let handler := updateHandlers s3 !! phoneNumber user in
      if (1 <? length messages)%nat && shouldIncludeUpdate T_album (handler ≫= options)
      then
        let albumMessages := map (convertToMessage now) messages in
        let '(s4, newId) := generateUpdateId (phoneNumber user) now s3 in
        processUpdate user
          {| update_id := newId; payload := P_album (groupedId message) albumMessages |} s4
      else
        let '(s4, newId) := generateUpdateId (phoneNumber user) now s3 in
        processUpdate user
          {| update_id := newId; payload := P_message type (convertToMessage now message) |} s4.

(** ** Handlers installed by [setupEventHandling] *)

Definition truthy_number (n : option Z) : bool :=
  match n with
  | Some v => negb (v =? 0)
  | None => false
  end.

Definition messageType (message : ApiMessage) : UpdateType :=
  if post message
  then (if truthy_number (editDate message) then T_edited_channel_post else T_channel_post)
  else (if truthy_number (editDate message) then T_edited_message else T_message).

(** The [NewMessage] handler. *)
Definition messageEventHandler (user : User) (options : option UpdateOptions)
    (message : ApiMessage) (now : Z) (s : State) : State * list Effect :=
  let type := messageType message in
  if shouldIncludeUpdate type options
  then handleMessageUpdate user message type now s
  else (s, []).

(** The raw handler: one case per class name. *)
Definition rawEventHandler (user : User) (options : option UpdateOptions)
    (update : RawUpdate) (now : Z) (s : State) : State * list Effect :=
  let emit (kind : UpdateType) (mk : RawUpdate -> Payload) :=
    if shouldIncludeUpdate kind options then
      let '(s1, newId) := generateUpdateId (phoneNumber user) now s in
      processUpdate user {| update_id := newId; payload := mk update |} s1
    else (s, []) in
  match className update with
  | UpdateUserStatus => emit T_user_update P_user_status
  | UpdateUserTyping | UpdateChannelUserTyping => emit T_typing P_typing_status
  | UpdateChannel | UpdateChannelParticipant | UpdateNewChannelMessage =>
      if shouldIncludeUpdate T_chat_action options then
        if hasChatAction update then
          let '(s1, newId) := generateUpdateId (phoneNumber user) now s in
          processUpdate user {| update_id := newId; payload := P_chat_action update |} s1
        else (s, [])
      else (s, [])
  | UpdateDeleteMessages =>
      emit T_delete (fun u => P_deleted_message u (now / 1000))
  | UpdateMessageReactions => emit T_reaction P_reaction
  | UnhandledClass => (s, [])
  end.

(** [setupEventHandling]: the effect on the manager is [clearHandlers];
    the second component tells whether the [NewMessage] handler is added
    to the client next to the raw handler. *)
Definition setupEventHandling (user : User) (options : option UpdateOptions) (s : State)
    : State * bool :=
  (clearHandlers (phoneNumber user) s,
   shouldIncludeUpdate T_message options
   || shouldIncludeUpdate T_edited_message options
   || shouldIncludeUpdate T_channel_post options
   || shouldIncludeUpdate T_edited_channel_post options).

(** ** Timer expiry

    The callback of the long-poll timer deletes the waiter and resolves
    with the empty array. The two album callbacks delete the pending
    album; the value the initial one returns goes to the timer, that is,
    nowhere. *)
Definition fireTimer (h : nat) (s : State) : State * list Effect :=
  match timers s !! h with
  | None => (s, [])
  | Some t =>
      let s1 := clearTimeout h s in
      match callback t with
      | PollTimeout phone => (set_updateHandlers (delete phone) s1, [Resolved h []])
      | AlbumInitial groupId => (set_pendingAlbums (delete groupId) s1, [])
      | AlbumSubsequent groupId => (set_pendingAlbums (delete groupId) s1, [])
      end
  end.

(** ** Runs of the engine *)

Inductive Call :=
  | CallSetup (user : User) (options : option UpdateOptions)
  | CallRaw (user : User) (options : option UpdateOptions) (update : RawUpdate) (now : Z)
  | CallMessage (user : User) (options : option UpdateOptions) (message : ApiMessage) (now : Z)
  | CallGetUpdates (user : User) (offset : option Z) (limit timeout : Z)
      (options : option UpdateOptions)
  | CallTimer (h : nat).

Definition step (c : Call) (s : State) : State * list Effect :=
  match c with
  | CallSetup user options => (fst (setupEventHandling user options s), [])
  | CallRaw user options update now => rawEventHandler user options update now s
  | CallMessage user options message now => messageEventHandler user options message now s
  | CallGetUpdates user offset limit timeout options =>
      (fst (getUpdates user offset limit timeout options s), [])
  | CallTimer h => fireTimer h s
  end.

Fixpoint run (cs : list Call) (s : State) : State * list Effect :=
  match cs with
  | [] => (s, [])
  | c :: r =>
      let '(s1, e1) := step c s in
      let '(s2, e2) := run r s1 in
      (s2, e1 ++ e2)
  end.

(** Updates created for an account, in the order of the trace. *)
Definition produced_for (phone : string) (e : Effect) : option Update :=
  match e with
  | Webhook u upd => if bool_decide (phoneNumber u = phone) then Some upd else None
  | Buffered p upd => if bool_decide (p = phone) then Some upd else None
  | Resolved _ _ => None
  end.

Definition produced (phone : string) (es : list Effect) : list Update :=
  omap (produced_for phone) es.

Definition clock_of (c : Call) : option Z :=
  match c with
  | CallRaw _ _ _ now | CallMessage _ _ _ now => Some now
  | _ => None
  end.

(** ** Webhook sender ([sendWebhook])

    The network and the random generator are oracles indexed by the
    attempt: [fetch n] is the fate of attempt [n], and [random n] is
    [Math.floor(Math.random() * 200)] as drawn after attempt [n]. *)
Inductive FetchOutcome :=
  | FetchOk
  | FetchNotOk (status : Z)
  | FetchAborted
  | FetchFailed.

Inductive WebhookEvent :=
  | Attempt (n : nat)
  | Wait (ms : Z).

(** How the call ends: it returns after a delivery, it returns after the
    last attempt failed, or it throws. *)
Inductive WebhookResult :=
  | Delivered (attempt : nat)
  | Exhausted
  | Thrown.

Definition maxRetries : nat := 50.
Definition baseTimeout : Z := 5000.
Definition maxBackoffTime : Z := 30000.

Definition backoffTime (random : nat -> Z) (attempt : nat) : Z :=
  Z.min (random attempt + 2 ^ Z.of_nat attempt * 1000) maxBackoffTime.

(** The [for] loop from a given [attempt]; [fuel] bounds the number of
    iterations and [sendWebhook] supplies enough of it. An attempt that
    is aborted after [baseTimeout], a response that is not ok and a
    transport failure all land in the same [catch]. *)
Fixpoint sendWebhook_loop (fetch : nat -> FetchOutcome) (random : nat -> Z)
    (fuel attempt : nat) : list WebhookEvent * WebhookResult :=
  match fuel with
  | O => ([], Exhausted)
  | S fuel' =>
      if (attempt <=? maxRetries)%nat then
        match fetch attempt with
        | FetchOk => ([Attempt attempt], Delivered attempt)
        | _ =>
            if (attempt =? maxRetries)%nat then ([Attempt attempt], Exhausted)
            else
              let '(tr, r) := sendWebhook_loop fetch random fuel' (S attempt) in
              (Attempt attempt :: Wait (backoffTime random attempt) :: tr, r)
        end
      else ([], Exhausted)
  end.

Definition sendWebhook (fetch : nat -> FetchOutcome) (random : nat -> Z)
    : list WebhookEvent * WebhookResult :=
  sendWebhook_loop fetch random (S maxRetries) 0.

Definition attempts_of (tr : list WebhookEvent) : list nat :=
  omap (fun e => match e with Attempt n => Some n | Wait _ => None end) tr.

Definition waits_of (tr : list WebhookEvent) : list Z :=
  omap (fun e => match e with Wait ms => Some ms | Attempt _ => None end) tr.

(** ** Notions used in the statements *)

(** The clock never reads a negative number of milliseconds. *)
Definition clock_ok (c : Call) : Prop :=
  match clock_of c with
  | Some now => 0 <= now
  | None => True
  end.

(** A series of [generateUpdateId] calls, each for some account at some
    clock reading, with the identifier each call returns. *)
Fixpoint generateMany (calls : list (string * Z)) (s : State) : State * list (string * Z) :=
  match calls with
  | [] => (s, [])
  | (phone, now) :: r =>
      let '(s1, newId) := generateUpdateId phone now s in
      let '(s2, ids) := generateMany r s1 in
      (s2, (phone, newId) :: ids)
  end.

Definition ids_for (phone : string) (issued : list (string * Z)) : list Z :=
  omap (fun e => if bool_decide (fst e = phone) then Some (snd e) else None) issued.

(** What a handler run does to the counter of account [p]: either it
    creates no update for [p] and leaves the counter alone, or it
    creates one update whose identifier is the one [generateUpdateId]
    computes, and stores it. *)
Definition issues (p : string) (now : Z) (s : State) (r : State * list Effect) : Prop :=
  (produced p (snd r) = [] ∧ lastUpdateId (fst r) !! p = lastUpdateId s !! p)
  ∨ (∃ u, produced p (snd r) = [u]
          ∧ lastUpdateId (fst r) !! p = Some (update_id u)
          ∧ update_id u = snd (generateUpdateId p now s)).

(** The order a sort on [key] establishes. *)
Definition key_le {A} (key : A -> Z) (a b : A) : Prop := key a <= key b.

(** The cache after [handleMessageUpdate] has remembered a new key. *)
Definition cache_insert (k : MessageKey) (now : Z) (m : list (MessageKey * Z))
    : list (MessageKey * Z) :=
  let m1 := pm_set k now m in
  if (MAX_CACHE_SIZE <? length m1)%nat then cleanupProcessedMessages now m1 else m1.

(** Shape of the cache under a clock that never goes back and has
    reached [now]: keys are unique, timestamps do not decrease in
    insertion order and none lies after [now]. *)
Definition cache_ok (now : Z) (m : list (MessageKey * Z)) : Prop :=
  NoDup (map fst m)
  ∧ StronglySorted (key_le snd) m
  ∧ Forall (fun e => snd e <= now) m.

(** Key [k], remembered at instant [t], is in the cache with at most [n]
    entries inserted after it. *)
Definition cached_at (k : MessageKey) (t : Z) (n : nat) (m : list (MessageKey * Z)) : Prop :=
  ∃ before after, m = before ++ (k, t) :: after ∧ (length after <= n)%nat.

(** Whether the offset test of [getBufferedUpdates] lets an update
    through: always without an offset, else when its identifier exceeds
    the offset. *)
Definition passes_offset (offset : option Z) (u : Update) : bool :=
  offset_falsy offset || (default 0 offset <? update_id u).

(** Buffering a series of updates, one [bufferUpdate] call each. *)
Definition bufferAll (phone : string) (updates : list Update) (s : State) : State :=
  foldl (fun s u => fst (bufferUpdate phone u s)) s updates.

(** A waiter [h] stands for an account: it is registered, its timer is
    pending, and the buffer holds only updates its offset filters out. *)
Definition waiting (phone : string) (h : UpdateHandler) (s : State) : Prop :=
  updateHandlers s !! phone = Some h
  ∧ (∃ t, timers s !! timeoutHandle h = Some t ∧ callback t = PollTimeout phone)
  ∧ Forall (fun u => passes_offset (offset h) u = false)
      (default [] (updateBuffers s !! phone)).

(** The trace of the retry loop when every attempt from [attempt] on
    fails, for [count] attempts that are each followed by a wait. *)
Definition failing_trace (random : nat -> Z) (attempt count : nat) : list WebhookEvent :=
  flat_map (fun n => [Attempt n; Wait (backoffTime random n)]) (seq attempt count).

(** ** Accounts, events and runs used in the examples *)

Definition alice : User :=
  {| phoneNumber := "+15550100"; updateMode := ModePolling;
     webhookUrl := None; webhookSecret := None |}.

Definition carol : User :=
  {| phoneNumber := "+15550199"; updateMode := ModeWebhook;
     webhookUrl := Some "https://example.org/hook"; webhookSecret := None |}.

Definition reaction_raw : RawUpdate :=
  {| className := UpdateMessageReactions; hasChatAction := false; rawBody := "" |}.

Definition update_numbered (n : Z) : Update :=
  {| update_id := n; payload := P_reaction reaction_raw |}.

Definition plain_message (i : Z) : ApiMessage :=
  {| id := i; groupedId := None; editDate := None; post := false;
     msg_text := ""; msg_out := false; chatId := None |}.

Definition album_fragment (i g : Z) : ApiMessage :=
  {| id := i; groupedId := Some g; editDate := None; post := false;
     msg_text := ""; msg_out := false; chatId := None |}.

(** A plain message and an album fragment of a named chat. The dedup
    key names the account, the message identifier and the kind, not the
    chat. *)
Definition message_in (chat : string) (i : Z) : ApiMessage :=
  {| id := i; groupedId := None; editDate := None; post := false;
     msg_text := ""; msg_out := false; chatId := Some chat |}.

Definition fragment_in (chat : string) (i g : Z) : ApiMessage :=
  {| id := i; groupedId := Some g; editDate := None; post := false;
     msg_text := ""; msg_out := false; chatId := Some chat |}.

(** Message 11 of one chat, then the two fragments, 10 and 11, of an
    album of another chat, 100 ms apart. *)
Definition colliding_album_run : list Call :=
  [CallMessage alice None (message_in "-1001" 11) 1000;
   CallMessage alice None (fragment_in "-1002" 10 77) 2000;
   CallMessage alice None (fragment_in "-1002" 11 77) 2100].

(** The buffer of [alice] after updates 3, 4, 5, 6 and 7 were buffered. *)
Definition buffered_3_to_7 : State :=
  foldl (fun s n => fst (bufferUpdate (phoneNumber alice) (update_numbered n) s))
    init [3; 4; 5; 6; 7].

(** A target that answers 500 to every attempt, and a jitter source. *)
Definition always_500 : nat -> FetchOutcome := fun _ => FetchNotOk 500.

Definition jitter_example : nat -> Z := fun n => (Z.of_nat n * 37) mod 200.

(** A cache holding the keys of messages 0 to 999 of [alice], message
    [i] first seen at instant [i]. *)
Definition full_cache : State :=
  set_processedMessages
    (fun _ => map (fun i => ((phoneNumber alice, Z.of_nat i, T_message), Z.of_nat i))
                (seq 0 MAX_CACHE_SIZE))
    init.

(** Calls used to exercise the counters: two accounts, interleaved. *)
Definition example_calls : list (string * Z) :=
  [(phoneNumber alice, 1700000000000); (phoneNumber carol, 1700000000000);
   (phoneNumber alice, 1600000000000); (phoneNumber alice, 0)].

Definition example_run : list Call :=
  [CallSetup alice None;
   CallMessage alice None (plain_message 41) 1700000000000;
   CallRaw carol None reaction_raw 1700000000000;
   CallGetUpdates alice None 100 30 None;
   CallRaw alice None reaction_raw 1600000000000;
   CallMessage alice None (plain_message 42) 1700000000500].

(** One thousand further messages for [alice], numbered 1 to 1000, one
    per millisecond from instant 1001 on. *)
Definition burst : list Call :=
  map (fun i => CallMessage alice None (plain_message (Z.of_nat i)) (1000 + Z.of_nat i))
    (seq 1 MAX_CACHE_SIZE).

(** A few calls with clock readings in ascending order. *)
Definition steady_run : list Call :=
  [CallMessage alice None (plain_message 1) 1001;
   CallGetUpdates alice None 100 30 None;
   CallRaw alice None reaction_raw 1500;
   CallMessage alice None (plain_message 2) 2000].

(** ** Notions used in the further properties *)

Definition is_album_callback (cb : TimerCallback) : Prop :=
  match cb with
  | PollTimeout _ => False
  | AlbumInitial _ | AlbumSubsequent _ => True
  end.

(** How timers, waiters and pending albums hang together: every pending
    timer has a handle below the next one to be allocated; the timer of
    a registered waiter is pending and carries the callback of its
    account; a pending long-poll timer belongs to the waiter registered
    for its account; the timer an album entry remembers was allocated
    earlier and, if still pending, is an album timer. *)
Definition timers_wf (s : State) : Prop :=
  (∀ h t, timers s !! h = Some t -> (h < nextTimer s)%nat)
  ∧ (∀ p hd, updateHandlers s !! p = Some hd ->
       ∃ d, timers s !! timeoutHandle hd = Some {| delay := d; callback := PollTimeout p |})
  ∧ (∀ h t p, timers s !! h = Some t -> callback t = PollTimeout p ->
       ∃ hd, updateHandlers s !! p = Some hd ∧ timeoutHandle hd = h)
  ∧ (∀ g a, pendingAlbums s !! g = Some a ->
       (album_timer a < nextTimer s)%nat
       ∧ ∀ t, timers s !! album_timer a = Some t -> is_album_callback (callback t)).

(** A handle that was allocated and whose timer is gone. *)
Definition spent (h : nat) (s : State) : Prop :=
  (h < nextTimer s)%nat ∧ timers s !! h = None.

(** The resolutions of the promise with handle [h] in a trace. *)
Definition resolutions (h : nat) (es : list Effect) : list (list Update) :=
  omap (fun e => match e with
                 | Resolved h' ups => if bool_decide (h' = h) then Some ups else None
                 | _ => None
                 end) es.

(** No resolution of promise [h] in a trace carries more than one
    update. *)
Definition at_most_one (h : nat) (es : list Effect) : Prop :=
  Forall (fun ups => (length ups <= 1)%nat) (resolutions h es).

(** From [s] to [s'] no handle is handed out again: the next handle
    does not go down and a handle that was spent stays spent. *)
Definition timers_grow (s s' : State) : Prop :=
  (nextTimer s <= nextTimer s')%nat
  ∧ ∀ h, (h < nextTimer s)%nat -> timers s !! h = None -> timers s' !! h = None.

(** What a handler run does to the promise with handle [h]: nothing, or
    it resolves it once, in which case its timer was pending before and
    is gone afterwards. *)
Definition settles (h : nat) (s : State) (r : State * list Effect) : Prop :=
  resolutions h (snd r) = []
  ∨ ∃ ups, resolutions h (snd r) = [ups]
           ∧ is_Some (timers s !! h) ∧ timers (fst r) !! h = None.

(** Calls that replace the waiter of account [p]. *)
Definition supersedes (p : string) (c : Call) : Prop :=
  match c with
  | CallSetup u _ => phoneNumber u = p
  | CallGetUpdates u _ _ _ _ => phoneNumber u = p ∧ updateMode u ≠ ModeWebhook
  | _ => False
  end.

(** The buffer of every account with a waiter holds only updates that
    the offset of the waiter filters out. *)
Definition waiters_ok (s : State) : Prop :=
  ∀ p hd, updateHandlers s !! p = Some hd ->
    Forall (fun u => passes_offset (offset hd) u = false)
      (default [] (updateBuffers s !! p)).

(** Every pending album holds exactly one message, a fragment of its
    group. *)
Definition albums_single (s : State) : Prop :=
  ∀ g a, pendingAlbums s !! g = Some a ->
    ∃ m, album_messages a = [m] ∧ groupedId m = Some g.

(** An album update carries exactly two messages of its group, in
    ascending order of their identifiers. *)
Definition album_is_pair (u : Update) : Prop :=
  match payload u with
  | P_album gid msgs =>
      ∃ a b, msgs = [a; b] ∧ message_id a <= message_id b
             ∧ is_Some gid ∧ group_id a = gid ∧ group_id b = gid
  | _ => True
  end.

(** A second polling account. *)
Definition dave : User :=
  {| phoneNumber := "+15550142"; updateMode := ModePolling;
     webhookUrl := None; webhookSecret := None |}.

(** The buffer of an account. *)
Definition buffer_of (p : string) (s : State) : list Update :=
  default [] (updateBuffers s !! p).

(** What a handler run does to the buffer of account [p]: it empties
    it, leaves it alone, or appends the one update it creates for [p]. *)
Definition buffers (p : string) (s : State) (r : State * list Effect) : Prop :=
  buffer_of p (fst r) = []
  ∨ buffer_of p (fst r) = buffer_of p s
  ∨ ∃ u, produced p (snd r) = [u] ∧ buffer_of p (fst r) = buffer_of p s ++ [u].

(** The buffer of [p] holds increasing identifiers, none above the
    counter of [p]. *)
Definition buffer_ok (p : string) (s : State) : Prop :=
  StronglySorted Z.lt (map update_id (buffer_of p s))
  ∧ ∀ u, u ∈ buffer_of p s ->
      ∃ v, lastUpdateId s !! p = Some v ∧ update_id u <= v.

(** The clock readings of the calls made for one account, in order. *)
Definition clocks_for (phone : string) (calls : list (string * Z)) : list Z :=
  omap (fun c => if bool_decide (fst c = phone) then Some (snd c) else None) calls.

(** A run with calls of two accounts and clock readings that are not in
    order. *)
Definition mixed_run : list Call :=
  [CallRaw alice None reaction_raw 1700000000000;
   CallMessage dave None (plain_message 3) 1700000000200;
   CallRaw alice None reaction_raw 1600000000000;
   CallMessage alice None (plain_message 4) 1700000000300].

(** Sum of a list of delays. *)
Definition total (l : list Z) : Z := foldr Z.add 0 l.

(** The longest wait after attempt [n]: the jitter is a whole number of
    milliseconds below 200. *)
Definition longest_wait (n : nat) : Z :=
  Z.min (199 + 2 ^ Z.of_nat n * 1000) maxBackoffTime.

(** A target that answers 500 twice and then accepts. *)
Definition third_time_lucky : nat -> FetchOutcome :=
  fun n => if (n <? 2)%nat then FetchNotOk 500 else FetchOk.

(** Poll options that exclude album updates. *)
Definition no_albums : UpdateOptions :=
  {| allowed_updates := None; exclude_updates := Some [T_album] |}.

(** The raw event an update was built from, if it was built from one. *)
Definition raw_of (pl : Payload) : option RawUpdate :=
  match pl with
  | P_message _ _ | P_album _ _ => None
  | P_user_status raw | P_typing_status raw | P_chat_action raw
  | P_deleted_message raw _ | P_reaction raw => Some raw
  end.

(** ** Chat actions ([getChatAction]) *)

(** The service action of a channel message, by class name, with the
    fields [getChatAction] reads; identifiers are given as the strings
    [toString] makes of them. *)
Inductive MessageAction :=
  | MessageActionChatEditTitle (title : string)
  | MessageActionChatEditPhoto (photo_id : option string)
  | MessageActionChatDeletePhoto
  | MessageActionChatAddUser (users : list string)
  | MessageActionChatDeleteUser
  | MessageActionPinMessage
  | MessageActionOther.

(** A channel participant: the keys of its [adminRights] and of its
    [bannedRights] object, where it has one. *)
Record ChannelParticipant := {
  adminRights : option (list string);
  bannedRights : option (list string)
}.

(** A raw event as [getChatAction] reads it: its class, the identifier
    and the action of its message, and its two participants. *)
Record ChannelEvent := {
  event_className : RawClass;
  event_message : option (Z * option MessageAction);
  newParticipant : option ChannelParticipant;
  prevParticipant : option ChannelParticipant;
  event_body : string
}.

Inductive ChatActionType :=
  | A_join | A_leave | A_invite | A_title_changed | A_description_changed
  | A_photo_changed | A_photo_deleted | A_message_pinned | A_message_unpinned
  | A_permissions_changed | A_admin_rights_changed | A_member_rights_changed.

(** The fields of [ChatActionData] that [getChatAction] fills in. *)
Inductive ChatActionData :=
  | D_new_title (new_title : string)
  | D_photo_id (photo_id : option string)
  | D_inviter_id (inviter_id : option string)
  | D_message_id (message_id : Z)
  | D_permissions (new_permissions old_permissions : list string).

Record ChatActionResult := {
  action_type : ChatActionType;
  action_data : option ChatActionData
}.

(** [Object.keys(participant?.rights || {})]. *)
Definition rights_keys (rights : ChannelParticipant -> option (list string))
    (participant : option ChannelParticipant) : list string :=
  default [] (participant ≫= rights).

Definition getChatAction (update : ChannelEvent) : option ChatActionResult :=
  match event_className update with
  | UpdateNewChannelMessage =>
      match event_message update with
      | Some (message_id, Some action) =>
          match action with
          | MessageActionChatEditTitle title =>
              Some {| action_type := A_title_changed;
                      action_data := Some (D_new_title title) |}
          | MessageActionChatEditPhoto photo_id =>
              Some {| action_type := A_photo_changed;
                      action_data := Some (D_photo_id photo_id) |}
          | MessageActionChatDeletePhoto =>
              Some {| action_type := A_photo_deleted; action_data := None |}
          | MessageActionChatAddUser users =>
              Some {| action_type := A_join;
                      action_data := Some (D_inviter_id (head users)) |}
          | MessageActionChatDeleteUser =>
              Some {| action_type := A_leave; action_data := None |}
          | MessageActionPinMessage =>
              Some {| action_type := A_message_pinned;
                      action_data := Some (D_message_id message_id) |}
          | MessageActionOther => None
          end
      | _ => None
      end
  | UpdateChannelParticipant =>
      let newRights := length (rights_keys adminRights (newParticipant update)) in
      let prevRights := length (rights_keys adminRights (prevParticipant update)) in
      if negb (newRights =? prevRights)%nat then
        Some {| action_type := A_admin_rights_changed;
                action_data :=
                  Some (D_permissions (rights_keys adminRights (newParticipant update))
                          (rights_keys adminRights (prevParticipant update))) |}
      else
        let newBanRights := length (rights_keys bannedRights (newParticipant update)) in
        let prevBanRights := length (rights_keys bannedRights (prevParticipant update)) in
        if negb (newBanRights =? prevBanRights)%nat then
          Some {| action_type := A_member_rights_changed;
                  action_data :=
                    Some (D_permissions (rights_keys bannedRights (newParticipant update))
                            (rights_keys bannedRights (prevParticipant update))) |}
        else None
  | _ => None
  end.

(** The event as the raw handler sees it. *)
Definition raw_update_of (update : ChannelEvent) : RawUpdate :=
  {| className := event_className update;
     hasChatAction := match getChatAction update with Some _ => true | None => false end;
     rawBody := event_body update |}.

(** An administrator who loses one right and gains another. *)
Definition rights_swapped : ChannelEvent :=
  {| event_className := UpdateChannelParticipant;
     event_message := None;
     newParticipant := Some {| adminRights := Some ["banUsers"; "pinMessages"];
                               bannedRights := None |};
     prevParticipant := Some {| adminRights := Some ["banUsers"; "deleteMessages"];
                                bannedRights := None |};
     event_body := "" |}.

(** A channel message that pins message 9. *)
Definition pin_event : ChannelEvent :=
  {| event_className := UpdateNewChannelMessage;
     event_message := Some (9, Some MessageActionPinMessage);
     newParticipant := None; prevParticipant := None; event_body := "" |}.

(** ** Media of a message ([getMediaFromMessage]) *)

(** An entry of [photo.sizes]: of class [PhotoSize], or of another class
    (cached, stripped or progressive sizes). *)
Inductive PhotoSizeEntry :=
  | PhotoSize (size w h : Z)
  | PhotoSizeOther.

Inductive PhotoObject :=
  | PhotoEmpty
  | Photo (photo_id accessHash : option string) (sizes : option (list PhotoSizeEntry)).

Inductive DocumentAttribute :=
  | DocumentAttributeVideo (w h duration : Z)
  | DocumentAttributeAudio (voice : bool) (duration : Z) (title performer : option string)
  | DocumentAttributeSticker
  | DocumentAttributeAnimated
  | DocumentAttributeFilename (fileName : string)
  | DocumentAttributeImageSize (w h : Z)
  | DocumentAttributeOther.

Inductive DocumentObject :=
  | DocumentEmpty
  | Document (doc_id accessHash : option string) (size : Z) (mimeType : string)
      (attributes : option (list DocumentAttribute)).

(** [message.media], by class name. *)
Inductive MediaObject :=
  | MessageMediaEmpty
  | MessageMediaPhoto (photo : option PhotoObject)
  | MessageMediaDocument (document : option DocumentObject)
  | MessageMediaOther.

Inductive MediaType :=
  | M_photo | M_video | M_document | M_audio | M_voice | M_sticker | M_animation.

Record MessageMedia := {
  media_type : MediaType;
  file_id : option string;
  file_unique_id : option string;
  file_size : option Z;
  mime_type : option string;
  width : option Z;
  height : option Z;
  media_duration : option Z;
  file_name : option string;
  media_title : option string;
  media_performer : option string
}.

(** [Number(size) || undefined]: a size of 0 is left out. *)
Definition size_or_undefined (size : Z) : option Z :=
  if size =? 0 then None else Some size.

(** [Array.prototype.find] with a type guard on the class name: the
    first element of the class, with its fields. *)
Definition find_as {A B} (guard : A -> option B) (l : list A) : option B :=
  head (omap guard l).

Definition as_PhotoSize (e : PhotoSizeEntry) : option (Z * Z * Z) :=
  match e with PhotoSize size w h => Some (size, w, h) | PhotoSizeOther => None end.

Definition as_video (a : DocumentAttribute) : option (Z * Z * Z) :=
  match a with DocumentAttributeVideo w h duration => Some (w, h, duration) | _ => None end.

Definition as_audio (a : DocumentAttribute)
    : option (bool * Z * option string * option string) :=
  match a with
  | DocumentAttributeAudio voice duration title performer =>
      Some (voice, duration, title, performer)
  | _ => None
  end.

Definition as_sticker (a : DocumentAttribute) : option unit :=
  match a with DocumentAttributeSticker => Some tt | _ => None end.

Definition as_animated (a : DocumentAttribute) : option unit :=
  match a with DocumentAttributeAnimated => Some tt | _ => None end.

Definition as_filename (a : DocumentAttribute) : option string :=
  match a with DocumentAttributeFilename fileName => Some fileName | _ => None end.

Definition as_image_size (a : DocumentAttribute) : option (Z * Z) :=
  match a with DocumentAttributeImageSize w h => Some (w, h) | _ => None end.

Definition getMediaFromMessage (media : option MediaObject) : option MessageMedia :=
  match media with
  | None | Some MessageMediaEmpty => None
  | Some (MessageMediaPhoto photo) =>
      match photo with
      | None | Some PhotoEmpty => None
      | Some (Photo photo_id accessHash sizes) =>
          match find_as as_PhotoSize (default [] sizes) with
          | None => None
          | Some (size, w, h) =>
              Some {| media_type := M_photo;
                      file_id := photo_id;
                      file_unique_id := accessHash;
                      file_size := size_or_undefined size;
                      mime_type := None;
                      width := Some w;
                      height := Some h;
                      media_duration := None;
                      file_name := None;
                      media_title := None;
                      media_performer := None |}
          end
      end
  | Some (MessageMediaDocument document) =>
      match document with
      | None | Some DocumentEmpty => None
      | Some (Document doc_id accessHash size mimeType attrs) =>
          let attributes := default [] attrs in
          let videoAttr := find_as as_video attributes in
          let audioAttr := find_as as_audio attributes in
          let stickerAttr := find_as as_sticker attributes in
          let animatedAttr := find_as as_animated attributes in
          let filenameAttr := find_as as_filename attributes in
          let imageAttr := find_as as_image_size attributes in
          let baseMedia (type : MediaType) (w h d : option Z)
                (name title performer : option string) :=
            {| media_type := type;
               file_id := doc_id;
               file_unique_id := accessHash;
               file_size := size_or_undefined size;
               mime_type := Some mimeType;
               width := w;
               height := h;
               media_duration := d;
               file_name := name;
               media_title := title;
               media_performer := performer |} in
          match videoAttr with
          | Some (w, h, duration) =>
              Some (baseMedia M_video (Some w) (Some h) (Some duration)
                      filenameAttr None None)
          | None =>
          match audioAttr with
          | Some (voice, duration, title, performer) =>
              Some (baseMedia (if voice then M_voice else M_audio) None None (Some duration)
                      filenameAttr title performer)
          | None =>
          match stickerAttr with
          | Some _ =>
              Some (baseMedia M_sticker (fst <$> imageAttr) (snd <$> imageAttr) None
                      None None None)
          | None =>
          match animatedAttr with
          | Some _ =>
              Some (baseMedia M_animation (fst <$> imageAttr) (snd <$> imageAttr) None
                      filenameAttr None None)
          | None =>
              Some (baseMedia M_document None None None filenameAttr None None)
          end end end end
      end
  | Some MessageMediaOther => None
  end.

(** A photo with a stripped thumbnail and two sizes. *)
Definition holiday_photo : MediaObject :=
  MessageMediaPhoto
    (Some (Photo (Some "7001") (Some "99")
             (Some [PhotoSizeOther; PhotoSize 52000 320 240; PhotoSize 460000 1280 960]))).

(** * Properties *)

(** ** Lists *)

Lemma omap_app_list {A B} (f : A -> option B) (l1 l2 : list A) :
  omap f (l1 ++ l2) = omap f l1 ++ omap f l2.
Proof.
  induction l1 as [|x l1 IH]; [done|]. cbn. destruct (f x); cbn; by rewrite IH.
Qed.

Lemma filter_perm {A} (f : A -> bool) (l1 l2 : list A) :
  l1 ≡ₚ l2 -> List.filter f l1 ≡ₚ List.filter f l2.
Proof.
  induction 1 as [|x l1 l2 _ IH|x y l|l1 l2 l3 _ IH1 _ IH2]; cbn.
  - done.
  - destruct (f x); by rewrite IH.
  - destruct (f x), (f y); try done. apply Permutation_swap.
  - by rewrite IH1.
Qed.

Lemma filter_none {A} (f : A -> bool) (l : list A) :
  (∀ x, x ∈ l -> f x = false) -> List.filter f l = [].
Proof.
  induction l as [|x l IH]; intros H; cbn; [done|].
  rewrite (H x) by left. apply IH. intros y Hy. apply H. by right.
Qed.

Lemma filter_every {A} (f : A -> bool) (l : list A) :
  (∀ x, x ∈ l -> f x = true) -> List.filter f l = l.
Proof.
  induction l as [|x l IH]; intros H; cbn; [done|].
  rewrite (H x) by left. f_equal. apply IH. intros y Hy. apply H. by right.
Qed.

Lemma filter_app_keep {A} (f : A -> bool) (l1 l2 : list A) :
  (∀ x, x ∈ l2 -> f x = true) -> List.filter f (l1 ++ l2) = List.filter f l1 ++ l2.
Proof. intros H. by rewrite List.filter_app, (filter_every f l2). Qed.

Lemma filter_sublist {A} (f : A -> bool) (l : list A) : sublist (List.filter f l) l.
Proof.
  induction l as [|x l IH]; cbn; [constructor|].
  destruct (f x); by constructor.
Qed.

Lemma Forall_of_sublist {A} (P : A -> Prop) (l1 l2 : list A) :
  sublist l1 l2 -> Forall P l2 -> Forall P l1.
Proof.
  rewrite !Forall_forall. intros Hsub H x Hx. apply H.
  rewrite <- ?list_elem_of_In in *. by eapply elem_of_sublist.
Qed.

Lemma sublist_map {A B} (f : A -> B) (l1 l2 : list A) :
  sublist l1 l2 -> sublist (map f l1) (map f l2).
Proof. induction 1; cbn; by constructor. Qed.

Lemma findIndex_none {A} (f : A -> bool) (l : list A) :
  Forall (fun x => f x = false) l -> findIndex f l = None.
Proof. induction 1 as [|x l Hx _ IH]; cbn; [done|]. by rewrite Hx, IH. Qed.

Lemma findIndex_last {A} (f : A -> bool) (l : list A) (y : A) :
  Forall (fun x => f x = false) l -> f y = true ->
  findIndex f (l ++ [y]) = Some (length l).
Proof.
  intros Hl Hy. induction Hl as [|x l Hx _ IH]; cbn; [by rewrite Hy|].
  by rewrite Hx, IH.
Qed.

(** ** Stable sort *)

Section SortBy.
Context {A : Type} (key : A -> Z).

Lemma insert_by_perm x l : insert_by key x l ≡ₚ x :: l.
Proof.
  induction l as [|y l IH]; [done|]. cbn.
  destruct (key x <=? key y); [done|]. rewrite IH. apply Permutation_swap.
Qed.

Lemma sort_by_perm l : sort_by key l ≡ₚ l.
Proof.
  induction l as [|x l IH]; [done|]. cbn. rewrite insert_by_perm. by rewrite IH.
Qed.

Lemma sort_by_length l : length (sort_by key l) = length l.
Proof. by rewrite sort_by_perm. Qed.

Lemma insert_by_sorted x l :
  StronglySorted (key_le key) l -> StronglySorted (key_le key) (insert_by key x l).
Proof.
  induction 1 as [|y l Hl IH Hy]; cbn.
  - repeat constructor.
  - destruct (key x <=? key y) eqn:E.
    + apply Z.leb_le in E. constructor; [by constructor|].
      constructor; [done|]. eapply Forall_impl; [exact Hy|].
      unfold key_le. intros; lia.
    + apply Z.leb_gt in E. constructor; [done|].
      rewrite insert_by_perm. constructor; [|done]. unfold key_le. lia.
Qed.

Lemma sort_by_sorted l : StronglySorted (key_le key) (sort_by key l).
Proof.
  induction l as [|x l IH]; cbn; [constructor|]. by apply insert_by_sorted.
Qed.

(** Every element of a prefix of the sorted list is at most every
    element of the rest. *)
Lemma sort_by_take_drop k l a b :
  a ∈ take k (sort_by key l) -> b ∈ drop k (sort_by key l) -> key a <= key b.
Proof.
  intros Ha Hb. pose proof (sort_by_sorted l) as Hs.
  rewrite <- (take_drop k (sort_by key l)) in Hs.
  exact (StronglySorted_app_1_elem_of _ _ _ a b Hs Ha Hb).
Qed.
End SortBy.

Lemma sort_by_sorted_id {A} (key : A -> Z) (l : list A) :
  StronglySorted (key_le key) l -> sort_by key l = l.
Proof.
  induction 1 as [|x l Hl IH Hx]; cbn; [done|]. rewrite IH.
  destruct l as [|y r]; cbn; [done|].
  apply Forall_cons in Hx as [Hxy _]. unfold key_le in Hxy.
  by replace (key x <=? key y) with true by (symmetry; apply Z.leb_le; lia).
Qed.

(** ** Poll buffer: first facts *)

Lemma clearHandlers_buffer phone s :
  updateBuffers (clearHandlers phone s) !! phone = Some [].
Proof.
  unfold clearHandlers. destruct (updateHandlers s !! phone); simpl;
    apply lookup_insert_eq.
Qed.

Lemma clearHandlers_handler phone s :
  updateHandlers (clearHandlers phone s) !! phone = None.
Proof.
  unfold clearHandlers. destruct (updateHandlers s !! phone); simpl;
    apply lookup_delete_eq.
Qed.

Lemma clearHandlers_other phone q s :
  q ≠ phone ->
  updateBuffers (clearHandlers phone s) !! q = updateBuffers s !! q
  ∧ updateHandlers (clearHandlers phone s) !! q = updateHandlers s !! q.
Proof.
  intros Hq. unfold clearHandlers. destruct (updateHandlers s !! phone); simpl;
    rewrite lookup_insert_ne, lookup_delete_ne by congruence; done.
Qed.

Lemma clearHandlers_frame phone s :
  lastUpdateId (clearHandlers phone s) = lastUpdateId s
  ∧ processedMessages (clearHandlers phone s) = processedMessages s
  ∧ pendingAlbums (clearHandlers phone s) = pendingAlbums s.
Proof. unfold clearHandlers. destruct (updateHandlers s !! phone); done. Qed.

(** On an empty buffer [getBufferedUpdates] finds nothing and leaves the
    buffer empty. *)
Lemma getBufferedUpdates_empty phone offset s :
  updateBuffers s !! phone = Some [] ->
  snd (getBufferedUpdates phone offset s) = []
  ∧ updateBuffers (fst (getBufferedUpdates phone offset s)) !! phone = Some [].
Proof.
  intros Hb. unfold getBufferedUpdates. rewrite Hb. simpl.
  destruct (offset_falsy offset); simpl; [|done].
  split; [done|]. apply lookup_insert_eq.
Qed.

(** What [getUpdates] does once the mode test has passed. *)
Lemma getUpdates_polling user offset limit timeout options s :
  updateMode user ≠ ModeWebhook ->
  getUpdates user offset limit timeout options s =
    let s2 := fst (getBufferedUpdates (phoneNumber user) offset
                     (clearHandlers (phoneNumber user) s)) in
    if timeout =? 0 then (s2, Returned [])
    else
      (set_updateHandlers
         (insert (phoneNumber user)
            {| offset := offset; timeoutHandle := nextTimer s2; options := options |})
         (fst (setTimeout (PollTimeout (phoneNumber user)) (timeout * 1000) s2)),
       Pending (nextTimer s2)).
Proof.
  intros Hmode. unfold getUpdates.
  pose proof (getBufferedUpdates_empty (phoneNumber user) offset
                (clearHandlers (phoneNumber user) s)
                (clearHandlers_buffer _ _)) as [Hnil _].
  destruct (getBufferedUpdates (phoneNumber user) offset
              (clearHandlers (phoneNumber user) s)) as [s2 ups] eqn:E.
  simpl in Hnil. subst ups. simpl.
  destruct (updateMode user); try congruence; destruct (timeout =? 0); done.
Qed.

(** ** What each operation leaves alone *)

Lemma getBufferedUpdates_frame phone offset s :
  let s' := fst (getBufferedUpdates phone offset s) in
  processedMessages s' = processedMessages s
  ∧ pendingAlbums s' = pendingAlbums s
  ∧ updateHandlers s' = updateHandlers s
  ∧ lastUpdateId s' = lastUpdateId s
  ∧ timers s' = timers s
  ∧ nextTimer s' = nextTimer s.
Proof.
  unfold getBufferedUpdates. destruct (offset_falsy offset); [done|].
  by destruct (findIndex _ _).
Qed.

Lemma bufferUpdate_frame phone update s :
  let s' := fst (bufferUpdate phone update s) in
  processedMessages s' = processedMessages s
  ∧ pendingAlbums s' = pendingAlbums s
  ∧ lastUpdateId s' = lastUpdateId s
  ∧ nextTimer s' = nextTimer s.
Proof.
  unfold bufferUpdate.
  destruct (updateHandlers _ !! phone) as [h|]; [|done].
  destruct (getBufferedUpdates _ _ _) as [s2 ups] eqn:E.
  pose proof (getBufferedUpdates_frame phone (offset h)
    (set_updateBuffers
       (insert phone (default [] (updateBuffers s !! phone) ++ [update])) s)) as F.
  rewrite E in F. cbn in F. destruct F as (F1 & F2 & _ & F3 & _ & F4).
  destruct (0 <? length ups)%nat; cbn; by rewrite ?F1, ?F2, ?F3, ?F4.
Qed.

Lemma processUpdate_frame user update s :
  let s' := fst (processUpdate user update s) in
  processedMessages s' = processedMessages s
  ∧ pendingAlbums s' = pendingAlbums s
  ∧ lastUpdateId s' = lastUpdateId s
  ∧ nextTimer s' = nextTimer s.
Proof.
  unfold processUpdate. destruct (_ && _); [done|]. apply bufferUpdate_frame.
Qed.

Lemma handleMediaAlbum_frame message s :
  let s' := fst (handleMediaAlbum message s) in
  processedMessages s' = processedMessages s
  ∧ updateHandlers s' = updateHandlers s
  ∧ updateBuffers s' = updateBuffers s
  ∧ lastUpdateId s' = lastUpdateId s.
Proof.
  unfold handleMediaAlbum. destruct (groupedId message) as [g|]; [|done].
  destruct (pendingAlbums s !! g) as [a|]; [|done]. cbn.
  by case_match.
Qed.

(** Allocating an identifier and routing the update built with it
    leaves the cache and the pending albums alone. *)
Lemma emit_frame user now pl s :
  let s' := fst (let '(s1, newId) := generateUpdateId (phoneNumber user) now s in
                 processUpdate user {| update_id := newId; payload := pl |} s1) in
  processedMessages s' = processedMessages s
  ∧ pendingAlbums s' = pendingAlbums s
  ∧ nextTimer s' = nextTimer s.
Proof.
  cbv zeta.
  destruct (processUpdate_frame user
    {| update_id := snd (generateUpdateId (phoneNumber user) now s); payload := pl |}
    (fst (generateUpdateId (phoneNumber user) now s))) as (F1 & F2 & _ & F3).
  split; [exact F1|]. split; [exact F2|exact F3].
Qed.

(** The cache after a handler run: unchanged on a hit; otherwise the key
    is appended and, if that leaves more than [MAX_CACHE_SIZE] entries,
    the cleanup runs. *)
Lemma handleMessageUpdate_cache user message type now s :
  processedMessages (fst (handleMessageUpdate user message type now s)) =
    let key := messageKey user message type in
    if pm_has key (processedMessages s) then processedMessages s
    else
      let m1 := pm_set key now (processedMessages s) in
      if (MAX_CACHE_SIZE <? length m1)%nat then cleanupProcessedMessages now m1 else m1.
Proof.
  unfold handleMessageUpdate. cbv zeta.
  destruct (pm_has _ _); [done|].
  match goal with |- context [handleMediaAlbum message ?s2] => set (st2 := s2) end.
  assert (Hs2 : processedMessages st2 =
    if (MAX_CACHE_SIZE <? length (pm_set (messageKey user message type) now
                                    (processedMessages s)))%nat
    then cleanupProcessedMessages now
           (pm_set (messageKey user message type) now (processedMessages s))
    else pm_set (messageKey user message type) now (processedMessages s)).
  { subst st2. cbn. by case_match. }
  pose proof (handleMediaAlbum_frame message st2) as (F & _).
  destruct (handleMediaAlbum message st2) as [s3 messages]. cbn in F.
  rewrite <- Hs2, <- F.
  destruct (length messages =? 0)%nat; [done|].
  destruct (_ && _).
  - pose proof (processUpdate_frame user
      {| update_id := snd (generateUpdateId (phoneNumber user) now s3);
         payload := P_album (groupedId message) (map (convertToMessage now) messages) |}
      (fst (generateUpdateId (phoneNumber user) now s3))) as (G & _).
    apply G.
  - pose proof (processUpdate_frame user
      {| update_id := snd (generateUpdateId (phoneNumber user) now s3);
         payload := P_message type (convertToMessage now message) |}
      (fst (generateUpdateId (phoneNumber user) now s3))) as (G & _).
    apply G.
Qed.

Lemma handleMessageUpdate_duplicate user message type now s :
  pm_has (messageKey user message type) (processedMessages s) = true ->
  handleMessageUpdate user message type now s = (s, []).
Proof. intros H. unfold handleMessageUpdate. cbv zeta. by rewrite H. Qed.

(** The state in which [handleMessageUpdate] calls [handleMediaAlbum]
    differs from the one it started in by the cache only. *)
Lemma handleMessageUpdate_fresh user message type now s :
  pm_has (messageKey user message type) (processedMessages s) = false ->
  ∃ s2, pendingAlbums s2 = pendingAlbums s
        ∧ updateHandlers s2 = updateHandlers s
        ∧ updateBuffers s2 = updateBuffers s
        ∧ lastUpdateId s2 = lastUpdateId s
        ∧ timers s2 = timers s
        ∧ nextTimer s2 = nextTimer s
        ∧ handleMessageUpdate user message type now s =
            let '(s3, messages) := handleMediaAlbum message s2 in
            if (length messages =? 0)%nat then (s3, [])
            else
              if (1 <? length messages)%nat
                 && shouldIncludeUpdate T_album
                      (updateHandlers s3 !! phoneNumber user ≫= options)
              then
                let '(s4, newId) := generateUpdateId (phoneNumber user) now s3 in
                processUpdate user
                  {| update_id := newId;
                     payload := P_album (groupedId message)
                                  (map (convertToMessage now) messages) |} s4
              else
                let '(s4, newId) := generateUpdateId (phoneNumber user) now s3 in
                processUpdate user
                  {| update_id := newId;
                     payload := P_message type (convertToMessage now message) |} s4.
Proof.
  intros Hfresh. unfold handleMessageUpdate. cbv zeta. rewrite Hfresh.
  match goal with |- context [handleMediaAlbum message ?s2] => exists s2 end.
  repeat split; by case_match.
Qed.

Lemma rawEventHandler_cache user options update now s :
  processedMessages (fst (rawEventHandler user options update now s))
  = processedMessages s.
Proof.
  unfold rawEventHandler.
  destruct (className update); cbv zeta;
    repeat match goal with
           | |- context [if ?b then _ else _] => destruct b
           end;
    first [done | apply emit_frame].
Qed.

Lemma fireTimer_cache h s :
  processedMessages (fst (fireTimer h s)) = processedMessages s.
Proof.
  unfold fireTimer. destruct (timers s !! h) as [t|]; [|done].
  by destruct (callback t).
Qed.

Lemma getUpdates_cache user offset limit timeout options s :
  processedMessages (fst (getUpdates user offset limit timeout options s))
  = processedMessages s.
Proof.
  destruct (decide (updateMode user = ModeWebhook)) as [Hm|Hm].
  - unfold getUpdates. by rewrite Hm.
  - rewrite getUpdates_polling by done. cbv zeta.
    pose proof (getBufferedUpdates_frame (phoneNumber user) offset
                  (clearHandlers (phoneNumber user) s)) as (F & _).
    pose proof (clearHandlers_frame (phoneNumber user) s) as (_ & G & _).
    cbv zeta in F. destruct (timeout =? 0); cbn; by rewrite F, G.
Qed.

Lemma run_cons c cs s :
  run (c :: cs) s = (fst (run cs (fst (step c s))),
                     snd (step c s) ++ snd (run cs (fst (step c s)))).
Proof.
  cbn [run]. destruct (step c s) as [s1 e1]. cbn [fst snd].
  by destruct (run cs s1).
Qed.

(** ** Sequence numbers *)

(** The identifier [generateUpdateId] computes from the stored value. *)
Lemma generateUpdateId_value phone now s :
  snd (generateUpdateId phone now s) =
    match lastUpdateId s !! phone with
    | Some v => if v =? 0 then now + 1 else v + 1
    | None => now + 1
    end
  ∧ lastUpdateId (fst (generateUpdateId phone now s))
    = <[phone := snd (generateUpdateId phone now s)]> (lastUpdateId s).
Proof.
  unfold generateUpdateId. cbn. split; [|done].
  destruct (lastUpdateId s !! phone) as [v|]; [|done]. by destruct (v =? 0).
Qed.

(** A new identifier exceeds the stored one and is positive, as long as
    the stored one is positive and the clock is not negative. *)
Lemma generateUpdateId_grows phone now s :
  0 <= now ->
  (∀ v, lastUpdateId s !! phone = Some v -> 1 <= v) ->
  1 <= snd (generateUpdateId phone now s)
  ∧ ∀ v, lastUpdateId s !! phone = Some v -> v < snd (generateUpdateId phone now s).
Proof.
  intros Hnow Hpos. destruct (generateUpdateId_value phone now s) as [-> _].
  destruct (lastUpdateId s !! phone) as [v|]; [|split; [lia|done]].
  specialize (Hpos v eq_refl).
  replace (v =? 0) with false by (symmetry; apply Z.eqb_neq; lia).
  split; [lia|]. intros w Hw. simplify_eq. lia.
Qed.

Section Issuing.
Variable p : string.

Lemma bufferUpdate_produced phone update s :
  produced p (snd (bufferUpdate phone update s))
  = if bool_decide (phone = p) then [update] else [].
Proof.
  unfold bufferUpdate. destruct (updateHandlers _ !! phone) as [h|].
  - destruct (getBufferedUpdates _ _ _) as [s2 ups].
    destruct (0 <? length ups)%nat; cbn; by case_bool_decide.
  - cbn. by case_bool_decide.
Qed.

Lemma processUpdate_produced user update s :
  produced p (snd (processUpdate user update s))
  = if bool_decide (phoneNumber user = p) then [update] else [].
Proof.
  unfold processUpdate. destruct (_ && _).
  - cbn. by case_bool_decide.
  - apply bufferUpdate_produced.
Qed.

(** Allocating an identifier and routing the update built with it. *)
Lemma emit_issues user now pl s s0 :
  lastUpdateId s = lastUpdateId s0 ->
  issues p now s0
    (processUpdate user
       {| update_id := snd (generateUpdateId (phoneNumber user) now s); payload := pl |}
       (fst (generateUpdateId (phoneNumber user) now s))).
Proof.
  intros Hs.
  match goal with |- issues _ _ _ (processUpdate _ ?u ?s1) =>
    pose proof (processUpdate_frame user u s1) as (_ & _ & F & _);
    pose proof (processUpdate_produced user u s1) as Hp
  end.
  cbv zeta in F. unfold issues. rewrite Hp, F.
  destruct (generateUpdateId_value (phoneNumber user) now s) as [Hv ->].
  case_bool_decide as Hph.
  - right. eexists. split; [done|]. subst p. rewrite lookup_insert_eq.
    split; [done|]. cbn [update_id].
    destruct (generateUpdateId_value (phoneNumber user) now s0) as [-> _].
    by rewrite Hv, Hs.
  - left. split; [done|]. rewrite lookup_insert_ne by done. by rewrite Hs.
Qed.

Lemma handleMessageUpdate_issues user message type now s :
  issues p now s (handleMessageUpdate user message type now s).
Proof.
  unfold handleMessageUpdate. cbv zeta.
  destruct (pm_has _ _); [by left|].
  match goal with |- context [handleMediaAlbum message ?s2] => set (st2 := s2) end.
  assert (Hs2 : lastUpdateId st2 = lastUpdateId s).
  { subst st2. by case_match. }
  pose proof (handleMediaAlbum_frame message st2) as (_ & _ & _ & F).
  destruct (handleMediaAlbum message st2) as [s3 messages]. cbn in F.
  rewrite Hs2 in F.
  destruct (length messages =? 0)%nat; [left; by rewrite <- F|].
  destruct (_ && _); by apply emit_issues.
Qed.

Lemma rawEventHandler_issues user options update now s :
  issues p now s (rawEventHandler user options update now s).
Proof.
  unfold rawEventHandler.
  destruct (className update); cbv zeta;
    repeat match goal with
           | |- context [if ?b then _ else _] => destruct b
           end;
    first [by left | by apply emit_issues].
Qed.

Lemma messageEventHandler_issues user options message now s :
  issues p now s (messageEventHandler user options message now s).
Proof.
  unfold messageEventHandler. destruct (shouldIncludeUpdate _ _); [|by left].
  apply handleMessageUpdate_issues.
Qed.

(** The calls that read no clock create no update and leave every
    counter alone. *)
Lemma getUpdates_lastUpdateId user offset limit timeout options s :
  lastUpdateId (fst (getUpdates user offset limit timeout options s)) = lastUpdateId s.
Proof.
  destruct (decide (updateMode user = ModeWebhook)) as [Hm|Hm].
  - unfold getUpdates. by rewrite Hm.
  - rewrite getUpdates_polling by done. cbv zeta.
    pose proof (getBufferedUpdates_frame (phoneNumber user) offset
                  (clearHandlers (phoneNumber user) s)) as (_ & _ & _ & F & _).
    pose proof (clearHandlers_frame (phoneNumber user) s) as (G & _).
    cbv zeta in F. destruct (timeout =? 0); cbn; by rewrite F, G.
Qed.

Lemma fireTimer_lastUpdateId h s :
  lastUpdateId (fst (fireTimer h s)) = lastUpdateId s
  ∧ produced p (snd (fireTimer h s)) = [].
Proof.
  unfold fireTimer. destruct (timers s !! h) as [t|]; [|done].
  by destruct (callback t).
Qed.

Lemma step_issues c s :
  issues p (default 0 (clock_of c)) s (step c s).
Proof.
  destruct c as [user options|user options update now|user options message now
                |user offset limit timeout options|h]; cbn [step clock_of default].
  - left. split; [done|]. unfold setupEventHandling. cbn [fst].
    by destruct (clearHandlers_frame (phoneNumber user) s) as [-> _].
  - apply rawEventHandler_issues.
  - apply messageEventHandler_issues.
  - left. split; [done|]. cbn [fst]. by rewrite getUpdates_lastUpdateId.
  - left. destruct (fireTimer_lastUpdateId h s) as [-> ->]. done.
Qed.

(** Along a run, the identifiers created for [p] increase strictly and
    all exceed the counter the run started from. *)
Lemma run_increasing cs s :
  Forall clock_ok cs ->
  (∀ v, lastUpdateId s !! p = Some v -> 1 <= v) ->
  StronglySorted Z.lt (map update_id (produced p (snd (run cs s))))
  ∧ ∀ u, u ∈ produced p (snd (run cs s)) ->
      1 <= update_id u ∧ ∀ v, lastUpdateId s !! p = Some v -> v < update_id u.
Proof.
  revert s. induction cs as [|c cs IH]; intros s Hclk Hpos.
  - cbn. split; [constructor|]. intros u Hu. by apply elem_of_nil in Hu.
  - apply Forall_cons in Hclk as [Hc Hclk]. cbn [run].
    pose proof (step_issues c s) as Hstep.
    destruct (step c s) as [s1 e1]. specialize (IH s1 Hclk).
    destruct (run cs s1) as [s2 e2]. unfold issues in Hstep. cbn [fst snd] in *.
    replace (produced p (e1 ++ e2)) with (produced p e1 ++ produced p e2)
      by (symmetry; apply omap_app_list).
    destruct Hstep as [[He1 Hlast]|(u & He1 & Hlast & Hid)]; rewrite He1; cbn [app].
    + rewrite Hlast in IH. by apply IH.
    + assert (Hnow : 0 <= default 0 (clock_of c)).
      { unfold clock_ok in Hc. destruct (clock_of c); cbn; [done|lia]. }
      destruct (generateUpdateId_grows p _ s Hnow Hpos) as [Hone Hgt].
      rewrite <- Hid in Hone, Hgt.
      destruct IH as [Hsorted Hall].
      { intros v Hv. rewrite Hlast in Hv. by simplify_eq. }
      split.
      * cbn. constructor; [done|]. apply Forall_forall. intros x Hx.
        rewrite <- ?list_elem_of_In in Hx.
        apply list_elem_of_fmap in Hx as (u' & -> & Hu'). by apply Hall.
      * intros u' Hu'. apply elem_of_cons in Hu' as [->|Hu']; [by split|].
        destruct (Hall u' Hu') as [H1 H2]. split; [done|].
        intros v Hv. specialize (Hgt v Hv). specialize (H2 _ Hlast). lia.
Qed.

Lemma ids_for_cons q i issued :
  ids_for p ((q, i) :: issued)
  = if bool_decide (q = p) then i :: ids_for p issued else ids_for p issued.
Proof. unfold ids_for. cbn. by case_bool_decide. Qed.

Lemma generateMany_increasing calls s :
  Forall (fun c => 0 <= snd c) calls ->
  (∀ v, lastUpdateId s !! p = Some v -> 1 <= v) ->
  StronglySorted Z.lt (ids_for p (snd (generateMany calls s)))
  ∧ ∀ i, i ∈ ids_for p (snd (generateMany calls s)) ->
      1 <= i ∧ ∀ v, lastUpdateId s !! p = Some v -> v < i.
Proof.
  revert s. induction calls as [|[q now] calls IH]; intros s Hclk Hpos.
  - cbn. split; [constructor|]. intros u Hu. by apply elem_of_nil in Hu.
  - apply Forall_cons in Hclk as [Hc Hclk]. cbn [generateMany snd] in *.
    destruct (generateUpdateId_value q now s) as [_ Hlast].
    pose proof (generateUpdateId_grows q now s Hc) as Hgrow.
    destruct (generateUpdateId q now s) as [s1 newId]. cbn [fst snd] in *.
    specialize (IH s1 Hclk).
    destruct (generateMany calls s1) as [s2 ids]. cbn [fst snd] in *.
    rewrite ids_for_cons.
    destruct (decide (q = p)) as [->|Hq].
    + rewrite bool_decide_eq_true_2 by done.
      destruct (Hgrow Hpos) as [Hone Hgt]. rewrite Hlast, lookup_insert_eq in IH.
      destruct IH as [Hsorted Hall]; [intros v Hv; by simplify_eq|].
      split.
      * constructor; [done|]. apply Forall_forall. intros x Hx.
        rewrite <- ?list_elem_of_In in Hx. by apply Hall.
      * intros i Hi. apply elem_of_cons in Hi as [->|Hi]; [by split|].
        destruct (Hall i Hi) as [H1 H2]. split; [done|].
        intros v Hv. specialize (Hgt v Hv). specialize (H2 _ eq_refl). lia.
    + rewrite bool_decide_eq_false_2 by done.
      rewrite Hlast, lookup_insert_ne in IH by done. by apply IH.
Qed.
End Issuing.

(** C10. From the start of the process on, and as long as the clock
    does not read a negative time, the identifiers that
    [generateUpdateId] returns for one account increase strictly from
    call to call, whatever calls for other accounts come in between; and
    in every run of the engine the updates created for one account carry
    strictly increasing identifiers. A strictly increasing sequence has
    no repetition. *)
Theorem update_ids_strictly_increasing (phone : string) :
  (∀ calls, Forall (fun c => 0 <= snd c) calls ->
     StronglySorted Z.lt (ids_for phone (snd (generateMany calls init))))
  ∧ (∀ cs, Forall clock_ok cs ->
       StronglySorted Z.lt (map update_id (produced phone (snd (run cs init))))
       ∧ NoDup (map update_id (produced phone (snd (run cs init))))).
Proof.
  split.
  - intros calls Hc. by apply generateMany_increasing.
  - intros cs Hc.
    destruct (run_increasing phone cs init Hc) as [Hs _]; [done|].
    split; [done|]. revert Hs. generalize (map update_id (produced phone (snd (run cs init)))).
    intros l. induction 1 as [|x l Hl IH Hx]; constructor; [|done].
    intros Hin. rewrite Forall_forall in Hx. rewrite <- ?list_elem_of_In in Hin.
    apply Hx in Hin. lia.
Qed.

Lemma update_ids_strictly_increasing_witness :
  Forall (fun c => 0 <= snd c) example_calls
  ∧ Forall clock_ok example_run
  ∧ StronglySorted Z.lt
      (ids_for (phoneNumber alice) (snd (generateMany example_calls init)))
  ∧ StronglySorted Z.lt
      (map update_id (produced (phoneNumber alice) (snd (run example_run init)))).
Proof.
  assert (H1 : Forall (fun c : string * Z => 0 <= snd c) example_calls)
    by (repeat constructor; cbn; lia).
  assert (H2 : Forall clock_ok example_run)
    by (repeat constructor; unfold clock_ok; cbn; lia).
  destruct (update_ids_strictly_increasing (phoneNumber alice)) as [Hgen Hrun].
  split; [exact H1|]. split; [exact H2|].
  split; [exact (Hgen example_calls H1) | exact (proj1 (Hrun example_run H2))].
Defined.

(** ** Dedup cache: eviction *)

Implicit Types (m victims : list (MessageKey * Z)) (k : MessageKey) (e : MessageKey * Z).

Lemma key_eqb_eq a b : key_eqb a b = true <-> a = b.
Proof.
  destruct a as [[pa ia] ta], b as [[pb ib] tb]. unfold key_eqb. cbn.
  rewrite !andb_true_iff, Z.eqb_eq, bool_decide_eq_true, String.eqb_eq.
  split; [intros [[-> ->] ->]; done|]. intros H. by simplify_eq.
Qed.

Lemma pm_has_true k m : pm_has k m = true <-> k ∈ map fst m.
Proof.
  unfold pm_has. rewrite existsb_exists, list_elem_of_fmap. split.
  - intros (e & He & Hk). apply key_eqb_eq in Hk. exists e.
    split; [done|]. by apply list_elem_of_In.
  - intros (e & -> & He). exists e. split; [by apply list_elem_of_In|].
    by apply key_eqb_eq.
Qed.

Lemma pm_has_false k m : pm_has k m = false <-> k ∉ map fst m.
Proof.
  rewrite <- pm_has_true. destruct (pm_has k m); split; try done; congruence.
Qed.

Lemma pm_set_fresh k v m : pm_has k m = false -> pm_set k v m = m ++ [(k, v)].
Proof. intros H. unfold pm_set. by rewrite H. Qed.

Lemma pm_has_app k m1 m2 : pm_has k m1 = true -> pm_has k (m1 ++ m2) = true.
Proof. unfold pm_has. rewrite existsb_app. by intros ->. Qed.

(** The second loop, seen as one filter: an entry survives when its key
    is not among the victims. *)
Lemma fold_pm_delete victims m :
  fold_left (fun acc e => pm_delete (fst e) acc) victims m
  = List.filter (fun e => negb (existsb (fun v => key_eqb (fst e) (fst v)) victims)) m.
Proof.
  revert m. induction victims as [|v victims IH]; intros m; cbn.
  - symmetry. apply filter_true.
  - rewrite IH. unfold pm_delete. induction m as [|e m IHm]; cbn; [done|].
    destruct (key_eqb (fst e) (fst v)); cbn; [apply IHm|].
    destruct (existsb _ victims); cbn; [apply IHm|]. f_equal. apply IHm.
Qed.

Lemma elem_of_remove_expired now m e :
  e ∈ remove_expired now m <-> e ∈ m ∧ ¬ snd e < now - MESSAGE_CACHE_TTL.
Proof.
  unfold remove_expired. rewrite list_elem_of_In, filter_In, <- list_elem_of_In.
  rewrite negb_true_iff, Z.ltb_ge. split; intros [? ?]; split; (done || lia).
Qed.

Lemma remove_expired_keys_NoDup now m :
  NoDup (map fst m) -> NoDup (map fst (remove_expired now m)).
Proof.
  unfold remove_expired. induction m as [|e m IH]; cbn; [done|].
  rewrite !NoDup_cons. intros [Hn Hd]. destruct (negb _); cbn; [|by apply IH].
  apply NoDup_cons. split; [|by apply IH].
  rewrite list_elem_of_fmap in *. intros (e' & He & Hin). apply Hn. exists e'.
  split; [done|]. apply list_elem_of_In, filter_In in Hin as [Hin _].
  by apply list_elem_of_In.
Qed.

(** With unique keys, the second loop keeps exactly the entries that
    come after the victims in the sorted order. *)
Lemma remove_oldest_perm m :
  NoDup (map fst m) -> (MAX_CACHE_SIZE < length m)%nat ->
  remove_oldest m ≡ₚ drop (length m - MAX_CACHE_SIZE) (sort_by snd m).
Proof.
  intros Hnd Hlen. unfold remove_oldest, oldest_entries.
  replace (MAX_CACHE_SIZE <? length m)%nat with true
    by (symmetry; apply Nat.ltb_lt; lia).
  set (k := (length m - MAX_CACHE_SIZE)%nat). rewrite fold_pm_delete.
  set (srt := sort_by snd m).
  assert (Hperm : m ≡ₚ take k srt ++ drop k srt).
  { rewrite take_drop. symmetry. apply sort_by_perm. }
  assert (Hnd' : NoDup (map fst (take k srt ++ drop k srt))) by by rewrite <- Hperm.
  rewrite (filter_perm _ _ _ Hperm), List.filter_app.
  rewrite fmap_app in Hnd'. apply NoDup_app in Hnd' as (_ & Hdisj & _).
  rewrite (filter_none _ (take k srt)).
  2:{ intros e He. apply negb_false_iff, existsb_exists. exists e.
      split; [by apply list_elem_of_In|]. by apply key_eqb_eq. }
  cbn. rewrite filter_every; [done|].
  intros e He. apply negb_true_iff.
  destruct (existsb _ (take k srt)) eqn:E; [|done].
  apply existsb_exists in E as (v & Hv & Heq). apply key_eqb_eq in Heq.
  exfalso. apply (Hdisj (fst v)).
  - apply list_elem_of_fmap. exists v. split; [done|]. by apply list_elem_of_In.
  - rewrite <- Heq. apply list_elem_of_fmap. by exists e.
Qed.

Lemma remove_oldest_small m :
  (length m <= MAX_CACHE_SIZE)%nat -> remove_oldest m = m.
Proof.
  intros H. unfold remove_oldest.
  by replace (MAX_CACHE_SIZE <? length m)%nat with false
    by (symmetry; apply Nat.ltb_ge; lia).
Qed.

Lemma elem_of_remove_oldest m e : e ∈ remove_oldest m -> e ∈ m.
Proof.
  unfold remove_oldest. destruct (MAX_CACHE_SIZE <? length m)%nat; [|done].
  rewrite fold_pm_delete, list_elem_of_In, filter_In, <- list_elem_of_In. tauto.
Qed.

Lemma cleanup_sublist now m : sublist (cleanupProcessedMessages now m) m.
Proof.
  unfold cleanupProcessedMessages, remove_oldest, remove_expired.
  destruct (MAX_CACHE_SIZE <? _)%nat.
  - rewrite fold_pm_delete. etrans; apply filter_sublist.
  - apply filter_sublist.
Qed.

(** C8. When inserting a new key leaves the dedup cache with more than
    [MAX_CACHE_SIZE] entries, [handleMessageUpdate] runs the cleanup on
    it. The cleanup first drops exactly the entries whose timestamp is
    older than the TTL. If more than [MAX_CACHE_SIZE] entries remain, it
    then drops entries until [MAX_CACHE_SIZE] are left, and every entry
    it drops in this second step is at least as old as every entry it
    keeps; if no more than [MAX_CACHE_SIZE] remain, it drops nothing
    more. Nothing is ever added by the cleanup. *)
Theorem cleanup_evicts_expired_then_oldest user message type now s :
  let key := messageKey user message type in
  let inserted := pm_set key now (processedMessages s) in
  let unexpired := remove_expired now inserted in
  let kept := processedMessages (fst (handleMessageUpdate user message type now s)) in
  NoDup (map fst (processedMessages s)) ->
  pm_has key (processedMessages s) = false ->
  (MAX_CACHE_SIZE < length inserted)%nat ->
  kept = cleanupProcessedMessages now inserted
  ∧ (∀ e, e ∈ unexpired <-> e ∈ inserted ∧ ¬ snd e < now - MESSAGE_CACHE_TTL)
  ∧ (∀ e, e ∈ kept -> e ∈ unexpired)
  ∧ (length kept <= MAX_CACHE_SIZE)%nat
  ∧ length kept = Nat.min (length unexpired) MAX_CACHE_SIZE
  ∧ ((length unexpired <= MAX_CACHE_SIZE)%nat -> kept = unexpired)
  ∧ (∀ e e', e ∈ unexpired -> e ∉ kept -> e' ∈ kept -> snd e <= snd e').
Proof.
  intros key inserted unexpired kept Hnd Hfresh Hover.
  assert (Hkept : kept = remove_oldest unexpired).
  { subst kept. rewrite handleMessageUpdate_cache. cbv zeta. fold key.
    rewrite Hfresh. fold inserted.
    by replace (MAX_CACHE_SIZE <? length inserted)%nat with true
      by (symmetry; apply Nat.ltb_lt; lia). }
  assert (Hnd1 : NoDup (map fst unexpired)).
  { apply remove_expired_keys_NoDup. subst inserted.
    rewrite pm_set_fresh, fmap_app by done. apply NoDup_app.
    split; [done|]. split; [|apply NoDup_singleton].
    intros k Hk Hk'. apply list_elem_of_singleton in Hk'. subst k.
    by apply pm_has_false in Hfresh. }
  split; [exact Hkept|].
  split; [intros e; apply elem_of_remove_expired|].
  split; [intros e He; rewrite Hkept in He; by apply elem_of_remove_oldest|].
  destruct (decide (length unexpired <= MAX_CACHE_SIZE)%nat) as [Hsmall|Hbig].
  - rewrite Hkept, remove_oldest_small by done.
    split; [done|]. split; [lia|]. split; [done|]. intros e e' He Hne. done.
  - assert (Hperm : kept ≡ₚ drop (length unexpired - MAX_CACHE_SIZE)
                                  (sort_by snd unexpired)).
    { rewrite Hkept. apply remove_oldest_perm; [done|lia]. }
    assert (Hlen : length kept = MAX_CACHE_SIZE).
    { rewrite Hperm, length_drop, sort_by_length. lia. }
    split; [lia|]. split; [lia|]. split; [lia|].
    intros e e' He Hne He'. rewrite Hperm in Hne, He'.
    apply (sort_by_take_drop snd (length unexpired - MAX_CACHE_SIZE) unexpired);
      [|done].
    rewrite <- (sort_by_perm snd unexpired) in He.
    rewrite <- (take_drop (length unexpired - MAX_CACHE_SIZE)) in He.
    apply elem_of_app in He as [He|He]; done.
Qed.

Lemma cleanup_evicts_expired_then_oldest_witness :
  let s1 := fst (handleMessageUpdate alice (plain_message 1000) T_message 1000 full_cache) in
  NoDup (map fst (processedMessages full_cache))
  ∧ pm_has (messageKey alice (plain_message 1000) T_message)
      (processedMessages full_cache) = false
  ∧ length (processedMessages s1) = MAX_CACHE_SIZE
  ∧ ∀ e, e ∈ processedMessages s1 -> ¬ snd e < 1000 - MESSAGE_CACHE_TTL.
Proof.
  assert (H1 : NoDup (map fst (processedMessages full_cache))).
  { unfold full_cache. cbn [processedMessages set_processedMessages].
    rewrite <- list_fmap_compose. apply NoDup_fmap_2; [|apply NoDup_seq].
    intros i j Hij. cbn in Hij. injection Hij as Hij. lia. }
  assert (H2 : pm_has (messageKey alice (plain_message 1000) T_message)
                 (processedMessages full_cache) = false) by (vm_compute; reflexivity).
  assert (H3 : (MAX_CACHE_SIZE <
                length (pm_set (messageKey alice (plain_message 1000) T_message) 1000
                          (processedMessages full_cache)))%nat).
  { apply Nat.ltb_lt. vm_compute. reflexivity. }
  destruct (cleanup_evicts_expired_then_oldest alice (plain_message 1000) T_message
              1000 full_cache H1 H2 H3) as (_ & Hexp & Hsub & _ & Hlen & _).
  split; [exact H1|]. split; [exact H2|]. split.
  - rewrite Hlen. apply Nat.min_r, Nat.leb_le. vm_compute. reflexivity.
  - intros e He. by apply Hsub, Hexp in He as [_ He].
Defined.

(** ** Dedup filter *)

(** A call leaves the cache alone or remembers one new key at its clock
    reading. *)
Lemma step_cache_shape c s :
  processedMessages (fst (step c s)) = processedMessages s
  ∨ ∃ k now, clock_of c = Some now
             ∧ pm_has k (processedMessages s) = false
             ∧ processedMessages (fst (step c s))
               = cache_insert k now (processedMessages s).
Proof.
  destruct c as [user options|user options update now|user options message now
                |user offset limit timeout options|h]; cbn [step fst clock_of].
  - left. unfold setupEventHandling. cbn [fst].
    by destruct (clearHandlers_frame (phoneNumber user) s) as (_ & -> & _).
  - left. apply rawEventHandler_cache.
  - unfold messageEventHandler. destruct (shouldIncludeUpdate _ _); [|by left].
    rewrite handleMessageUpdate_cache. cbv zeta.
    destruct (pm_has _ _) eqn:Ehas; [by left|]. right. eauto.
  - left. apply getUpdates_cache.
  - left. apply fireTimer_cache.
Qed.

(** The keys of the cache stay unique, whatever the clock does. *)
Lemma step_keys_NoDup c s :
  NoDup (map fst (processedMessages s)) ->
  NoDup (map fst (processedMessages (fst (step c s)))).
Proof.
  intros Hnd.
  destruct (step_cache_shape c s) as [->|(k & now & _ & Hfresh & ->)]; [done|].
  unfold cache_insert. cbv zeta. rewrite pm_set_fresh by done.
  assert (Hnd1 : NoDup (map fst (processedMessages s ++ [(k, now)]))).
  { rewrite fmap_app. apply NoDup_app. split; [done|].
    split; [|apply NoDup_singleton].
    intros x Hx Hx'. apply list_elem_of_singleton in Hx'. subst x.
    by apply pm_has_false in Hfresh. }
  destruct (MAX_CACHE_SIZE <? _)%nat; [|done].
  eapply sublist_NoDup; [exact Hnd1|]. apply sublist_map, cleanup_sublist.
Qed.

Lemma run_keys_NoDup cs s :
  NoDup (map fst (processedMessages s)) ->
  NoDup (map fst (processedMessages (fst (run cs s)))).
Proof.
  revert s. induction cs as [|c cs IH]; intros s Hnd; [done|].
  rewrite run_cons. cbn [fst]. by apply IH, step_keys_NoDup.
Qed.

(** Below capacity a call appends at most one entry to the cache and
    removes none. *)
Lemma step_cache c s :
  (length (processedMessages s) < MAX_CACHE_SIZE)%nat ->
  ∃ suffix, processedMessages (fst (step c s)) = processedMessages s ++ suffix
            ∧ (length suffix <= 1)%nat.
Proof.
  intros Hlen.
  assert (Hsame : ∀ m : list (MessageKey * Z), m = processedMessages s ->
            ∃ suffix, m = processedMessages s ++ suffix ∧ (length suffix <= 1)%nat).
  { intros m ->. exists []. rewrite app_nil_r. split; [done|cbn; lia]. }
  destruct c as [user options|user options update now|user options message now
                |user offset limit timeout options|h]; cbn [step fst].
  - apply Hsame. unfold setupEventHandling. cbn [fst].
    by destruct (clearHandlers_frame (phoneNumber user) s) as (_ & -> & _).
  - apply Hsame, rawEventHandler_cache.
  - unfold messageEventHandler. destruct (shouldIncludeUpdate _ _); [|by apply Hsame].
    rewrite handleMessageUpdate_cache. cbv zeta.
    destruct (pm_has _ _) eqn:Ehas; [by apply Hsame|].
    rewrite pm_set_fresh by done.
    replace (MAX_CACHE_SIZE <? _)%nat with false.
    + eexists. split; [done|]. cbn. lia.
    + symmetry. apply Nat.ltb_ge. rewrite length_app. cbn. lia.
  - apply Hsame, getUpdates_cache.
  - apply Hsame, fireTimer_cache.
Qed.

Lemma run_cache cs s :
  (length (processedMessages s) + length cs <= MAX_CACHE_SIZE)%nat ->
  ∃ suffix, processedMessages (fst (run cs s)) = processedMessages s ++ suffix
            ∧ (length suffix <= length cs)%nat.
Proof.
  revert s. induction cs as [|c cs IH]; intros s Hlen.
  - exists []. cbn. by rewrite app_nil_r.
  - cbn [run length] in *.
    destruct (step_cache c s) as (x & Hx & Hlx); [lia|].
    destruct (step c s) as [s1 e1]. cbn [fst] in Hx.
    destruct (IH s1) as (y & Hy & Hly).
    { rewrite Hx, length_app. lia. }
    destruct (run cs s1) as [s2 e2]. cbn [fst] in *.
    exists (x ++ y). rewrite Hy, Hx, <- app_assoc. split; [done|].
    rewrite length_app. lia.
Qed.

(** Whatever the clock does: once an event has been processed,
    processing it again is a no-op as long as the cache cannot have gone
    over [MAX_CACHE_SIZE] entries in between, however much time has
    passed. *)
Lemma duplicate_discarded_below_capacity user message type now1 now2 cs s :
  (length (processedMessages s) + 1 + length cs <= MAX_CACHE_SIZE)%nat ->
  let first := handleMessageUpdate user message type now1 s in
  let between := run cs (fst first) in
  let second := handleMessageUpdate user message type now2 (fst between) in
  second = (fst between, [])
  ∧ (length (produced (phoneNumber user) (snd first ++ snd second)) <= 1)%nat.
Proof.
  intros Hlen first between second.
  assert (Hfirst : pm_has (messageKey user message type)
                     (processedMessages (fst first)) = true
                   ∧ (length (processedMessages (fst first))
                      <= S (length (processedMessages s)))%nat).
  { subst first. rewrite handleMessageUpdate_cache. cbv zeta.
    destruct (pm_has _ (processedMessages s)) eqn:Ehas; [split; [done|lia]|].
    rewrite pm_set_fresh by done.
    replace (MAX_CACHE_SIZE <? _)%nat with false
      by (symmetry; apply Nat.ltb_ge; rewrite length_app; cbn; lia).
    split; [|rewrite length_app; cbn; lia].
    unfold pm_has. rewrite existsb_app. cbn.
    rewrite (proj2 (key_eqb_eq _ _)) by done. by rewrite orb_true_r. }
  destruct Hfirst as [Hin Hsize].
  destruct (run_cache cs (fst first)) as (suffix & Hsuffix & _); [lia|].
  assert (Hsecond : second = (fst between, [])).
  { subst second. apply handleMessageUpdate_duplicate.
    subst between. rewrite Hsuffix. by apply pm_has_app. }
  split; [exact Hsecond|].
  rewrite Hsecond. cbn [snd]. rewrite app_nil_r. subst first.
  destruct (handleMessageUpdate_issues (phoneNumber user) user message type now1 s)
    as [[Hp _]|(u & Hp & _)]; rewrite Hp; cbn; lia.
Qed.

Lemma cache_ok_sublist now m m' : sublist m' m -> cache_ok now m -> cache_ok now m'.
Proof.
  intros Hsub (Hnd & Hs & Hb). split; [|split].
  - eapply sublist_NoDup; [exact Hnd|]. by apply sublist_map.
  - revert Hs. clear -Hsub. induction Hsub as [|x l1 l2 Hsub IH|x l1 l2 Hsub IH].
    + done.
    + intros Hs. apply StronglySorted_inv in Hs as [Hs Hx].
      constructor; [by apply IH|]. by eapply Forall_of_sublist.
    + intros Hs. apply StronglySorted_inv in Hs as [Hs _]. by apply IH.
  - by eapply Forall_of_sublist.
Qed.

Lemma cache_ok_weaken lo hi m : lo <= hi -> cache_ok lo m -> cache_ok hi m.
Proof.
  intros Hle (Hnd & Hs & Hb). split; [done|]. split; [done|].
  eapply Forall_impl; [exact Hb|]. cbn. intros; lia.
Qed.

Lemma cache_ok_append lo now k m :
  cache_ok lo m -> lo <= now -> pm_has k m = false -> cache_ok now (m ++ [(k, now)]).
Proof.
  intros (Hnd & Hs & Hb) Hle Hfresh. split; [|split].
  - rewrite fmap_app. apply NoDup_app. split; [done|].
    split; [|apply NoDup_singleton].
    intros x Hx Hx'. apply list_elem_of_singleton in Hx'. subst x.
    by apply pm_has_false in Hfresh.
  - apply StronglySorted_app_2; [|done|repeat constructor].
    intros x y Hx Hy. apply list_elem_of_singleton in Hy. subst y.
    rewrite Forall_forall in Hb. specialize (Hb x Hx). unfold key_le. cbn. lia.
  - apply Forall_app. split; [|by repeat constructor].
    eapply Forall_impl; [exact Hb|]. cbn. intros; lia.
Qed.

Lemma cache_insert_ok lo now k m :
  cache_ok lo m -> lo <= now -> pm_has k m = false -> cache_ok now (cache_insert k now m).
Proof.
  intros Hok Hle Hfresh. unfold cache_insert. cbv zeta. rewrite pm_set_fresh by done.
  pose proof (cache_ok_append lo now k m Hok Hle Hfresh) as Hok1.
  destruct (MAX_CACHE_SIZE <? _)%nat; [|done].
  eapply cache_ok_sublist; [apply cleanup_sublist|done].
Qed.

(** The cleanup keeps an entry that is not older than the TTL and has
    fewer than [MAX_CACHE_SIZE] entries after it, together with all the
    entries after it. *)
Lemma cleanup_keeps now T k t before after :
  cache_ok T (before ++ (k, t) :: after) ->
  now - MESSAGE_CACHE_TTL <= t ->
  (length after < MAX_CACHE_SIZE)%nat ->
  ∃ before', cleanupProcessedMessages now (before ++ (k, t) :: after)
             = before' ++ (k, t) :: after.
Proof.
  intros Hok Ht Hlen.
  assert (Hafter : ∀ e, e ∈ (k, t) :: after -> t <= snd e).
  { destruct Hok as (_ & Hs & _). apply StronglySorted_app_1_r in Hs.
    apply StronglySorted_inv in Hs as [_ Hs]. rewrite Forall_forall in Hs.
    intros e He. apply elem_of_cons in He as [->|He]; [done|].
    rewrite <- ?list_elem_of_In in Hs. by apply Hs. }
  unfold cleanupProcessedMessages.
  assert (Hexp : remove_expired now (before ++ (k, t) :: after)
                 = remove_expired now before ++ (k, t) :: after).
  { unfold remove_expired. apply filter_app_keep. intros e He.
    apply negb_true_iff, Z.ltb_ge. specialize (Hafter e He). lia. }
  rewrite Hexp. set (before1 := remove_expired now before).
  assert (Hok1 : cache_ok T (before1 ++ (k, t) :: after)).
  { eapply cache_ok_sublist; [|exact Hok]. apply sublist_app; [|done].
    apply filter_sublist. }
  unfold remove_oldest.
  destruct (MAX_CACHE_SIZE <? _)%nat eqn:Eover; [|by exists before1].
  apply Nat.ltb_lt in Eover. rewrite length_app in Eover. cbn [length] in Eover.
  rewrite fold_pm_delete. unfold oldest_entries.
  destruct Hok1 as (Hnd & Hs & _).
  rewrite (sort_by_sorted_id snd _ Hs), length_app. cbn [length].
  rewrite take_app_le by lia.
  eexists. apply filter_app_keep. intros e He. apply negb_true_iff.
  destruct (existsb _ _) eqn:E; [|done]. exfalso.
  apply existsb_exists in E as (v & Hv & Heq). apply key_eqb_eq in Heq.
  rewrite fmap_app in Hnd. apply NoDup_app in Hnd as (_ & Hdisj & _).
  apply (Hdisj (fst v)).
  - apply list_elem_of_fmap. exists v. split; [done|].
    rewrite <- ?list_elem_of_In in Hv. eapply elem_of_sublist; [exact Hv|].
    apply sublist_take.
  - rewrite <- Heq. apply list_elem_of_fmap. by exists e.
Qed.

Lemma cached_at_weaken k t n n' m : (n <= n')%nat -> cached_at k t n m -> cached_at k t n' m.
Proof. intros Hle (b & a & -> & Ha). exists b, a. split; [done|lia]. Qed.

Lemma cached_at_has k t n m : cached_at k t n m -> pm_has k m = true.
Proof.
  intros (b & a & -> & _). apply pm_has_true. rewrite fmap_app. cbn.
  apply elem_of_app. right. left.
Qed.

(** A key just inserted survives the cleanup its insertion triggers. *)
Lemma cache_insert_new lo now k m :
  cache_ok lo m -> lo <= now -> pm_has k m = false ->
  cached_at k now 0 (cache_insert k now m).
Proof.
  intros Hok Hle Hfresh.
  pose proof (cache_ok_append lo now k m Hok Hle Hfresh) as Hok1.
  unfold cache_insert. cbv zeta. rewrite pm_set_fresh by done.
  destruct (MAX_CACHE_SIZE <? _)%nat.
  - destruct (cleanup_keeps now now k now m [] Hok1) as (b & ->).
    + unfold MESSAGE_CACHE_TTL. lia.
    + cbn. unfold MAX_CACHE_SIZE. lia.
    + by exists b, [].
  - by exists m, [].
Qed.

(** Inserting another key keeps a cached key that is within the TTL and
    has fewer than [MAX_CACHE_SIZE - 1] newer entries. *)
Lemma cache_insert_keeps lo now k t n k' m :
  cache_ok lo m -> lo <= now -> now - MESSAGE_CACHE_TTL <= t ->
  pm_has k' m = false -> cached_at k t n m -> (n + 1 < MAX_CACHE_SIZE)%nat ->
  cached_at k t (n + 1) (cache_insert k' now m).
Proof.
  intros Hok Hle Ht Hfresh (b & a & -> & Ha) Hn.
  pose proof (cache_ok_append lo now k' _ Hok Hle Hfresh) as Hok1.
  unfold cache_insert. cbv zeta. rewrite pm_set_fresh by done.
  rewrite <- app_assoc in *. cbn [app] in *.
  destruct (MAX_CACHE_SIZE <? _)%nat.
  - destruct (cleanup_keeps now now k t b (a ++ [(k', now)]) Hok1 Ht) as (b' & ->).
    + rewrite length_app. cbn. lia.
    + exists b', (a ++ [(k', now)]). split; [done|]. rewrite length_app. cbn. lia.
  - exists b, (a ++ [(k', now)]). split; [done|]. rewrite length_app. cbn. lia.
Qed.

Lemma step_cache_ok c s lo :
  cache_ok lo (processedMessages s) ->
  (∀ now, clock_of c = Some now -> lo <= now) ->
  cache_ok (default lo (clock_of c)) (processedMessages (fst (step c s))).
Proof.
  intros Hok Hclk.
  destruct (step_cache_shape c s) as [->|(k & now & Hc & Hfresh & ->)].
  - destruct (clock_of c) as [now|]; cbn; [|done].
    eapply cache_ok_weaken; [|exact Hok]. by apply Hclk.
  - rewrite Hc. cbn. eapply cache_insert_ok; [exact Hok| |done]. by apply Hclk.
Qed.

Lemma step_cache_keeps c s lo k t n :
  cache_ok lo (processedMessages s) ->
  (∀ now, clock_of c = Some now -> lo <= now ∧ now - MESSAGE_CACHE_TTL <= t) ->
  cached_at k t n (processedMessages s) ->
  (n + 1 < MAX_CACHE_SIZE)%nat ->
  cached_at k t (n + 1) (processedMessages (fst (step c s))).
Proof.
  intros Hok Hclk Hk Hn.
  destruct (step_cache_shape c s) as [->|(k' & now & Hc & Hfresh & ->)].
  - eapply cached_at_weaken; [|exact Hk]. lia.
  - destruct (Hclk now Hc) as [Hlo Ht]. by eapply cache_insert_keeps.
Qed.

Lemma omap_clock_cons c cs :
  omap clock_of (c :: cs)
  = match clock_of c with
    | Some now => now :: omap clock_of cs
    | None => omap clock_of cs
    end.
Proof. cbn. by destruct (clock_of c). Qed.

Lemma run_cache_ok cs s lo hi :
  cache_ok lo (processedMessages s) ->
  StronglySorted Z.le (omap clock_of cs) ->
  Forall (fun t => lo <= t <= hi) (omap clock_of cs) ->
  lo <= hi ->
  cache_ok hi (processedMessages (fst (run cs s))).
Proof.
  revert s lo. induction cs as [|c cs IH]; intros s lo Hok Hs Hb Hle.
  - by eapply cache_ok_weaken.
  - rewrite run_cons. cbn [fst]. rewrite omap_clock_cons in Hs, Hb.
    destruct (clock_of c) as [now|] eqn:Hc.
    + apply StronglySorted_inv in Hs as [Hs Hnow].
      apply Forall_cons in Hb as [Hn Hb].
      pose proof (step_cache_ok c s lo Hok) as Hok1. rewrite Hc in Hok1. cbn in Hok1.
      apply (IH _ now); [|done| |lia].
      * apply Hok1. intros ? [= <-]. lia.
      * rewrite Forall_forall in *. intros x Hx.
        specialize (Hnow x Hx). specialize (Hb x Hx). lia.
    + pose proof (step_cache_ok c s lo Hok) as Hok1. rewrite Hc in Hok1. cbn in Hok1.
      apply (IH _ lo); [|done|done|done]. apply Hok1. intros ? [=].
Qed.

Lemma run_cache_keeps cs s lo hi k t n :
  cache_ok lo (processedMessages s) ->
  StronglySorted Z.le (omap clock_of cs) ->
  Forall (fun t' => lo <= t' <= hi) (omap clock_of cs) ->
  hi - MESSAGE_CACHE_TTL <= t ->
  cached_at k t n (processedMessages s) ->
  (n + length cs < MAX_CACHE_SIZE)%nat ->
  cached_at k t (n + length cs) (processedMessages (fst (run cs s))).
Proof.
  revert s lo n. induction cs as [|c cs IH]; intros s lo n Hok Hs Hb Ht Hk Hn.
  - cbn. by rewrite Nat.add_0_r.
  - rewrite run_cons. cbn [fst length] in *. rewrite omap_clock_cons in Hs, Hb.
    replace (n + S (length cs))%nat with (n + 1 + length cs)%nat by lia.
    destruct (clock_of c) as [now|] eqn:Hc.
    + apply StronglySorted_inv in Hs as [Hs Hnow].
      apply Forall_cons in Hb as [Hn' Hb].
      pose proof (step_cache_ok c s lo Hok) as Hok1. rewrite Hc in Hok1. cbn in Hok1.
      apply (IH _ now); [| done | | done | | lia].
      * apply Hok1. intros ? [= <-]. lia.
      * rewrite Forall_forall in *. intros x Hx.
        specialize (Hnow x Hx). specialize (Hb x Hx). lia.
      * eapply step_cache_keeps; [exact Hok| |done|lia].
        intros now' Hnow'. rewrite Hc in Hnow'. injection Hnow' as <-. lia.
    + pose proof (step_cache_ok c s lo Hok) as Hok1. rewrite Hc in Hok1. cbn in Hok1.
      apply (IH _ lo); [| done | done | done | | lia].
      * apply Hok1. intros ? [=].
      * eapply step_cache_keeps; [exact Hok| |done|lia]. rewrite Hc. intros ? [=].
Qed.

(** C7, as the code has it. Run the engine from its initial state under
    a clock that never goes back. An event with some account, message
    identifier and kind is handled at instant [t1] and handled again at
    instant [t2], no later than [t1] plus the TTL, with fewer than
    [MAX_CACHE_SIZE] engine calls in between. Then the two observations
    together create at most one update; and if the first one was itself
    not a repetition, the second is a no-op: it leaves the state as it
    is, so no sequence number is allocated, and emits nothing. *)
Theorem duplicate_discarded_within_ttl user message type t1 t2 before between :
  StronglySorted Z.le
    (omap clock_of before ++ [t1] ++ omap clock_of between ++ [t2]) ->
  t2 - t1 <= MESSAGE_CACHE_TTL ->
  (length between < MAX_CACHE_SIZE)%nat ->
  let s0 := fst (run before init) in
  let first := handleMessageUpdate user message type t1 s0 in
  let mid := run between (fst first) in
  let second := handleMessageUpdate user message type t2 (fst mid) in
  (length (produced (phoneNumber user) (snd first ++ snd second)) <= 1)%nat
  ∧ (pm_has (messageKey user message type) (processedMessages s0) = false ->
     second = (fst mid, [])).
Proof.
  intros Htimes Httl Hlen s0 first mid second.
  apply StronglySorted_app in Htimes as (Hb1 & Hsb & Htimes).
  apply StronglySorted_inv in Htimes as [Htimes Ht1].
  apply StronglySorted_app in Htimes as (Hb2 & Hsm & _).
  apply Forall_app in Ht1 as [Ht1 Ht12].
  apply Forall_cons in Ht12 as [Ht12 _].
  assert (Hok0 : cache_ok t1 (processedMessages s0)).
  { subst s0. destruct (omap clock_of before) as [|t0 ts] eqn:Eb.
    - apply (run_cache_ok before init t1 t1); [|by rewrite Eb|by rewrite Eb|lia].
      repeat split; constructor.
    - apply (run_cache_ok before init t0 t1).
      + repeat split; constructor.
      + by rewrite Eb.
      + rewrite Eb. apply Forall_forall. intros x Hx.
        rewrite <- ?list_elem_of_In in Hx. split.
        * apply elem_of_cons in Hx as [->|Hx]; [lia|].
          apply StronglySorted_inv in Hsb as [_ Hsb]. rewrite Forall_forall in Hsb.
          rewrite <- ?list_elem_of_In in Hsb. by apply Hsb.
        * apply (Hb1 x t1); [done|]. left.
      + apply (Hb1 t0 t1); left. }
  assert (Hsecond : pm_has (messageKey user message type) (processedMessages s0) = false
                    -> second = (fst mid, [])).
  { intros Hfresh. subst second. apply handleMessageUpdate_duplicate.
    assert (Hfirst : processedMessages (fst first)
                     = cache_insert (messageKey user message type) t1
                         (processedMessages s0)).
    { subst first. rewrite handleMessageUpdate_cache. cbv zeta. by rewrite Hfresh. }
    apply (cached_at_has _ t1 (0 + length between)). subst mid.
    apply (run_cache_keeps between (fst first) t1 t2); [| done | | lia | | lia].
    - rewrite Hfirst. by apply (cache_insert_ok t1); [|lia|].
    - apply Forall_forall. intros x Hx. rewrite <- ?list_elem_of_In in Hx. split.
      + rewrite Forall_forall in Ht1. rewrite <- ?list_elem_of_In in Ht1. by apply Ht1.
      + apply (Hb2 x t2); [done|]. left.
    - rewrite Hfirst. by apply (cache_insert_new t1); [|lia|]. }
  split; [|exact Hsecond].
  destruct (pm_has (messageKey user message type) (processedMessages s0)) eqn:Ehas.
  - assert (Hfirst : first = (s0, [])) by by apply handleMessageUpdate_duplicate.
    rewrite Hfirst. cbn [snd app].
    destruct (handleMessageUpdate_issues (phoneNumber user) user message type t2 (fst mid))
      as [[Hp _]|(u & Hp & _)]; fold second in Hp; rewrite Hp; cbn; lia.
  - rewrite (Hsecond eq_refl). cbn [snd]. rewrite app_nil_r.
    destruct (handleMessageUpdate_issues (phoneNumber user) user message type t1 s0)
      as [[Hp _]|(u & Hp & _)]; fold first in Hp; rewrite Hp; cbn; lia.
Qed.

Lemma duplicate_discarded_within_ttl_witness :
  let before := [CallSetup alice None; CallMessage alice None (plain_message 5) 900] in
  let s0 := fst (run before init) in
  let first := handleMessageUpdate alice (plain_message 7) T_message 1000 s0 in
  let mid := run steady_run (fst first) in
  StronglySorted Z.le
    (omap clock_of before ++ [1000] ++ omap clock_of steady_run ++ [61000])
  ∧ 61000 - 1000 <= MESSAGE_CACHE_TTL
  ∧ (length steady_run < MAX_CACHE_SIZE)%nat
  ∧ pm_has (messageKey alice (plain_message 7) T_message) (processedMessages s0) = false
  ∧ handleMessageUpdate alice (plain_message 7) T_message 61000 (fst mid) = (fst mid, []).
Proof.
  intros before s0 first mid.
  assert (H1 : StronglySorted Z.le
                 (omap clock_of before ++ [1000] ++ omap clock_of steady_run ++ [61000]))
    by (simpl; repeat first [lia | constructor]).
  assert (H2 : 61000 - 1000 <= MESSAGE_CACHE_TTL) by (unfold MESSAGE_CACHE_TTL; lia).
  assert (H3 : (length steady_run < MAX_CACHE_SIZE)%nat)
    by (apply Nat.ltb_lt; reflexivity).
  assert (H4 : pm_has (messageKey alice (plain_message 7) T_message)
                 (processedMessages s0) = false) by (vm_compute; reflexivity).
  split; [exact H1|]. split; [exact H2|]. split; [exact H3|]. split; [exact H4|].
  exact (proj2 (duplicate_discarded_within_ttl alice (plain_message 7) T_message
                  1000 61000 before steady_run H1 H2 H3) H4).
Defined.

(** C7, as stated, fails under capacity pressure. Message 0 of [alice]
    is processed at instant 1000 and gets update 1001; messages 1 to
    1000 follow within the next second; the last insertion takes the
    cache over [MAX_CACHE_SIZE] and the cleanup evicts the oldest entry,
    the one of message 0. Message 0 observed again at instant 2001, one
    second after the first time and well inside the TTL, is processed
    anew and gets update 2002. *)
Lemma duplicate_within_ttl_processed_twice :
  let first := handleMessageUpdate alice (plain_message 0) T_message 1000 init in
  let between := run burst (fst first) in
  let second := handleMessageUpdate alice (plain_message 0) T_message 2001 (fst between) in
  2001 - 1000 < MESSAGE_CACHE_TTL
  ∧ map update_id (produced (phoneNumber alice) (snd first)) = [1001]
  ∧ map update_id (produced (phoneNumber alice) (snd second)) = [2002]
  ∧ length (produced (phoneNumber alice) (snd first ++ snd second)) = 2%nat.
Proof. vm_compute. repeat split; reflexivity. Qed.

(** ** Album assembler *)

(** First fragment of a group: it is stored under the group and the
    initial timer of 300 ms is started; nothing is returned. *)
Lemma handleMediaAlbum_first message g s :
  groupedId message = Some g -> pendingAlbums s !! g = None ->
  snd (handleMediaAlbum message s) = []
  ∧ pendingAlbums (fst (handleMediaAlbum message s)) !! g
    = Some {| album_messages := [message]; album_timer := nextTimer s |}
  ∧ timers (fst (handleMediaAlbum message s)) !! nextTimer s
    = Some {| delay := 300; callback := AlbumInitial g |}.
Proof.
  intros Hg Hnone. unfold handleMediaAlbum. rewrite Hg, Hnone. cbn.
  by rewrite !lookup_insert_eq.
Qed.

(** Second fragment of a group that holds one: both are returned at
    once, sorted by identifier, and the group is removed. *)
Lemma handleMediaAlbum_second (m1 m2 : ApiMessage) g h s :
  groupedId m2 = Some g ->
  pendingAlbums s !! g = Some {| album_messages := [m1]; album_timer := h |} ->
  snd (handleMediaAlbum m2 s) = sort_by id [m1; m2]
  ∧ pendingAlbums (fst (handleMediaAlbum m2 s)) !! g = None.
Proof.
  intros Hg Hsome. unfold handleMediaAlbum. rewrite Hg, Hsome.
  cbn [album_messages album_timer app].
  assert (Hlen : length (sort_by id [m1; m2]) = 2%nat) by by rewrite sort_by_length.
  cbn [setTimeout]. rewrite Hlen. cbn. by rewrite lookup_delete_eq.
Qed.

Lemma sort_by_two (m1 m2 : ApiMessage) :
  sort_by id [m1; m2] = if id m1 <=? id m2 then [m1; m2] else [m2; m1].
Proof. reflexivity. Qed.

(** A lone fragment: the handler run emits nothing and starts the
    initial timer; when that timer fires the fragment is dropped from
    the pending albums and, again, nothing is emitted. *)
Lemma lone_fragment_dropped user message type now g s :
  groupedId message = Some g -> pendingAlbums s !! g = None ->
  pm_has (messageKey user message type) (processedMessages s) = false ->
  let offered := handleMessageUpdate user message type now s in
  let fired := fireTimer (nextTimer s) (fst offered) in
  snd offered = []
  ∧ pendingAlbums (fst offered) !! g
    = Some {| album_messages := [message]; album_timer := nextTimer s |}
  ∧ timers (fst offered) !! nextTimer s
    = Some {| delay := 300; callback := AlbumInitial g |}
  ∧ snd fired = []
  ∧ pendingAlbums (fst fired) !! g = None
  ∧ updateBuffers (fst fired) = updateBuffers s
  ∧ lastUpdateId (fst fired) = lastUpdateId s.
Proof.
  intros Hg Hnone Hfresh offered fired.
  destruct (handleMessageUpdate_fresh user message type now s Hfresh)
    as (s2 & Ha & Hh & Hb & Hl & Ht & Hn & Heq).
  assert (Hnone2 : pendingAlbums s2 !! g = None) by by rewrite Ha.
  destruct (handleMediaAlbum_first message g s2 Hg Hnone2) as (Hm & Hp & Htm).
  pose proof (handleMediaAlbum_frame message s2) as (_ & _ & Fb & Fl).
  cbv zeta in Fb, Fl.
  assert (Hoff : offered = (fst (handleMediaAlbum message s2), [])).
  { subst offered. rewrite Heq.
    destruct (handleMediaAlbum message s2) as [s3 messages]. cbn in Hm. by subst. }
  subst fired. rewrite Hoff. cbn [fst snd]. rewrite <- Hn.
  split; [done|]. split; [done|]. split; [done|].
  unfold fireTimer. rewrite Htm. cbn. rewrite lookup_delete_eq.
  rewrite Fb, Fl, Hb, Hl. done.
Qed.

(** C6. Two fragments of one group, the group not pending before the
    first, neither of them a repetition of an event already in the
    cache, and the second offered while the entry the first one created
    is still pending (its timer has not fired). If the album kind is
    not excluded by the options of a pending poll, then the first run
    emits nothing and the second creates exactly one update: an album
    for the group holding both fragments in ascending order of their
    message identifiers; the group is no longer pending afterwards. The
    two messages of the album carry the identifiers, the texts, the
    directions and the chats of the two fragments, and the group of the
    album. *)
Theorem album_of_two_fragments user (m1 m2 : ApiMessage) t1 t2 now1 now2 g s s1 :
  groupedId m1 = Some g -> groupedId m2 = Some g ->
  pendingAlbums s !! g = None ->
  pm_has (messageKey user m1 t1) (processedMessages s) = false ->
  let first := handleMessageUpdate user m1 t1 now1 s in
  pendingAlbums s1 !! g = pendingAlbums (fst first) !! g ->
  pm_has (messageKey user m2 t2) (processedMessages s1) = false ->
  shouldIncludeUpdate T_album (updateHandlers s1 !! phoneNumber user ≫= options) = true ->
  let second := handleMessageUpdate user m2 t2 now2 s1 in
  let fragments := if id m1 <=? id m2 then [m1; m2] else [m2; m1] in
  snd first = []
  ∧ (∃ u msgs, produced (phoneNumber user) (snd first ++ snd second) = [u]
          ∧ payload u = P_album (Some g) msgs
          ∧ msgs = map (convertToMessage now2) fragments
          ∧ map message_id msgs = [Z.min (id m1) (id m2); Z.max (id m1) (id m2)]
          ∧ map message_id msgs = map id fragments
          ∧ map text msgs = map msg_text fragments
          ∧ map out msgs = map msg_out fragments
          ∧ map chat_id msgs
            = map (fun x : ApiMessage => default EmptyString (chatId x)) fragments
          ∧ map group_id msgs = [Some g; Some g])
  ∧ StronglySorted Z.le (map id fragments)
  ∧ pendingAlbums (fst second) !! g = None.
Proof.
  intros Hg1 Hg2 Hnone Hfresh1 first Hpending Hfresh2 Halbum second fragments.
  destruct (lone_fragment_dropped user m1 t1 now1 g s Hg1 Hnone Hfresh1)
    as (Hfirst & Hentry & _).
  fold first in Hfirst, Hentry. rewrite Hentry in Hpending.
  destruct (handleMessageUpdate_fresh user m2 t2 now2 s1 Hfresh2)
    as (s2 & Ha & Hh & _ & _ & _ & _ & Heq).
  rewrite <- Ha in Hpending.
  destruct (handleMediaAlbum_second m1 m2 g _ s2 Hg2 Hpending) as (Hm & Hp).
  pose proof (handleMediaAlbum_frame m2 s2) as (_ & Fh & _). cbv zeta in Fh.
  fold second in Heq.
  destruct (handleMediaAlbum m2 s2) as [s3 messages]. cbn [fst snd] in *.
  rewrite sort_by_two in Hm. fold fragments in Hm. subst messages.
  assert (Hlen : length fragments = 2%nat)
    by (subst fragments; destruct (id m1 <=? id m2); reflexivity).
  rewrite Hlen, Fh, Hh, Halbum in Heq. cbn [Nat.eqb Nat.ltb Nat.leb andb] in Heq.
  split; [exact Hfirst|]. rewrite Hfirst. cbn [app]. split; [|split].
  - eexists _, (map (convertToMessage now2) fragments). rewrite Heq. split.
    + etrans; [apply processUpdate_produced|]. by rewrite bool_decide_eq_true_2.
    + split; [cbn; by rewrite Hg2|]. split; [done|].
      subst fragments. destruct (id m1 <=? id m2) eqn:E; cbn; rewrite Hg1, Hg2.
      * apply Z.leb_le in E. by rewrite Z.min_l, Z.max_r by lia.
      * apply Z.leb_gt in E. by rewrite Z.min_r, Z.max_l by lia.
  - subst fragments. destruct (id m1 <=? id m2) eqn:E; cbn.
    + apply Z.leb_le in E. repeat constructor. done.
    + apply Z.leb_gt in E. repeat constructor. lia.
  - rewrite Heq. destruct (emit_frame user now2
      (P_album (groupedId m2) (map (convertToMessage now2) fragments)) s3)
      as (_ & -> & _). exact Hp.
Qed.

Lemma album_of_two_fragments_witness :
  let first := handleMessageUpdate alice (album_fragment 11 77) T_message 1000 init in
  let second := handleMessageUpdate alice (album_fragment 10 77) T_message 1100 (fst first) in
  pendingAlbums init !! 77 = None
  ∧ pm_has (messageKey alice (album_fragment 11 77) T_message) (processedMessages init)
    = false
  ∧ pm_has (messageKey alice (album_fragment 10 77) T_message)
      (processedMessages (fst first)) = false
  ∧ shouldIncludeUpdate T_album
      (updateHandlers (fst first) !! phoneNumber alice ≫= options) = true
  ∧ ∃ u msgs, produced (phoneNumber alice) (snd first ++ snd second) = [u]
         ∧ payload u = P_album (Some 77) msgs
         ∧ map message_id msgs = [10; 11]
         ∧ map group_id msgs = [Some 77; Some 77].
Proof.
  intros first second.
  assert (H1 : pendingAlbums init !! 77 = None) by reflexivity.
  assert (H2 : pm_has (messageKey alice (album_fragment 11 77) T_message)
                 (processedMessages init) = false) by reflexivity.
  assert (H3 : pm_has (messageKey alice (album_fragment 10 77) T_message)
                 (processedMessages (fst first)) = false) by (vm_compute; reflexivity).
  assert (H4 : shouldIncludeUpdate T_album
                 (updateHandlers (fst first) !! phoneNumber alice ≫= options) = true)
    by (vm_compute; reflexivity).
  split; [exact H1|]. split; [exact H2|]. split; [exact H3|]. split; [exact H4|].
  destruct (album_of_two_fragments alice (album_fragment 11 77)
              (album_fragment 10 77) T_message T_message 1000 1100 77
              init (fst first) eq_refl eq_refl H1 H2 eq_refl H3 H4)
    as (_ & (u & msgs & Hu & Hp & _ & Hid & _ & _ & _ & _ & Hg) & _).
  exists u, msgs. split; [exact Hu|]. split; [exact Hp|]. split; [exact Hid|exact Hg].
Defined.

(** C6, as stated, fails when the dedup filter takes a fragment for a
    repetition. Message 11 of one chat is handled first and gets update
    1001. Then the two fragments of an album of another chat arrive,
    numbered 10 and 11, the second 100 ms after the first, while the
    timer of the group (handle 0, 300 ms) is pending. The key of the
    second fragment, account, identifier 11 and kind, is the key of the
    earlier message: the fragment is discarded and changes nothing. No
    album update is created, then or when the timer fires, and the
    first fragment is dropped with the pending entry. *)
Lemma second_fragment_taken_for_duplicate :
  let before := fst (run (take 2 colliding_album_run) init) in
  let second := messageEventHandler alice None (fragment_in "-1002" 11 77) 2100 before in
  groupedId (fragment_in "-1002" 10 77) = Some 77
  ∧ groupedId (fragment_in "-1002" 11 77) = Some 77
  ∧ pendingAlbums before !! 77
    = Some {| album_messages := [fragment_in "-1002" 10 77]; album_timer := 0 |}
  ∧ timers before !! 0%nat = Some {| delay := 300; callback := AlbumInitial 77 |}
  ∧ second = (before, [])
  ∧ produced (phoneNumber alice) (snd (run colliding_album_run init))
    = [{| update_id := 1001;
          payload := P_message T_message (convertToMessage 1000 (message_in "-1001" 11)) |}]
  ∧ produced (phoneNumber alice)
      (snd (run [CallTimer 0] (fst (run colliding_album_run init)))) = []
  ∧ pendingAlbums (fst (run [CallTimer 0] (fst (run colliding_album_run init)))) = ∅
  ∧ updateBuffers (fst (run [CallTimer 0] (fst (run colliding_album_run init))))
      !! phoneNumber alice
    = Some [{| update_id := 1001;
               payload := P_message T_message
                            (convertToMessage 1000 (message_in "-1001" 11)) |}].
Proof. vm_compute. repeat split; reflexivity. Qed.

(** C3, on the code. A single album fragment is offered for group 77
    and nothing else arrives. The handler run emits nothing; the initial
    timer (handle 0, 300 ms) fires and emits nothing either, and after
    it the pending albums, the poll buffer and the counter are all
    empty: the item is lost, no update for it is ever created. *)
Theorem lone_album_fragment_is_lost :
  let offered := messageEventHandler alice None (album_fragment 10 77) 1000 init in
  let fired := fireTimer 0 (fst offered) in
  snd offered = []
  ∧ timers (fst offered) !! 0%nat = Some {| delay := 300; callback := AlbumInitial 77 |}
  ∧ snd fired = []
  ∧ produced (phoneNumber alice)
      (snd (run [CallMessage alice None (album_fragment 10 77) 1000; CallTimer 0] init))
    = []
  ∧ pendingAlbums (fst fired) = ∅
  ∧ timers (fst fired) = ∅
  ∧ updateBuffers (fst fired) = ∅
  ∧ lastUpdateId (fst fired) = ∅.
Proof. vm_compute. repeat split; reflexivity. Qed.

(** ** Webhook sender *)

(** The loop never runs out of fuel before its own test ends it: any
    two amounts of fuel that cover the attempts left give the same
    result, so [sendWebhook] is the loop of the source. *)
Lemma sendWebhook_loop_fuel fetch random fuel fuel' attempt :
  (S maxRetries - attempt <= fuel)%nat -> (S maxRetries - attempt <= fuel')%nat ->
  sendWebhook_loop fetch random fuel attempt
  = sendWebhook_loop fetch random fuel' attempt.
Proof.
  revert fuel' attempt. induction fuel as [|fuel IH]; intros fuel' attempt H H'.
  - assert (Hout : (attempt <=? maxRetries)%nat = false) by (apply Nat.leb_gt; lia).
    destruct fuel'; cbn [sendWebhook_loop]; [done|]. by rewrite Hout.
  - cbn [sendWebhook_loop]. destruct (attempt <=? maxRetries)%nat eqn:Ein.
    + apply Nat.leb_le in Ein. destruct fuel' as [|fuel']; [lia|].
      cbn [sendWebhook_loop]. replace (attempt <=? maxRetries)%nat with true
        by (symmetry; apply Nat.leb_le; lia).
      destruct (fetch attempt); try done;
        destruct (attempt =? maxRetries)%nat; try done;
        by rewrite (IH fuel' (S attempt)) by lia.
    + destruct fuel'; cbn [sendWebhook_loop]; [done|]. by rewrite Ein.
Qed.

Section WebhookAlwaysFailing.
Variable fetch : nat -> FetchOutcome.
Variable random : nat -> Z.
Hypothesis fetch_fails : ∀ n, fetch n ≠ FetchOk.

Lemma sendWebhook_loop_failing fuel attempt :
  (attempt + fuel = S maxRetries)%nat -> (0 < fuel)%nat ->
  sendWebhook_loop fetch random fuel attempt =
    (failing_trace random attempt (fuel - 1) ++ [Attempt maxRetries], Exhausted).
Proof.
  revert attempt. induction fuel as [|fuel IH]; intros attempt Hsum Hpos; [lia|].
  cbn [sendWebhook_loop].
  replace (attempt <=? maxRetries)%nat with true
    by (symmetry; apply Nat.leb_le; lia).
  destruct (attempt =? maxRetries)%nat eqn:Elast.
  - apply Nat.eqb_eq in Elast. subst attempt.
    assert (fuel = 0%nat) as -> by lia. simpl.
    destruct (fetch maxRetries) eqn:Ef; try reflexivity.
    by destruct (fetch_fails maxRetries).
  - apply Nat.eqb_neq in Elast.
    rewrite (IH (S attempt)) by lia.
    replace (S fuel - 1)%nat with (S (fuel - 1)) by lia.
    unfold failing_trace. cbn [seq flat_map app].
    destruct (fetch attempt) eqn:Ef; try reflexivity.
    by destruct (fetch_fails attempt).
Qed.

Lemma attempts_of_failing_trace attempt count :
  attempts_of (failing_trace random attempt count) = seq attempt count.
Proof.
  revert attempt. induction count as [|count IH]; intros attempt; [done|].
  unfold failing_trace, attempts_of in *. cbn. f_equal. apply IH.
Qed.

Lemma waits_of_failing_trace attempt count :
  waits_of (failing_trace random attempt count) = map (backoffTime random) (seq attempt count).
Proof.
  revert attempt. induction count as [|count IH]; intros attempt; [done|].
  unfold failing_trace, waits_of in *. cbn. f_equal. apply IH.
Qed.
End WebhookAlwaysFailing.

(** With a jitter below 200 the delay after attempt [n] is at most the
    delay after attempt [n + 1]. *)
Lemma backoffTime_step random n :
  (∀ i, 0 <= random i < 200) ->
  backoffTime random n <= backoffTime random (S n).
Proof.
  intros Hr. unfold backoffTime, maxBackoffTime.
  pose proof (Hr n). pose proof (Hr (S n)).
  rewrite Nat2Z.inj_succ, Z.pow_succ_r by lia.
  assert (0 < 2 ^ Z.of_nat n) by (apply Z.pow_pos_nonneg; lia).
  lia.
Qed.

Lemma backoffTime_mono random n n' :
  (∀ i, 0 <= random i < 200) -> (n <= n')%nat ->
  backoffTime random n <= backoffTime random n'.
Proof.
  intros Hr Hle. induction Hle as [|j Hle IH]; [lia|].
  pose proof (backoffTime_step random j Hr). lia.
Qed.

(** C4. When every attempt fails (a response that is not ok, an abort
    after the timeout, a transport error), [sendWebhook] makes the
    attempts 0, 1, ..., 50, that is [maxRetries + 1 = 51] of them, and
    then returns without throwing. It waits once between two
    consecutive attempts; with a jitter in [0, 200) the wait after
    attempt [n] is [min (30000, 2^n * 1000 + jitter)], and the waits
    never decrease from one attempt to the next. *)
Theorem sendWebhook_always_failing fetch random :
  (∀ n, fetch n ≠ FetchOk) ->
  (∀ n, 0 <= random n < 200) ->
  let tr := fst (sendWebhook fetch random) in
  snd (sendWebhook fetch random) = Exhausted
  ∧ attempts_of tr = seq 0 (maxRetries + 1)
  ∧ length (attempts_of tr) = 51%nat
  ∧ tr = flat_map (fun n => [Attempt n;
                             Wait (Z.min 30000 (2 ^ Z.of_nat n * 1000 + random n))])
           (seq 0 maxRetries) ++ [Attempt maxRetries]
  ∧ waits_of tr = map (fun n => Z.min 30000 (2 ^ Z.of_nat n * 1000 + random n))
                    (seq 0 maxRetries)
  ∧ ∀ i j a b, (i <= j)%nat -> waits_of tr !! i = Some a -> waits_of tr !! j = Some b ->
      a <= b.
Proof.
  intros Hf Hr tr.
  assert (Hrun : sendWebhook fetch random =
                 (failing_trace random 0 maxRetries ++ [Attempt maxRetries], Exhausted)).
  { unfold sendWebhook. rewrite (sendWebhook_loop_failing fetch random Hf) by lia.
    reflexivity. }
  assert (Hback : ∀ n, backoffTime random n
                       = Z.min 30000 (2 ^ Z.of_nat n * 1000 + random n)).
  { intros n. unfold backoffTime, maxBackoffTime. lia. }
  assert (Hwaits : waits_of tr = map (backoffTime random) (seq 0 maxRetries)).
  { subst tr. rewrite Hrun. cbn [fst]. unfold waits_of. rewrite omap_app_list.
    fold (waits_of (failing_trace random 0 maxRetries)).
    rewrite waits_of_failing_trace. cbn [omap]. apply app_nil_r. }
  assert (Hatt : attempts_of tr = seq 0 (maxRetries + 1)).
  { subst tr. rewrite Hrun. cbn [fst]. unfold attempts_of. rewrite omap_app_list.
    fold (attempts_of (failing_trace random 0 maxRetries)).
    rewrite attempts_of_failing_trace. reflexivity. }
  split; [by rewrite Hrun|].
  split; [exact Hatt|].
  split; [by rewrite Hatt|].
  split.
  { subst tr. rewrite Hrun. cbn [fst]. f_equal. unfold failing_trace.
    apply flat_map_ext. intros n. by rewrite Hback. }
  split.
  { rewrite Hwaits. apply map_ext. intros n. apply Hback. }
  intros i j a b Hij Ha Hb. rewrite Hwaits in Ha, Hb.
  rewrite list_lookup_fmap in Ha, Hb.
  destruct (seq 0 maxRetries !! i) as [n|] eqn:Ei; [|done].
  destruct (seq 0 maxRetries !! j) as [m|] eqn:Ej; [|done].
  apply lookup_seq in Ei as [-> _]. apply lookup_seq in Ej as [-> _].
  simpl in Ha, Hb. simplify_eq. apply backoffTime_mono; [done|lia].
Qed.

Lemma sendWebhook_always_failing_witness :
  (∀ n, always_500 n ≠ FetchOk)
  ∧ (∀ n, 0 <= jitter_example n < 200)
  ∧ snd (sendWebhook always_500 jitter_example) = Exhausted
  ∧ length (attempts_of (fst (sendWebhook always_500 jitter_example))) = 51%nat.
Proof.
  assert (Hf : ∀ n, always_500 n ≠ FetchOk) by (intros n; discriminate).
  assert (Hr : ∀ n, 0 <= jitter_example n < 200)
    by (intros n; unfold jitter_example; apply Z.mod_pos_bound; lia).
  split; [exact Hf|]. split; [exact Hr|].
  destruct (sendWebhook_always_failing always_500 jitter_example Hf Hr)
    as (Hres & _ & Hlen & _).
  split; [exact Hres | exact Hlen].
Defined.

(** ** Poll buffer *)

(** C9. A [getUpdates] call for an account in webhook mode is rejected
    with the usage error before anything is touched: the state it leaves
    is the state it found, so the buffer, the waiter and its timer are
    as they were. *)
Theorem getUpdates_webhook_rejected user offset limit timeout options s :
  updateMode user = ModeWebhook ->
  ∃ err, getUpdates user offset limit timeout options s = (s, Rejected err).
Proof. intros Hmode. unfold getUpdates. rewrite Hmode. eauto. Qed.

Lemma getUpdates_webhook_rejected_witness :
  updateMode carol = ModeWebhook
  ∧ ∃ err, getUpdates carol (Some 5) 100 10 None
             (fst (bufferUpdate (phoneNumber carol) (update_numbered 6) init))
           = (fst (bufferUpdate (phoneNumber carol) (update_numbered 6) init),
              Rejected err).
Proof.
  split; [reflexivity|].
  apply (getUpdates_webhook_rejected carol (Some 5) 100 10 None). reflexivity.
Defined.

(** C2. [clearHandlers] leaves the account without a waiter and with an
    empty buffer, and touches no other account; [setupEventHandling]
    ends in that state; and a [getUpdates] call that is not rejected for
    webhook mode has cleared the buffer before it looks into it, so it
    hands back no buffered update and leaves the buffer empty. *)
Theorem clearHandlers_resets_buffer phone user offset limit timeout options sopts s :
  (updateBuffers (clearHandlers phone s) !! phone = Some []
   ∧ updateHandlers (clearHandlers phone s) !! phone = None
   ∧ ∀ q, q ≠ phone ->
       updateBuffers (clearHandlers phone s) !! q = updateBuffers s !! q
       ∧ updateHandlers (clearHandlers phone s) !! q = updateHandlers s !! q)
  ∧ updateBuffers (fst (setupEventHandling user sopts s)) !! phoneNumber user = Some []
  ∧ match getUpdates user offset limit timeout options s with
    | (_, Rejected _) => updateMode user = ModeWebhook
    | (s', Returned ups) =>
        ups = [] ∧ updateBuffers s' !! phoneNumber user = Some []
    | (s', Pending _) => updateBuffers s' !! phoneNumber user = Some []
    end.
Proof.
  split; [|split].
  - split; [apply clearHandlers_buffer|].
    split; [apply clearHandlers_handler|]. intros q Hq.
    by apply clearHandlers_other.
  - apply clearHandlers_buffer.
  - destruct (decide (updateMode user = ModeWebhook)) as [Hm|Hm].
    + unfold getUpdates. by rewrite Hm.
    + rewrite getUpdates_polling by done.
      pose proof (getBufferedUpdates_empty (phoneNumber user) offset
                    (clearHandlers (phoneNumber user) s)
                    (clearHandlers_buffer _ _)) as [_ Hb].
      cbv zeta. destruct (timeout =? 0); simpl; auto.
Qed.

Lemma clearHandlers_resets_buffer_witness :
  phoneNumber carol ≠ phoneNumber alice
  ∧ updateBuffers (clearHandlers (phoneNumber alice) buffered_3_to_7) !! phoneNumber alice
    = Some []
  ∧ updateBuffers (clearHandlers (phoneNumber alice) buffered_3_to_7) !! phoneNumber carol
    = updateBuffers buffered_3_to_7 !! phoneNumber carol.
Proof.
  assert (Hne : phoneNumber carol ≠ phoneNumber alice) by discriminate.
  destruct (clearHandlers_resets_buffer (phoneNumber alice) alice (Some 5) 100 0 None None
              buffered_3_to_7) as ((Hempty & _ & Hother) & _).
  split; [exact Hne|]. split; [exact Hempty|]. exact (proj1 (Hother _ Hne)).
Defined.

(** C1, on the code. After updates 3, 4, 5, 6, 7 were buffered,
    [getBufferedUpdates] with offset 5 would hand out 6 and 7, but
    [getUpdates] with offset 5 returns the empty list: its call of
    [clearHandlers] has emptied the buffer first, and the five updates
    are gone. *)
Theorem getUpdates_offset_5_returns_nothing :
  map update_id (default [] (updateBuffers buffered_3_to_7 !! phoneNumber alice))
    = [3; 4; 5; 6; 7]
  ∧ map update_id (snd (getBufferedUpdates (phoneNumber alice) (Some 5) buffered_3_to_7))
    = [6; 7]
  ∧ snd (getUpdates alice (Some 5) 100 0 None buffered_3_to_7) = Returned []
  ∧ updateBuffers (fst (getUpdates alice (Some 5) 100 0 None buffered_3_to_7))
      !! phoneNumber alice = Some [].
Proof. vm_compute. repeat split; reflexivity. Qed.

(** ** Waiter of the long poll *)

(** A [getUpdates] call with a timeout, outside webhook mode, registers
    the waiter and returns the pending promise. *)
Lemma getUpdates_registers user offset limit timeout options s :
  updateMode user ≠ ModeWebhook -> timeout ≠ 0 ->
  let h := {| offset := offset; timeoutHandle := nextTimer s; options := options |} in
  snd (getUpdates user offset limit timeout options s) = Pending (nextTimer s)
  ∧ waiting (phoneNumber user) h (fst (getUpdates user offset limit timeout options s))
  ∧ timers (fst (getUpdates user offset limit timeout options s)) !! nextTimer s
    = Some {| delay := timeout * 1000; callback := PollTimeout (phoneNumber user) |}.
Proof.
  intros Hm Ht h. rewrite getUpdates_polling by done. cbv zeta.
  replace (timeout =? 0) with false by (symmetry; by apply Z.eqb_neq).
  pose proof (getBufferedUpdates_frame (phoneNumber user) offset
                (clearHandlers (phoneNumber user) s)) as (_ & _ & _ & _ & _ & Fn).
  pose proof (getBufferedUpdates_empty (phoneNumber user) offset
                (clearHandlers (phoneNumber user) s)
                (clearHandlers_buffer _ _)) as [_ Hb].
  cbv zeta in Fn.
  assert (Hn : nextTimer (clearHandlers (phoneNumber user) s) = nextTimer s).
  { unfold clearHandlers. by destruct (updateHandlers s !! phoneNumber user). }
  rewrite Fn, Hn. cbn [fst snd]. split; [done|].
  unfold waiting, setTimeout. cbn. rewrite Fn, Hn, !lookup_insert_eq.
  split; [|done]. split; [done|]. split; [eauto|]. rewrite Hb. constructor.
Qed.

(** An update the offset filters out is buffered and the waiter stays. *)
Lemma bufferUpdate_filtered phone h update s :
  waiting phone h s -> passes_offset (offset h) update = false ->
  snd (bufferUpdate phone update s) = [Buffered phone update]
  ∧ waiting phone h (fst (bufferUpdate phone update s))
  ∧ timers (fst (bufferUpdate phone update s)) = timers s.
Proof.
  intros (Hh & Ht & Hb) Hp. unfold bufferUpdate. cbn [updateHandlers set_updateBuffers].
  rewrite Hh. unfold getBufferedUpdates. cbn [updateBuffers set_updateBuffers].
  rewrite lookup_insert_eq. cbn [default from_option Datatypes.id].
  apply orb_false_iff in Hp as [Hf Hlt]. rewrite Hf.
  rewrite findIndex_none.
  2:{ apply Forall_app. split; [|by repeat constructor].
      eapply Forall_impl; [exact Hb|]. intros u Hu.
      unfold passes_offset in Hu. by apply orb_false_iff in Hu as [_ Hu]. }
  cbn. split; [done|]. split; [|done]. unfold waiting. cbn. rewrite lookup_insert_eq.
  split; [done|]. split; [done|]. cbn. apply Forall_app. split; [done|].
  repeat constructor. unfold passes_offset. by rewrite Hf, Hlt.
Qed.

(** An update the offset lets through resolves the waiter with that
    update, cancels its timer, removes it and empties the buffer. *)
Lemma bufferUpdate_resolves phone h update s :
  waiting phone h s -> passes_offset (offset h) update = true ->
  snd (bufferUpdate phone update s)
    = [Buffered phone update; Resolved (timeoutHandle h) [update]]
  ∧ updateHandlers (fst (bufferUpdate phone update s)) !! phone = None
  ∧ timers (fst (bufferUpdate phone update s)) !! timeoutHandle h = None
  ∧ updateBuffers (fst (bufferUpdate phone update s)) !! phone = Some [].
Proof.
  intros (Hh & Ht & Hb) Hp. unfold bufferUpdate. cbn [updateHandlers set_updateBuffers].
  rewrite Hh. unfold getBufferedUpdates. cbn [updateBuffers set_updateBuffers].
  rewrite lookup_insert_eq. cbn [default from_option Datatypes.id].
  destruct (offset_falsy (offset h)) eqn:Hf.
  - assert (Hnil : default [] (updateBuffers s !! phone) = []).
    { destruct (default [] (updateBuffers s !! phone)) as [|u l]; [done|].
      apply Forall_cons in Hb as [Hu _]. unfold passes_offset in Hu.
      by rewrite Hf in Hu. }
    rewrite Hnil. cbn. rewrite lookup_delete_eq, lookup_delete_eq, lookup_insert_eq.
    done.
  - unfold passes_offset in Hp. rewrite Hf in Hp. cbn in Hp.
    rewrite (findIndex_last _ _ update).
    2:{ eapply Forall_impl; [exact Hb|]. intros u Hu.
        unfold passes_offset in Hu. by apply orb_false_iff in Hu as [_ Hu]. }
    2:{ done. }
    rewrite drop_app_length. cbn.
    rewrite lookup_delete_eq, lookup_delete_eq, lookup_insert_eq. done.
Qed.

(** When the timer of the waiter fires, the waiter is removed and its
    promise resolves with the empty list. *)
Lemma fireTimer_waiting phone h s :
  waiting phone h s ->
  snd (fireTimer (timeoutHandle h) s) = [Resolved (timeoutHandle h) []]
  ∧ updateHandlers (fst (fireTimer (timeoutHandle h) s)) !! phone = None
  ∧ timers (fst (fireTimer (timeoutHandle h) s)) !! timeoutHandle h = None.
Proof.
  intros (Hh & (t & Ht & Hcb) & Hb). unfold fireTimer. rewrite Ht, Hcb. cbn.
  by rewrite !lookup_delete_eq.
Qed.

Lemma bufferAll_filtered phone h skipped s :
  waiting phone h s ->
  Forall (fun u => passes_offset (offset h) u = false) skipped ->
  waiting phone h (bufferAll phone skipped s).
Proof.
  intros Hw Hs. revert s Hw. induction Hs as [|u l Hu _ IH]; intros s Hw; [done|].
  cbn. apply IH. by apply bufferUpdate_filtered.
Qed.

(** C5, as the code has it. Take a [getUpdates] call with a timeout on
    an account outside webhook mode: it registers a waiter. Updates
    delivered afterwards whose identifier does not exceed the offset of
    the waiter are buffered and leave the waiter registered. The first
    delivered update that the offset lets through (any update when the
    call gave no offset) resolves the promise at once with that update,
    cancels the timer and removes the waiter. If the timer fires while
    the waiter is registered, the promise resolves with the empty list
    and the waiter is removed. *)
Theorem waiter_resolved_by_first_passing_update
    user offset limit timeout options skipped update s :
  updateMode user ≠ ModeWebhook -> timeout ≠ 0 ->
  Forall (fun u => passes_offset offset u = false) skipped ->
  let phone := phoneNumber user in
  let registered := getUpdates user offset limit timeout options s in
  let handle := nextTimer s in
  let s1 := bufferAll phone skipped (fst registered) in
  let delivered := bufferUpdate phone update s1 in
  let expired := fireTimer handle s1 in
  snd registered = Pending handle
  ∧ updateHandlers s1 !! phone
    = Some {| offset := offset; timeoutHandle := handle; options := options |}
  ∧ (passes_offset offset update = true ->
       snd delivered = [Buffered phone update; Resolved handle [update]]
       ∧ updateHandlers (fst delivered) !! phone = None
       ∧ timers (fst delivered) !! handle = None)
  ∧ (passes_offset offset update = false ->
       snd delivered = [Buffered phone update]
       ∧ updateHandlers (fst delivered) !! phone = updateHandlers s1 !! phone
       ∧ timers (fst delivered) !! handle = timers s1 !! handle)
  ∧ snd expired = [Resolved handle []]
  ∧ updateHandlers (fst expired) !! phone = None.
Proof.
  intros Hm Ht Hskipped phone registered handle s1 delivered expired.
  destruct (getUpdates_registers user offset limit timeout options s Hm Ht)
    as (Hres & Hw & _).
  cbv zeta in Hw.
  set (h := {| offset := offset; timeoutHandle := nextTimer s; options := options |}) in *.
  assert (Hw1 : waiting phone h s1) by by apply bufferAll_filtered.
  split; [exact Hres|]. split; [by destruct Hw1 as (? & _)|].
  split; [|split].
  - intros Hp. destruct (bufferUpdate_resolves phone h update s1 Hw1 Hp)
      as (He & Hh & Htm & _). done.
  - intros Hp. destruct (bufferUpdate_filtered phone h update s1 Hw1 Hp)
      as (He & (Hh & _) & Htm).
    subst delivered. split; [done|]. destruct Hw1 as (Hh1 & _).
    split; [by rewrite Hh, Hh1|]. by rewrite Htm.
  - destruct (fireTimer_waiting phone h s1 Hw1) as (He & Hh & _). done.
Qed.

Lemma waiter_resolved_by_first_passing_update_witness :
  let registered := getUpdates alice (Some 5) 100 30 None init in
  let s1 := bufferAll (phoneNumber alice) [update_numbered 3] (fst registered) in
  updateMode alice ≠ ModeWebhook
  ∧ 30 ≠ 0
  ∧ Forall (fun u => passes_offset (Some 5) u = false) [update_numbered 3]
  ∧ passes_offset (Some 5) (update_numbered 6) = true
  ∧ snd (bufferUpdate (phoneNumber alice) (update_numbered 6) s1)
    = [Buffered (phoneNumber alice) (update_numbered 6);
       Resolved (nextTimer init) [update_numbered 6]].
Proof.
  intros registered s1.
  assert (H1 : updateMode alice ≠ ModeWebhook) by discriminate.
  assert (H2 : 30 ≠ 0) by lia.
  assert (H3 : Forall (fun u => passes_offset (Some 5) u = false) [update_numbered 3])
    by (repeat constructor).
  assert (H4 : passes_offset (Some 5) (update_numbered 6) = true) by reflexivity.
  split; [exact H1|]. split; [exact H2|]. split; [exact H3|]. split; [exact H4|].
  destruct (waiter_resolved_by_first_passing_update alice (Some 5) 100 30 None
              [update_numbered 3] (update_numbered 6) init H1 H2 H3)
    as (_ & _ & Hpass & _).
  exact (proj1 (Hpass H4)).
Defined.

(** C5, as stated, fails for an update the offset filters out. A
    [getUpdates] call with offset 2000000000000 and a timeout of 30
    seconds registers a waiter; the first event delivered to the account
    afterwards gets identifier 1700000000001, which does not exceed the
    offset: it is buffered, nothing is resolved, and the waiter and its
    timer stay in place. *)
Lemma first_update_below_offset_leaves_waiter :
  let registered := getUpdates alice (Some 2000000000000) 100 30 None init in
  let delivered := rawEventHandler alice None reaction_raw 1700000000000 (fst registered) in
  snd registered = Pending 0
  ∧ snd delivered
    = [Buffered (phoneNumber alice)
         {| update_id := 1700000000001; payload := P_reaction reaction_raw |}]
  ∧ updateHandlers (fst delivered) !! phoneNumber alice
    = Some {| offset := Some 2000000000000; timeoutHandle := 0; options := None |}
  ∧ timers (fst delivered) !! 0%nat
    = Some {| delay := 30000; callback := PollTimeout (phoneNumber alice) |}.
Proof. vm_compute. repeat split; reflexivity. Qed.

(** * Further properties *)

(** ** Timers, waiters and promises *)

Lemma timers_wf_init : timers_wf init.
Proof. repeat split; intros; simplify_map_eq. Qed.

(** Releasing a waiter: its timer is cleared and its entry deleted. *)
Lemma timers_wf_release p hd s :
  timers_wf s -> updateHandlers s !! p = Some hd ->
  timers_wf (set_updateHandlers (delete p) (clearTimeout (timeoutHandle hd) s)).
Proof.
  intros (W1 & W2 & W3 & W4) Hp. unfold timers_wf. cbn.
  split; [|split; [|split]].
  - intros h t Ht. apply lookup_delete_Some in Ht as [_ Ht]. eauto.
  - intros q hq Hq. apply lookup_delete_Some in Hq as [Hne Hq].
    destruct (W2 q hq Hq) as (d & Hd). exists d.
    rewrite lookup_delete_ne; [done|]. intros Heq.
    destruct (W2 p hd Hp) as (d' & Hd'). rewrite Heq, Hd in Hd'. by simplify_eq.
  - intros h t q Ht Hcb. apply lookup_delete_Some in Ht as [Hne Ht].
    destruct (W3 h t q Ht Hcb) as (hq & Hq & Hh). exists hq.
    split; [|done]. rewrite lookup_delete_ne; [done|]. intros <-.
    rewrite Hp in Hq. by simplify_eq.
  - intros g a Ha. destruct (W4 g a Ha) as [Hlt Hal]. split; [done|].
    intros t Ht. apply lookup_delete_Some in Ht as [_ Ht]. eauto.
Qed.

(** Clearing a timer no waiter refers to. *)
Lemma timers_wf_clearTimeout h s :
  timers_wf s ->
  (∀ p hd, updateHandlers s !! p = Some hd -> timeoutHandle hd ≠ h) ->
  timers_wf (clearTimeout h s).
Proof.
  intros (W1 & W2 & W3 & W4) Hfree. unfold timers_wf. cbn.
  split; [|split; [|split]].
  - intros h' t Ht. apply lookup_delete_Some in Ht as [_ Ht]. eauto.
  - intros q hq Hq. destruct (W2 q hq Hq) as (d & Hd). exists d.
    rewrite lookup_delete_ne; [done|]. intros Heq. by apply (Hfree q hq).
  - intros h' t q Ht Hcb. apply lookup_delete_Some in Ht as [_ Ht]. eauto.
  - intros g a Ha. destruct (W4 g a Ha) as [Hlt Hal]. split; [done|].
    intros t Ht. apply lookup_delete_Some in Ht as [_ Ht]. eauto.
Qed.

(** Starting an album timer. *)
Lemma timers_wf_album_timer cb ms s :
  timers_wf s -> is_album_callback cb ->
  timers_wf (fst (setTimeout cb ms s)).
Proof.
  intros (W1 & W2 & W3 & W4) Hcb. unfold timers_wf. cbn.
  split; [|split; [|split]].
  - intros h t Ht. apply lookup_insert_Some in Ht as [[<- _]|[_ Ht]]; [lia|].
    specialize (W1 h t Ht). lia.
  - intros q hq Hq. destruct (W2 q hq Hq) as (d & Hd). exists d.
    rewrite lookup_insert_ne; [done|]. intros Heq.
    specialize (W1 _ _ Hd). lia.
  - intros h t q Ht Hq. apply lookup_insert_Some in Ht as [[<- <-]|[_ Ht]]; [|eauto].
    cbn in Hq. subst cb. done.
  - intros g a Ha. destruct (W4 g a Ha) as [Hlt Hal]. split; [lia|].
    intros t Ht. apply lookup_insert_Some in Ht as [[Heq _]|[_ Ht]]; [lia|eauto].
Qed.

(** Starting an album timer and remembering it in the album entry. *)
Lemma timers_wf_album_start cb ms g msgs s :
  timers_wf s -> is_album_callback cb ->
  timers_wf (set_pendingAlbums
               (insert g {| album_messages := msgs; album_timer := nextTimer s |})
               (fst (setTimeout cb ms s))).
Proof.
  intros W Hcb. pose proof (timers_wf_album_timer cb ms s W Hcb) as (W1 & W2 & W3 & W4).
  unfold timers_wf in *. cbn in *.
  split; [done|]. split; [done|]. split; [done|].
  intros g' a Ha. apply lookup_insert_Some in Ha as [[<- <-]|[_ Ha]]; [|eauto].
  cbn. split; [lia|]. intros t' Ht'. rewrite lookup_insert_eq in Ht'.
  injection Ht' as <-. done.
Qed.

Lemma timers_wf_album_delete g s :
  timers_wf s -> timers_wf (set_pendingAlbums (delete g) s).
Proof.
  intros (W1 & W2 & W3 & W4). unfold timers_wf. cbn.
  split; [done|]. split; [done|]. split; [done|].
  intros g' a Ha. apply lookup_delete_Some in Ha as [_ Ha]. eauto.
Qed.

(** The timer of a pending album is not the timer of a waiter. *)
Lemma album_timer_free g a s :
  timers_wf s -> pendingAlbums s !! g = Some a ->
  ∀ p hd, updateHandlers s !! p = Some hd -> timeoutHandle hd ≠ album_timer a.
Proof.
  intros (W1 & W2 & W3 & W4) Ha p hd Hp Heq.
  destruct (W2 p hd Hp) as (d & Hd). destruct (W4 g a Ha) as [_ Hal].
  rewrite Heq in Hd. by apply Hal in Hd.
Qed.

Lemma timers_wf_buffers f s : timers_wf s -> timers_wf (set_updateBuffers f s).
Proof. done. Qed.

Lemma timers_wf_lastUpdateId f s : timers_wf s -> timers_wf (set_lastUpdateId f s).
Proof. done. Qed.

Lemma timers_wf_processedMessages f s :
  timers_wf s -> timers_wf (set_processedMessages f s).
Proof. done. Qed.

Lemma timers_wf_clearHandlers p s : timers_wf s -> timers_wf (clearHandlers p s).
Proof.
  intros W. unfold clearHandlers. apply timers_wf_buffers.
  destruct (updateHandlers s !! p) as [hd|] eqn:Hp.
  - by apply timers_wf_release.
  - destruct W as (W1 & W2 & W3 & W4). unfold timers_wf. cbn.
    rewrite delete_id by done. done.
Qed.

Lemma timers_wf_getBufferedUpdates p offset s :
  timers_wf s -> timers_wf (fst (getBufferedUpdates p offset s)).
Proof.
  intros W. unfold getBufferedUpdates. destruct (offset_falsy offset); [done|].
  by destruct (findIndex _ _).
Qed.

(** Registering a waiter for an account that has none. *)
Lemma timers_wf_register p off ms opts s :
  timers_wf s -> updateHandlers s !! p = None ->
  timers_wf (set_updateHandlers
               (insert p {| offset := off; timeoutHandle := nextTimer s; options := opts |})
               (fst (setTimeout (PollTimeout p) ms s))).
Proof.
  intros (W1 & W2 & W3 & W4) Hp. unfold timers_wf. cbn.
  split; [|split; [|split]].
  - intros h t Ht. apply lookup_insert_Some in Ht as [[<- _]|[_ Ht]]; [lia|].
    specialize (W1 h t Ht). lia.
  - intros q hq Hq. apply lookup_insert_Some in Hq as [[<- <-]|[Hne Hq]].
    + cbn. rewrite lookup_insert_eq. eauto.
    + destruct (W2 q hq Hq) as (d & Hd). exists d.
      rewrite lookup_insert_ne; [done|]. intros Heq. specialize (W1 _ _ Hd). lia.
  - intros h t q Ht Hq. apply lookup_insert_Some in Ht as [[<- <-]|[Hne Ht]].
    + cbn in Hq. injection Hq as <-. rewrite lookup_insert_eq. eauto.
    + destruct (W3 h t q Ht Hq) as (hq & Hhq & Hh). exists hq. split; [|done].
      rewrite lookup_insert_ne; [done|]. intros <-. by rewrite Hp in Hhq.
  - intros g a Ha. destruct (W4 g a Ha) as [Hlt Hal]. split; [lia|].
    intros t Ht. apply lookup_insert_Some in Ht as [[Heq _]|[_ Ht]]; [lia|eauto].
Qed.

Lemma timers_wf_getUpdates user off limit timeout opts s :
  timers_wf s -> timers_wf (fst (getUpdates user off limit timeout opts s)).
Proof.
  intros W. destruct (decide (updateMode user = ModeWebhook)) as [Hm|Hm].
  - unfold getUpdates. by rewrite Hm.
  - rewrite getUpdates_polling by done. cbv zeta.
    set (s2 := fst (getBufferedUpdates (phoneNumber user) off
                      (clearHandlers (phoneNumber user) s))).
    assert (W2 : timers_wf s2)
      by by apply timers_wf_getBufferedUpdates, timers_wf_clearHandlers.
    destruct (timeout =? 0); [done|]. cbn [fst]. apply timers_wf_register; [done|].
    subst s2.
    destruct (getBufferedUpdates_frame (phoneNumber user) off
                (clearHandlers (phoneNumber user) s)) as (_ & _ & -> & _).
    apply clearHandlers_handler.
Qed.

Lemma timers_wf_bufferUpdate p update s :
  timers_wf s -> timers_wf (fst (bufferUpdate p update s)).
Proof.
  intros W. unfold bufferUpdate. cbn [updateHandlers set_updateBuffers].
  destruct (updateHandlers s !! p) as [hd|] eqn:Hp; [|done].
  match goal with |- context [getBufferedUpdates p ?o ?s1] =>
    pose proof (timers_wf_getBufferedUpdates p o s1 (timers_wf_buffers _ _ W)) as W2;
    pose proof (getBufferedUpdates_frame p o s1) as (_ & _ & Fh & _);
    destruct (getBufferedUpdates p o s1) as [s2 ups]
  end.
  cbn [fst] in *. destruct (0 <? length ups)%nat; [|done]. cbn [fst].
  apply timers_wf_release; [done|]. by rewrite Fh.
Qed.

Lemma timers_wf_processUpdate user update s :
  timers_wf s -> timers_wf (fst (processUpdate user update s)).
Proof.
  intros W. unfold processUpdate. destruct (_ && _); [done|].
  by apply timers_wf_bufferUpdate.
Qed.

Lemma timers_wf_emit user now pl s :
  timers_wf s ->
  timers_wf (fst (let '(s1, newId) := generateUpdateId (phoneNumber user) now s in
                  processUpdate user {| update_id := newId; payload := pl |} s1)).
Proof. intros W. by apply timers_wf_processUpdate. Qed.

Lemma timers_wf_handleMediaAlbum message s :
  timers_wf s -> timers_wf (fst (handleMediaAlbum message s)).
Proof.
  intros W. unfold handleMediaAlbum. destruct (groupedId message) as [g|]; [|done].
  destruct (pendingAlbums s !! g) as [a|] eqn:Ha.
  - assert (W1 : timers_wf (clearTimeout (album_timer a) s))
      by (apply timers_wf_clearTimeout; [done|]; by eapply album_timer_free).
    pose proof (timers_wf_album_start (AlbumSubsequent g) 500 g
                  (sort_by id (album_messages a ++ [message])) _ W1 I) as W2.
    cbn [setTimeout]. destruct (2 <=? _)%nat; cbn [fst]; [|exact W2].
    apply timers_wf_album_delete. exact W2.
  - exact (timers_wf_album_start (AlbumInitial g) 300 g [message] s W I).
Qed.

Lemma timers_wf_handleMessageUpdate user message type now s :
  timers_wf s -> timers_wf (fst (handleMessageUpdate user message type now s)).
Proof.
  intros W. unfold handleMessageUpdate. cbv zeta.
  destruct (pm_has _ _); [done|].
  match goal with |- context [handleMediaAlbum message ?s2] =>
    assert (W2 : timers_wf s2) by (by case_match);
    pose proof (timers_wf_handleMediaAlbum message s2 W2) as W3;
    destruct (handleMediaAlbum message s2) as [s3 messages]
  end.
  cbn [fst] in W3. destruct (length messages =? 0)%nat; [done|].
  destruct (_ && _); by apply timers_wf_emit.
Qed.

Lemma timers_wf_rawEventHandler user opts update now s :
  timers_wf s -> timers_wf (fst (rawEventHandler user opts update now s)).
Proof.
  intros W. unfold rawEventHandler.
  destruct (className update); cbv zeta;
    repeat match goal with
           | |- context [if ?b then _ else _] => destruct b
           end;
    first [done | by apply timers_wf_emit].
Qed.

Lemma timers_wf_fireTimer h s : timers_wf s -> timers_wf (fst (fireTimer h s)).
Proof.
  intros W. unfold fireTimer. destruct (timers s !! h) as [t|] eqn:Ht; [|done].
  destruct (callback t) as [p|g|g] eqn:Hcb; cbn [fst].
  - destruct W as (W1 & W2 & W3 & W4).
    destruct (W3 h t p Ht Hcb) as (hd & Hp & <-).
    by apply timers_wf_release.
  - apply timers_wf_album_delete, timers_wf_clearTimeout; [done|].
    intros p hd Hp Heq. destruct W as (_ & W2 & _).
    destruct (W2 p hd Hp) as (d & Hd). rewrite Heq, Ht in Hd.
    injection Hd as ->. cbn in Hcb. done.
  - apply timers_wf_album_delete, timers_wf_clearTimeout; [done|].
    intros p hd Hp Heq. destruct W as (_ & W2 & _).
    destruct (W2 p hd Hp) as (d & Hd). rewrite Heq, Ht in Hd.
    injection Hd as ->. cbn in Hcb. done.
Qed.

Lemma timers_wf_step c s : timers_wf s -> timers_wf (fst (step c s)).
Proof.
  intros W.
  destruct c as [user options|user options update now|user options message now
                |user offset limit timeout options|h]; cbn [step fst].
  - unfold setupEventHandling. cbn [fst]. by apply timers_wf_clearHandlers.
  - by apply timers_wf_rawEventHandler.
  - unfold messageEventHandler. destruct (shouldIncludeUpdate _ _); [|done].
    by apply timers_wf_handleMessageUpdate.
  - by apply timers_wf_getUpdates.
  - by apply timers_wf_fireTimer.
Qed.

Lemma timers_wf_run cs s : timers_wf s -> timers_wf (fst (run cs s)).
Proof.
  revert s. induction cs as [|c cs IH]; intros s W; [done|].
  rewrite run_cons. cbn [fst]. by apply IH, timers_wf_step.
Qed.

Lemma timers_grow_refl s : timers_grow s s.
Proof. split; [lia|done]. Qed.

Lemma timers_grow_trans s1 s2 s3 :
  timers_grow s1 s2 -> timers_grow s2 s3 -> timers_grow s1 s3.
Proof.
  intros [H1 H1'] [H2 H2']. split; [lia|]. intros h Hh Hn.
  apply H2'; [lia|]. by apply H1'.
Qed.

Lemma timers_grow_same s s' :
  timers s' = timers s -> nextTimer s' = nextTimer s -> timers_grow s s'.
Proof. intros Ht Hn. split; [lia|]. intros h _ Hh. by rewrite Ht. Qed.

Lemma timers_grow_clearTimeout h s : timers_grow s (clearTimeout h s).
Proof.
  split; [done|]. intros h' _ Hh. cbn. apply lookup_delete_None. by right.
Qed.

Lemma timers_grow_setTimeout cb ms s : timers_grow s (fst (setTimeout cb ms s)).
Proof.
  split; [cbn; lia|]. intros h Hh Hn. cbn. rewrite lookup_insert_ne; [done|lia].
Qed.

Lemma timers_grow_clearHandlers p s : timers_grow s (clearHandlers p s).
Proof.
  unfold clearHandlers. destruct (updateHandlers s !! p) as [hd|].
  - eapply timers_grow_trans; [apply (timers_grow_clearTimeout (timeoutHandle hd))|].
    by apply timers_grow_same.
  - by apply timers_grow_same.
Qed.

Lemma timers_grow_getBufferedUpdates p offset s :
  timers_grow s (fst (getBufferedUpdates p offset s)).
Proof.
  destruct (getBufferedUpdates_frame p offset s) as (_ & _ & _ & _ & Ht & Hn).
  by apply timers_grow_same.
Qed.

Lemma timers_grow_getUpdates user off limit timeout opts s :
  timers_grow s (fst (getUpdates user off limit timeout opts s)).
Proof.
  destruct (decide (updateMode user = ModeWebhook)) as [Hm|Hm].
  - unfold getUpdates. rewrite Hm. apply timers_grow_refl.
  - rewrite getUpdates_polling by done. cbv zeta.
    eapply timers_grow_trans; [apply (timers_grow_clearHandlers (phoneNumber user))|].
    eapply timers_grow_trans; [apply (timers_grow_getBufferedUpdates (phoneNumber user) off)|].
    destruct (timeout =? 0); [apply timers_grow_refl|]. cbn [fst].
    eapply timers_grow_trans; [apply timers_grow_setTimeout|].
    by apply timers_grow_same.
Qed.

Lemma timers_grow_bufferUpdate p update s :
  timers_grow s (fst (bufferUpdate p update s)).
Proof.
  unfold bufferUpdate. cbn [updateHandlers set_updateBuffers].
  destruct (updateHandlers s !! p) as [hd|]; [|by apply timers_grow_same].
  match goal with |- context [getBufferedUpdates p ?o ?s1] =>
    pose proof (timers_grow_getBufferedUpdates p o s1) as G;
    destruct (getBufferedUpdates p o s1) as [s2 ups]
  end.
  cbn [fst] in G.
  assert (G0 : timers_grow s s2).
  { eapply timers_grow_trans; [|exact G]. by apply timers_grow_same. }
  destruct (0 <? length ups)%nat; [|done]. cbn [fst].
  eapply timers_grow_trans; [exact G0|].
  eapply timers_grow_trans; [apply (timers_grow_clearTimeout (timeoutHandle hd))|].
  by apply timers_grow_same.
Qed.

Lemma timers_grow_emit user now pl s :
  timers_grow s
    (fst (let '(s1, newId) := generateUpdateId (phoneNumber user) now s in
          processUpdate user {| update_id := newId; payload := pl |} s1)).
Proof.
  cbv zeta. unfold processUpdate. destruct (_ && _); [by apply timers_grow_same|].
  eapply timers_grow_trans; [|apply timers_grow_bufferUpdate].
  by apply timers_grow_same.
Qed.

Lemma timers_grow_handleMediaAlbum message s :
  timers_grow s (fst (handleMediaAlbum message s)).
Proof.
  unfold handleMediaAlbum. destruct (groupedId message) as [g|]; [|apply timers_grow_refl].
  destruct (pendingAlbums s !! g) as [a|].
  - cbn [setTimeout].
    assert (G : timers_grow s (fst (setTimeout (AlbumSubsequent g) 500
                                      (clearTimeout (album_timer a) s)))).
    { eapply timers_grow_trans; [apply (timers_grow_clearTimeout (album_timer a))|].
      apply timers_grow_setTimeout. }
    destruct (2 <=? _)%nat; cbn [fst];
      (eapply timers_grow_trans; [exact G|]; by apply timers_grow_same).
  - eapply timers_grow_trans; [apply (timers_grow_setTimeout (AlbumInitial g) 300)|].
    by apply timers_grow_same.
Qed.

Lemma timers_grow_handleMessageUpdate user message type now s :
  timers_grow s (fst (handleMessageUpdate user message type now s)).
Proof.
  unfold handleMessageUpdate. cbv zeta.
  destruct (pm_has _ _); [apply timers_grow_refl|].
  match goal with |- context [handleMediaAlbum message ?s2] =>
    assert (G2 : timers_grow s s2) by (case_match; by apply timers_grow_same);
    pose proof (timers_grow_handleMediaAlbum message s2) as G3;
    destruct (handleMediaAlbum message s2) as [s3 messages]
  end.
  cbn [fst] in G3. pose proof (timers_grow_trans _ _ _ G2 G3) as G.
  destruct (length messages =? 0)%nat; [done|].
  destruct (_ && _); (eapply timers_grow_trans; [exact G|]; apply timers_grow_emit).
Qed.

Lemma timers_grow_rawEventHandler user opts update now s :
  timers_grow s (fst (rawEventHandler user opts update now s)).
Proof.
  unfold rawEventHandler.
  destruct (className update); cbv zeta;
    repeat match goal with
           | |- context [if ?b then _ else _] => destruct b
           end;
    first [apply timers_grow_refl | apply timers_grow_emit].
Qed.

Lemma timers_grow_fireTimer h s : timers_grow s (fst (fireTimer h s)).
Proof.
  unfold fireTimer. destruct (timers s !! h) as [t|]; [|apply timers_grow_refl].
  destruct (callback t); cbn [fst];
    (eapply timers_grow_trans; [apply (timers_grow_clearTimeout h)|];
     by apply timers_grow_same).
Qed.

Lemma timers_grow_step c s : timers_grow s (fst (step c s)).
Proof.
  destruct c as [user options|user options update now|user options message now
                |user offset limit timeout options|h]; cbn [step fst].
  - apply timers_grow_clearHandlers.
  - apply timers_grow_rawEventHandler.
  - unfold messageEventHandler. destruct (shouldIncludeUpdate _ _);
      [apply timers_grow_handleMessageUpdate|apply timers_grow_refl].
  - apply timers_grow_getUpdates.
  - apply timers_grow_fireTimer.
Qed.

Lemma spent_grow h s s' : timers_grow s s' -> spent h s -> spent h s'.
Proof. intros [Hn Ht] [Hh Hs]. split; [lia|by apply Ht]. Qed.

Section Settling.
Variable h : nat.

Lemma bufferUpdate_settles p update s0 s :
  timers_wf s0 -> updateHandlers s = updateHandlers s0 ->
  settles h s0 (bufferUpdate p update s).
Proof.
  intros (_ & W2 & _) Hh. unfold bufferUpdate. cbn [updateHandlers set_updateBuffers].
  destruct (updateHandlers s !! p) as [hd|] eqn:Hp; [|by left].
  destruct (getBufferedUpdates _ _ _) as [s2 ups].
  destruct (0 <? length ups)%nat; [|by left].
  unfold settles, resolutions. cbn. case_bool_decide as Heq; [|by left].
  right. exists ups. split; [done|]. subst h. split.
  - rewrite Hh in Hp. destruct (W2 p hd Hp) as (d & ->). eauto.
  - apply lookup_delete_eq.
Qed.

Lemma emit_settles user now pl s0 s :
  timers_wf s0 -> updateHandlers s = updateHandlers s0 ->
  settles h s0
    (let '(s1, newId) := generateUpdateId (phoneNumber user) now s in
     processUpdate user {| update_id := newId; payload := pl |} s1).
Proof.
  intros W Hh. cbv zeta. unfold processUpdate. destruct (_ && _); [by left|].
  by apply bufferUpdate_settles.
Qed.

Lemma handleMessageUpdate_settles user message type now s :
  timers_wf s -> settles h s (handleMessageUpdate user message type now s).
Proof.
  intros W. unfold handleMessageUpdate. cbv zeta.
  destruct (pm_has _ _); [by left|].
  match goal with |- context [handleMediaAlbum message ?s2] =>
    assert (H2 : updateHandlers s2 = updateHandlers s) by (by case_match);
    pose proof (handleMediaAlbum_frame message s2) as (_ & F & _);
    destruct (handleMediaAlbum message s2) as [s3 messages]
  end.
  cbn [fst] in F. rewrite H2 in F.
  destruct (length messages =? 0)%nat; [by left|].
  destruct (_ && _); by apply emit_settles.
Qed.

Lemma rawEventHandler_settles user opts update now s :
  timers_wf s -> settles h s (rawEventHandler user opts update now s).
Proof.
  intros W. unfold rawEventHandler.
  destruct (className update); cbv zeta;
    repeat match goal with
           | |- context [if ?b then _ else _] => destruct b
           end;
    first [by left | by apply emit_settles].
Qed.

Lemma fireTimer_settles h' s : settles h s (fireTimer h' s).
Proof.
  unfold fireTimer. destruct (timers s !! h') as [t|] eqn:Ht; [|by left].
  destruct (callback t); unfold settles, resolutions; cbn;
    try (by left);
    case_bool_decide as Heq; [|by left].
  right. exists []. subst h'. split; [done|]. split; [eauto|apply lookup_delete_eq].
Qed.

Lemma step_settles c s : timers_wf s -> settles h s (step c s).
Proof.
  intros W.
  destruct c as [user options|user options update now|user options message now
                |user offset limit timeout options|h']; cbn [step].
  - by left.
  - by apply rawEventHandler_settles.
  - unfold messageEventHandler. destruct (shouldIncludeUpdate _ _); [|by left].
    by apply handleMessageUpdate_settles.
  - by left.
  - apply fireTimer_settles.
Qed.

Lemma resolutions_app es1 es2 :
  resolutions h (es1 ++ es2) = resolutions h es1 ++ resolutions h es2.
Proof. apply omap_app_list. Qed.

(** From a state where the invariant holds, a promise is resolved at
    most once in a run, and not at all when its handle is spent. *)
Lemma run_settles cs s :
  timers_wf s ->
  (length (resolutions h (snd (run cs s))) <= 1)%nat
  ∧ (spent h s -> resolutions h (snd (run cs s)) = []).
Proof.
  revert s. induction cs as [|c cs IH]; intros s W.
  - cbn. split; [lia|done].
  - rewrite run_cons. cbn [snd]. rewrite resolutions_app.
    pose proof (step_settles c s W) as Hstep.
    pose proof (timers_grow_step c s) as Hgrow.
    destruct (IH (fst (step c s)) (timers_wf_step c s W)) as [IH1 IH2].
    destruct Hstep as [->|(ups & -> & Hsome & Hnone)]; cbn [app].
    + split; [done|]. intros Hs. apply IH2. by eapply spent_grow.
    + assert (Hsp : spent h (fst (step c s))).
      { split; [|done]. destruct W as (W1 & _). destruct Hsome as [t Ht].
        specialize (W1 h t Ht). destruct Hgrow as [Hn _]. lia. }
      rewrite (IH2 Hsp). split; [cbn; lia|].
      intros [_ Hs]. rewrite Hs in Hsome. by destruct Hsome.
Qed.
End Settling.

(** X1. In every run of the engine from its initial state, the promise
    of a waiting [getUpdates] call is resolved at most once. *)
Theorem promise_resolved_at_most_once cs h :
  (length (resolutions h (snd (run cs init))) <= 1)%nat.
Proof. exact (proj1 (run_settles h cs init timers_wf_init)). Qed.

Lemma clearHandlers_spent p hd s :
  timers_wf s -> updateHandlers s !! p = Some hd ->
  spent (timeoutHandle hd) (clearHandlers p s).
Proof.
  intros (W1 & W2 & _) Hp. destruct (W2 p hd Hp) as (d & Hd).
  unfold spent, clearHandlers. rewrite Hp. cbn.
  split; [by eapply W1|apply lookup_delete_eq].
Qed.

Lemma getUpdates_grow_from_cleared user off limit timeout opts s :
  updateMode user ≠ ModeWebhook ->
  timers_grow (clearHandlers (phoneNumber user) s)
    (fst (getUpdates user off limit timeout opts s)).
Proof.
  intros Hm. rewrite getUpdates_polling by done. cbv zeta.
  eapply timers_grow_trans; [apply (timers_grow_getBufferedUpdates (phoneNumber user) off)|].
  destruct (timeout =? 0); [apply timers_grow_refl|]. cbn [fst].
  eapply timers_grow_trans; [apply timers_grow_setTimeout|].
  by apply timers_grow_same.
Qed.

(** X2. A waiter that is replaced, by a new [getUpdates] call for its
    account or by a new [setupEventHandling], is abandoned: whatever
    happens afterwards, its promise is never resolved. *)
Theorem superseded_waiter_never_resolved before c cs p hd :
  let s := fst (run before init) in
  updateHandlers s !! p = Some hd ->
  supersedes p c ->
  resolutions (timeoutHandle hd) (snd (run (c :: cs) s)) = [].
Proof.
  intros s Hp Hc.
  assert (W : timers_wf s) by apply timers_wf_run, timers_wf_init.
  rewrite run_cons. cbn [snd]. rewrite resolutions_app.
  pose proof (clearHandlers_spent p hd s W Hp) as Hsp.
  assert (Hstep : snd (step c s) = [] ∧ spent (timeoutHandle hd) (fst (step c s))).
  { destruct c as [user options|user options update now|user options message now
                  |user offset limit timeout options|h']; cbn in Hc; try done.
    - subst p. by split.
    - destruct Hc as [<- Hm]. split; [done|]. cbn [step fst].
      eapply spent_grow; [|exact Hsp]. by apply getUpdates_grow_from_cleared. }
  destruct Hstep as [-> Hspent]. cbn [resolutions omap app].
  exact (proj2 (run_settles _ cs _ (timers_wf_step c s W)) Hspent).
Qed.

Lemma superseded_waiter_never_resolved_witness :
  let s := fst (run [CallGetUpdates alice (Some 5) 100 30 None] init) in
  let hd := {| offset := Some 5; timeoutHandle := 0; options := None |} in
  updateHandlers s !! phoneNumber alice = Some hd
  ∧ supersedes (phoneNumber alice) (CallGetUpdates alice None 100 0 None)
  ∧ resolutions 0
      (snd (run [CallGetUpdates alice None 100 0 None;
                 CallRaw alice None reaction_raw 1700000000000;
                 CallTimer 0] s)) = [].
Proof.
  intros s hd.
  assert (H1 : updateHandlers s !! phoneNumber alice = Some hd) by reflexivity.
  assert (H2 : supersedes (phoneNumber alice) (CallGetUpdates alice None 100 0 None))
    by (split; [reflexivity|discriminate]).
  split; [exact H1|]. split; [exact H2|].
  exact (superseded_waiter_never_resolved [CallGetUpdates alice (Some 5) 100 30 None]
           (CallGetUpdates alice None 100 0 None)
           [CallRaw alice None reaction_raw 1700000000000; CallTimer 0]
           (phoneNumber alice) hd H1 H2).
Defined.

(** ** Waiters in reachable states *)

Lemma findIndex_lt {A} (f : A -> bool) (l : list A) i :
  findIndex f l = Some i -> (i < length l)%nat.
Proof.
  revert i. induction l as [|x l IH]; intros i; cbn; [done|].
  destruct (f x); [intros [= <-]; lia|].
  destruct (findIndex f l) as [j|]; [|done]. intros [= <-].
  specialize (IH j eq_refl). lia.
Qed.

Lemma findIndex_None_Forall {A} (f : A -> bool) (l : list A) :
  findIndex f l = None -> Forall (fun x => f x = false) l.
Proof.
  induction l as [|x l IH]; cbn; [constructor|].
  destruct (f x) eqn:E; [done|]. destruct (findIndex f l); [done|].
  intros _. constructor; [done|]. by apply IH.
Qed.

Lemma waiters_ok_same s s' :
  updateHandlers s' = updateHandlers s -> updateBuffers s' = updateBuffers s ->
  waiters_ok s -> waiters_ok s'.
Proof. intros Hh Hb W p hd. rewrite Hh, Hb. apply W. Qed.

Lemma waiters_ok_clearHandlers p s : waiters_ok s -> waiters_ok (clearHandlers p s).
Proof.
  intros W q hd Hq. destruct (decide (q = p)) as [->|Hne].
  - by rewrite clearHandlers_handler in Hq.
  - destruct (clearHandlers_other p q s Hne) as [Hb Hh].
    rewrite Hb. rewrite Hh in Hq. by apply W.
Qed.

Lemma waiters_ok_getBufferedUpdates p offset s :
  waiters_ok s -> waiters_ok (fst (getBufferedUpdates p offset s)).
Proof.
  intros W. unfold getBufferedUpdates.
  assert (Hclear : waiters_ok (set_updateBuffers (insert p []) s)).
  { intros q hd Hq. cbn in *. destruct (decide (q = p)) as [->|Hne].
    - rewrite lookup_insert_eq. constructor.
    - rewrite lookup_insert_ne by done. by apply W. }
  destruct (offset_falsy offset); [done|]. by destruct (findIndex _ _).
Qed.

Lemma waiters_ok_getUpdates user off limit timeout opts s :
  waiters_ok s -> waiters_ok (fst (getUpdates user off limit timeout opts s)).
Proof.
  intros W. destruct (decide (updateMode user = ModeWebhook)) as [Hm|Hm].
  - unfold getUpdates. by rewrite Hm.
  - rewrite getUpdates_polling by done. cbv zeta.
    pose proof (getBufferedUpdates_empty (phoneNumber user) off
                  (clearHandlers (phoneNumber user) s)
                  (clearHandlers_buffer _ _)) as [_ Hb].
    pose proof (waiters_ok_getBufferedUpdates (phoneNumber user) off _
                  (waiters_ok_clearHandlers (phoneNumber user) s W)) as W2.
    destruct (timeout =? 0); [done|]. cbn [fst].
    intros q hd Hq. cbn in *. apply lookup_insert_Some in Hq as [[<- <-]|[Hne Hq]].
    + rewrite Hb. constructor.
    + by apply W2.
Qed.

Lemma waiters_ok_bufferUpdate p update s :
  waiters_ok s -> waiters_ok (fst (bufferUpdate p update s)).
Proof.
  intros W. unfold bufferUpdate. cbn [updateHandlers set_updateBuffers].
  destruct (updateHandlers s !! p) as [hd|] eqn:Hp.
  - unfold getBufferedUpdates. cbn [updateBuffers set_updateBuffers].
    rewrite lookup_insert_eq. cbn [default from_option Datatypes.id].
    set (b := default [] (updateBuffers s !! p)).
    assert (Hdrop : ∀ s', updateHandlers s' = updateHandlers s ->
              (∀ q, q ≠ p -> updateBuffers s' !! q = updateBuffers s !! q) ->
              waiters_ok (set_updateHandlers (delete p) s')).
    { intros s' Hh Hb q hq Hq. cbn in *.
      apply lookup_delete_Some in Hq as [Hne Hq]. rewrite Hh in Hq.
      rewrite Hb by done. by apply W. }
    destruct (offset_falsy (offset hd)) eqn:Hf.
    + cbn [fst snd]. rewrite length_app. cbn [length].
      replace (0 <? length b + 1)%nat with true by (symmetry; apply Nat.ltb_lt; lia).
      cbn [fst]. apply Hdrop; [done|]. intros q Hne. cbn.
      by rewrite !lookup_insert_ne.
    + destruct (findIndex _ (b ++ [update])) as [i|] eqn:Ei.
      * apply findIndex_lt in Ei. cbn [fst snd]. rewrite length_drop.
        replace (0 <? length (b ++ [update]) - i)%nat with true
          by (symmetry; apply Nat.ltb_lt; lia).
        cbn [fst]. apply Hdrop; [done|]. intros q Hne. cbn.
        by rewrite !lookup_insert_ne.
      * apply findIndex_None_Forall in Ei. cbn.
        intros q hq Hq. cbn in *. destruct (decide (q = p)) as [->|Hne].
        -- rewrite lookup_insert_eq. cbn. rewrite Hp in Hq. injection Hq as <-.
           eapply Forall_impl; [exact Ei|]. intros u Hu. unfold passes_offset.
           by rewrite Hf, Hu.
        -- rewrite lookup_insert_ne by done. by apply W.
  - intros q hq Hq. cbn in *. destruct (decide (q = p)) as [->|Hne].
    + by rewrite Hp in Hq.
    + rewrite lookup_insert_ne by done. by apply W.
Qed.

Lemma waiters_ok_emit user now pl s :
  waiters_ok s ->
  waiters_ok (fst (let '(s1, newId) := generateUpdateId (phoneNumber user) now s in
                   processUpdate user {| update_id := newId; payload := pl |} s1)).
Proof.
  intros W. cbv zeta. unfold processUpdate. destruct (_ && _); [done|].
  by apply waiters_ok_bufferUpdate.
Qed.

Lemma waiters_ok_handleMessageUpdate user message type now s :
  waiters_ok s -> waiters_ok (fst (handleMessageUpdate user message type now s)).
Proof.
  intros W. unfold handleMessageUpdate. cbv zeta.
  destruct (pm_has _ _); [done|].
  match goal with |- context [handleMediaAlbum message ?s2] =>
    assert (W2 : waiters_ok s2) by (by case_match);
    pose proof (handleMediaAlbum_frame message s2) as (_ & Fh & Fb & _);
    destruct (handleMediaAlbum message s2) as [s3 messages]
  end.
  cbn [fst] in Fh, Fb.
  assert (W3 : waiters_ok s3) by by eapply waiters_ok_same.
  destruct (length messages =? 0)%nat; [done|].
  destruct (_ && _); by apply waiters_ok_emit.
Qed.

Lemma waiters_ok_rawEventHandler user opts update now s :
  waiters_ok s -> waiters_ok (fst (rawEventHandler user opts update now s)).
Proof.
  intros W. unfold rawEventHandler.
  destruct (className update); cbv zeta;
    repeat match goal with
           | |- context [if ?b then _ else _] => destruct b
           end;
    first [done | by apply waiters_ok_emit].
Qed.

Lemma waiters_ok_fireTimer h s : waiters_ok s -> waiters_ok (fst (fireTimer h s)).
Proof.
  intros W. unfold fireTimer. destruct (timers s !! h) as [t|]; [|done].
  destruct (callback t) as [p|g|g]; cbn [fst]; [|done|done].
  intros q hq Hq. cbn in *. apply lookup_delete_Some in Hq as [_ Hq]. by apply W.
Qed.

Lemma waiters_ok_step c s : waiters_ok s -> waiters_ok (fst (step c s)).
Proof.
  intros W.
  destruct c as [user options|user options update now|user options message now
                |user offset limit timeout options|h]; cbn [step fst].
  - by apply waiters_ok_clearHandlers.
  - by apply waiters_ok_rawEventHandler.
  - unfold messageEventHandler. destruct (shouldIncludeUpdate _ _); [|done].
    by apply waiters_ok_handleMessageUpdate.
  - by apply waiters_ok_getUpdates.
  - by apply waiters_ok_fireTimer.
Qed.

Lemma waiters_ok_run cs s : waiters_ok s -> waiters_ok (fst (run cs s)).
Proof.
  revert s. induction cs as [|c cs IH]; intros s W; [done|].
  rewrite run_cons. cbn [fst]. by apply IH, waiters_ok_step.
Qed.

(** Whatever calls led to it, a registered waiter is [waiting]. *)
Lemma reachable_waiting cs p hd :
  updateHandlers (fst (run cs init)) !! p = Some hd ->
  waiting p hd (fst (run cs init)).
Proof.
  intros Hp.
  pose proof (timers_wf_run cs init timers_wf_init) as (_ & W2 & _).
  assert (Wok : waiters_ok (fst (run cs init))).
  { apply waiters_ok_run. intros q hq Hq. cbn in Hq. by rewrite lookup_empty in Hq. }
  split; [done|]. split; [|by apply Wok].
  destruct (W2 p hd Hp) as (d & Hd). eauto.
Qed.

(** X3. In every state the engine can reach from its initial state, a
    registered waiter is resolved by the next update delivered to its
    account that the offset lets through, with exactly that update, and
    is then removed with its timer cancelled; an update the offset
    filters out leaves it registered; and when its timer fires it is
    resolved with the empty list and removed. *)
Theorem reachable_waiter_resolution cs p hd update :
  let s := fst (run cs init) in
  updateHandlers s !! p = Some hd ->
  (passes_offset (offset hd) update = true ->
     snd (bufferUpdate p update s)
       = [Buffered p update; Resolved (timeoutHandle hd) [update]]
     ∧ updateHandlers (fst (bufferUpdate p update s)) !! p = None
     ∧ timers (fst (bufferUpdate p update s)) !! timeoutHandle hd = None)
  ∧ (passes_offset (offset hd) update = false ->
       snd (bufferUpdate p update s) = [Buffered p update]
       ∧ updateHandlers (fst (bufferUpdate p update s)) !! p = Some hd)
  ∧ snd (fireTimer (timeoutHandle hd) s) = [Resolved (timeoutHandle hd) []]
  ∧ updateHandlers (fst (fireTimer (timeoutHandle hd) s)) !! p = None.
Proof.
  intros s Hp. pose proof (reachable_waiting cs p hd Hp) as Hw. fold s in Hw.
  split; [|split].
  - intros Hpass.
    destruct (bufferUpdate_resolves p hd update s Hw Hpass) as (He & Hh & Ht & _).
    done.
  - intros Hpass.
    destruct (bufferUpdate_filtered p hd update s Hw Hpass) as (He & (Hh & _) & _).
    done.
  - destruct (fireTimer_waiting p hd s Hw) as (He & Hh & _). done.
Qed.

Lemma reachable_waiter_resolution_witness :
  let cs := [CallRaw alice None reaction_raw 1000;
             CallGetUpdates alice (Some 1005) 100 30 None;
             CallRaw alice None reaction_raw 2000] in
  let hd := {| offset := Some 1005; timeoutHandle := 0; options := None |} in
  updateHandlers (fst (run cs init)) !! phoneNumber alice = Some hd
  ∧ passes_offset (offset hd) (update_numbered 1006) = true
  ∧ snd (bufferUpdate (phoneNumber alice) (update_numbered 1006) (fst (run cs init)))
    = [Buffered (phoneNumber alice) (update_numbered 1006);
       Resolved 0 [update_numbered 1006]].
Proof.
  intros cs hd.
  assert (H1 : updateHandlers (fst (run cs init)) !! phoneNumber alice = Some hd)
    by reflexivity.
  assert (H2 : passes_offset (offset hd) (update_numbered 1006) = true) by reflexivity.
  split; [exact H1|]. split; [exact H2|].
  exact (proj1 (proj1 (reachable_waiter_resolution cs (phoneNumber alice) hd
                         (update_numbered 1006) H1) H2)).
Defined.

(** ** Albums in reachable states *)

Lemma albums_single_same s s' :
  pendingAlbums s' = pendingAlbums s -> albums_single s -> albums_single s'.
Proof. intros H W g a. rewrite H. apply W. Qed.

Lemma albums_single_delete g s :
  albums_single s -> albums_single (set_pendingAlbums (delete g) s).
Proof.
  intros W g' a Ha. cbn in Ha. apply lookup_delete_Some in Ha as [_ Ha]. by apply W.
Qed.

(** What [handleMediaAlbum] returns when every pending album holds one
    message: the message itself when it has no group, nothing for the
    first fragment of a group, and the pending fragment together with
    the new one, sorted, for the second. *)
Lemma handleMediaAlbum_shape message s :
  albums_single s ->
  albums_single (fst (handleMediaAlbum message s))
  ∧ ((groupedId message = None ∧ snd (handleMediaAlbum message s) = [message])
     ∨ snd (handleMediaAlbum message s) = []
     ∨ ∃ g (m1 : ApiMessage), groupedId message = Some g ∧ groupedId m1 = Some g
               ∧ snd (handleMediaAlbum message s) = sort_by id [m1; message]).
Proof.
  intros W. unfold handleMediaAlbum. destruct (groupedId message) as [g|] eqn:Hg.
  - destruct (pendingAlbums s !! g) as [a|] eqn:Ha.
    + destruct (W g a Ha) as (m1 & Hm & Hg1). rewrite Hm. cbn [app setTimeout].
      assert (Hlen : length (sort_by id [m1; message]) = 2%nat)
        by by rewrite sort_by_length.
      rewrite Hlen. cbn [Nat.leb fst snd]. split.
      * intros g' a' Ha'. cbn in Ha'.
        apply lookup_delete_Some in Ha' as [Hne Ha'].
        rewrite lookup_insert_ne in Ha' by done. by apply W.
      * right. right. by exists g, m1.
    + cbn. split; [|by right; left].
      intros g' a' Ha'. cbn in Ha'.
      apply lookup_insert_Some in Ha' as [[<- <-]|[_ Ha']]; [|by apply W].
      by exists message.
  - split; [done|]. by left.
Qed.

Lemma emit_produced p user now pl s :
  produced p (snd (let '(s1, newId) := generateUpdateId (phoneNumber user) now s in
                   processUpdate user {| update_id := newId; payload := pl |} s1))
  = if bool_decide (phoneNumber user = p)
    then [{| update_id := snd (generateUpdateId (phoneNumber user) now s);
             payload := pl |}]
    else [].
Proof.
  exact (processUpdate_produced p user
           {| update_id := snd (generateUpdateId (phoneNumber user) now s);
              payload := pl |}
           (fst (generateUpdateId (phoneNumber user) now s))).
Qed.

Lemma sorted_pair_is_album now g (m1 m2 : ApiMessage) newId :
  groupedId m1 = Some g -> groupedId m2 = Some g ->
  album_is_pair {| update_id := newId;
                   payload := P_album (Some g)
                                (map (convertToMessage now) (sort_by id [m1; m2])) |}.
Proof.
  intros H1 H2. unfold album_is_pair. cbn [payload]. rewrite sort_by_two.
  destruct (id m1 <=? id m2) eqn:E; cbn [map].
  - apply Z.leb_le in E. eexists _, _. split; [done|]. cbn. rewrite H1, H2. eauto.
  - apply Z.leb_gt in E. eexists _, _. split; [done|]. cbn. rewrite H1, H2.
    split; [lia|]. eauto.
Qed.

Lemma emit_albums user now pl s :
  albums_single s ->
  (∀ i, album_is_pair {| update_id := i; payload := pl |}) ->
  albums_single (fst (let '(s1, newId) := generateUpdateId (phoneNumber user) now s in
                      processUpdate user {| update_id := newId; payload := pl |} s1))
  ∧ ∀ p u,
      u ∈ produced p
            (snd (let '(s1, newId) := generateUpdateId (phoneNumber user) now s in
                  processUpdate user {| update_id := newId; payload := pl |} s1)) ->
      album_is_pair u.
Proof.
  intros W Hpl. split.
  - eapply albums_single_same; [|exact W].
    by destruct (emit_frame user now pl s) as (_ & -> & _).
  - intros p u Hu. rewrite emit_produced in Hu.
    case_bool_decide; [|by apply elem_of_nil in Hu].
    apply list_elem_of_singleton in Hu. by subst u.
Qed.

Lemma handleMessageUpdate_albums user message type now s :
  albums_single s ->
  albums_single (fst (handleMessageUpdate user message type now s))
  ∧ ∀ p u, u ∈ produced p (snd (handleMessageUpdate user message type now s)) ->
      album_is_pair u.
Proof.
  intros W. unfold handleMessageUpdate. cbv zeta.
  destruct (pm_has _ _).
  { split; [done|]. intros p u Hu. by apply elem_of_nil in Hu. }
  match goal with |- context [handleMediaAlbum message ?s2] =>
    assert (W2 : albums_single s2) by (by case_match);
    pose proof (handleMediaAlbum_shape message s2 W2) as [W3 Hshape];
    destruct (handleMediaAlbum message s2) as [s3 messages]
  end.
  cbn [fst snd] in W3, Hshape.
  destruct (length messages =? 0)%nat eqn:E0.
  { split; [done|]. intros p u Hu. by apply elem_of_nil in Hu. }
  destruct (_ && _) eqn:Ealbum.
  - apply emit_albums; [done|]. intros i.
    apply andb_true_iff in Ealbum as [Elen _].
    destruct Hshape as [[_ ->]|[->|(g & m1 & Hg & Hg1 & ->)]]; [done|done|].
    rewrite Hg. by apply sorted_pair_is_album.
  - by apply emit_albums.
Qed.

Lemma rawEventHandler_albums user opts update now s :
  albums_single s ->
  albums_single (fst (rawEventHandler user opts update now s))
  ∧ ∀ p u, u ∈ produced p (snd (rawEventHandler user opts update now s)) ->
      album_is_pair u.
Proof.
  intros W.
  assert (Hnil : albums_single (fst (s, @nil Effect))
                 ∧ ∀ p u, u ∈ produced p (snd (s, @nil Effect)) -> album_is_pair u).
  { split; [done|]. intros p u Hu. by apply elem_of_nil in Hu. }
  unfold rawEventHandler.
  destruct (className update); cbv zeta;
    repeat match goal with
           | |- context [if ?b then _ else _] => destruct b
           end;
    first [exact Hnil | by apply emit_albums].
Qed.

Lemma getUpdates_pendingAlbums user off limit timeout opts s :
  pendingAlbums (fst (getUpdates user off limit timeout opts s)) = pendingAlbums s.
Proof.
  destruct (decide (updateMode user = ModeWebhook)) as [Hm|Hm].
  - unfold getUpdates. by rewrite Hm.
  - rewrite getUpdates_polling by done. cbv zeta.
    pose proof (getBufferedUpdates_frame (phoneNumber user) off
                  (clearHandlers (phoneNumber user) s)) as (_ & F & _).
    pose proof (clearHandlers_frame (phoneNumber user) s) as (_ & _ & G).
    cbv zeta in F. destruct (timeout =? 0); cbn; by rewrite F, G.
Qed.

Lemma step_albums c s :
  albums_single s ->
  albums_single (fst (step c s))
  ∧ ∀ p u, u ∈ produced p (snd (step c s)) -> album_is_pair u.
Proof.
  intros W.
  assert (Hnil : ∀ s', albums_single s' ->
            albums_single (fst (s', @nil Effect))
            ∧ ∀ p u, u ∈ produced p (snd (s', @nil Effect)) -> album_is_pair u).
  { intros s' W'. split; [done|]. intros p u Hu. by apply elem_of_nil in Hu. }
  destruct c as [user options|user options update now|user options message now
                |user offset limit timeout options|h]; cbn [step].
  - apply Hnil. unfold setupEventHandling. cbn [fst].
    eapply albums_single_same; [|exact W].
    by destruct (clearHandlers_frame (phoneNumber user) s) as (_ & _ & ->).
  - by apply rawEventHandler_albums.
  - unfold messageEventHandler. destruct (shouldIncludeUpdate _ _); [|by apply Hnil].
    by apply handleMessageUpdate_albums.
  - apply Hnil. eapply albums_single_same; [|exact W]. apply getUpdates_pendingAlbums.
  - unfold fireTimer. destruct (timers s !! h) as [t|]; [|by apply Hnil].
    destruct (callback t); cbn [fst snd].
    + split; [done|]. intros p u Hu. by apply elem_of_nil in Hu.
    + split; [by apply albums_single_delete|].
      intros p u Hu. by apply elem_of_nil in Hu.
    + split; [by apply albums_single_delete|].
      intros p u Hu. by apply elem_of_nil in Hu.
Qed.

Lemma run_albums cs s :
  albums_single s ->
  albums_single (fst (run cs s))
  ∧ ∀ p u, u ∈ produced p (snd (run cs s)) -> album_is_pair u.
Proof.
  revert s. induction cs as [|c cs IH]; intros s W.
  - split; [done|]. intros p u Hu. by apply elem_of_nil in Hu.
  - rewrite run_cons. cbn [fst snd].
    destruct (step_albums c s W) as [W1 H1]. destruct (IH _ W1) as [W2 H2].
    split; [done|]. intros p u Hu. unfold produced in Hu.
    rewrite omap_app_list in Hu. apply elem_of_app in Hu as [Hu|Hu]; eauto.
Qed.

(** X4. In every run of the engine from its initial state, a pending
    album holds exactly one fragment, and every album update that is
    created carries exactly two messages, both of the group the album
    is named after, in ascending order of their identifiers: a group is
    flushed as soon as its second fragment arrives, whatever its size. *)
Theorem albums_are_pairs cs :
  albums_single (fst (run cs init))
  ∧ ∀ p u, u ∈ produced p (snd (run cs init)) -> album_is_pair u.
Proof.
  apply run_albums. intros g a Ha. cbn in Ha. by rewrite lookup_empty in Ha.
Qed.

(** X5. The pending albums are one table for all accounts, keyed by the
    group alone. When two accounts each receive a fragment of the same
    group, the first account gets nothing, and the second account gets
    an album that contains the fragment received by the first. *)
Theorem album_shared_across_accounts
    u1 u2 (m1 m2 : ApiMessage) t1 t2 now1 now2 g s s1 :
  phoneNumber u1 ≠ phoneNumber u2 ->
  groupedId m1 = Some g -> groupedId m2 = Some g ->
  pendingAlbums s !! g = None ->
  pm_has (messageKey u1 m1 t1) (processedMessages s) = false ->
  let first := handleMessageUpdate u1 m1 t1 now1 s in
  pendingAlbums s1 !! g = pendingAlbums (fst first) !! g ->
  pm_has (messageKey u2 m2 t2) (processedMessages s1) = false ->
  shouldIncludeUpdate T_album (updateHandlers s1 !! phoneNumber u2 ≫= options) = true ->
  let second := handleMessageUpdate u2 m2 t2 now2 s1 in
  produced (phoneNumber u1) (snd first ++ snd second) = []
  ∧ ∃ u, produced (phoneNumber u2) (snd first ++ snd second) = [u]
         ∧ payload u = P_album (Some g)
                         (map (convertToMessage now2) (sort_by id [m1; m2]))
         ∧ convertToMessage now2 m1
           ∈ map (convertToMessage now2) (sort_by id [m1; m2]).
Proof.
  intros Hne Hg1 Hg2 Hnone Hfresh1 first Hpending Hfresh2 Halbum second.
  destruct (lone_fragment_dropped u1 m1 t1 now1 g s Hg1 Hnone Hfresh1)
    as (Hfirst & Hentry & _).
  fold first in Hfirst, Hentry. rewrite Hentry in Hpending.
  destruct (handleMessageUpdate_fresh u2 m2 t2 now2 s1 Hfresh2)
    as (s2 & Ha & Hh & _ & _ & _ & _ & Heq).
  rewrite <- Ha in Hpending.
  destruct (handleMediaAlbum_second m1 m2 g _ s2 Hg2 Hpending) as (Hm & Hp).
  pose proof (handleMediaAlbum_frame m2 s2) as (_ & Fh & _). cbv zeta in Fh.
  fold second in Heq.
  destruct (handleMediaAlbum m2 s2) as [s3 messages]. cbn [fst snd] in *.
  subst messages.
  assert (Hlen : length (sort_by id [m1; m2]) = 2%nat) by by rewrite sort_by_length.
  rewrite Hlen, Fh, Hh, Halbum in Heq. cbn [Nat.eqb Nat.ltb Nat.leb andb] in Heq.
  rewrite Hfirst. cbn [app]. rewrite Heq, !emit_produced.
  rewrite bool_decide_eq_false_2 by congruence.
  rewrite bool_decide_eq_true_2 by done.
  split; [done|]. eexists. split; [done|]. cbn. rewrite Hg2. split; [done|].
  apply list_elem_of_fmap. exists m1. split; [done|].
  rewrite (sort_by_perm id [m1; m2]). left.
Qed.

Lemma album_shared_across_accounts_witness :
  let first := handleMessageUpdate alice (album_fragment 10 77) T_message 1000 init in
  let second := handleMessageUpdate dave (album_fragment 11 77) T_message 1100 (fst first) in
  phoneNumber alice ≠ phoneNumber dave
  ∧ pm_has (messageKey dave (album_fragment 11 77) T_message)
      (processedMessages (fst first)) = false
  ∧ produced (phoneNumber alice) (snd first ++ snd second) = []
  ∧ ∃ u, produced (phoneNumber dave) (snd first ++ snd second) = [u]
         ∧ payload u = P_album (Some 77)
                         (map (convertToMessage 1100)
                            (sort_by id [album_fragment 10 77; album_fragment 11 77])).
Proof.
  intros first second.
  assert (H0 : phoneNumber alice ≠ phoneNumber dave) by discriminate.
  assert (H3 : pm_has (messageKey dave (album_fragment 11 77) T_message)
                 (processedMessages (fst first)) = false) by (vm_compute; reflexivity).
  assert (H4 : shouldIncludeUpdate T_album
                 (updateHandlers (fst first) !! phoneNumber dave ≫= options) = true)
    by (vm_compute; reflexivity).
  destruct (album_shared_across_accounts alice dave (album_fragment 10 77)
              (album_fragment 11 77) T_message T_message 1000 1100 77 init (fst first)
              H0 eq_refl eq_refl eq_refl eq_refl eq_refl H3 H4)
    as (Hnone & u & Hu & Hpl & _).
  split; [exact H0|]. split; [exact H3|]. split; [exact Hnone|].
  exists u. split; [exact Hu|exact Hpl].
Defined.

(** ** Dedup filter: what it never does *)

Lemma step_cache_sources c s (e : MessageKey * Z) :
  e ∈ processedMessages (fst (step c s)) ->
  e ∈ processedMessages s
  ∨ ∃ user opts message now,
      c = CallMessage user opts message now
      ∧ e = (messageKey user message (messageType message), now).
Proof.
  destruct c as [user options|user options update now|user options message now
                |user offset limit timeout options|h]; cbn [step fst].
  - unfold setupEventHandling. cbn [fst].
    destruct (clearHandlers_frame (phoneNumber user) s) as (_ & -> & _). by left.
  - rewrite rawEventHandler_cache. by left.
  - unfold messageEventHandler. destruct (shouldIncludeUpdate _ _); [|by left].
    rewrite handleMessageUpdate_cache. cbv zeta.
    destruct (pm_has _ _) eqn:Ehas; [by left|]. rewrite pm_set_fresh by done.
    intros He.
    assert (He' : e ∈ processedMessages s
                      ++ [(messageKey user message (messageType message), now)]).
    { destruct (MAX_CACHE_SIZE <? _)%nat; [|done].
      eapply elem_of_sublist; [exact He|apply cleanup_sublist]. }
    apply elem_of_app in He' as [He'|He']; [by left|].
    apply list_elem_of_singleton in He'. right. eauto 10.
  - rewrite getUpdates_cache. by left.
  - rewrite fireTimer_cache. by left.
Qed.

Lemma run_cache_sources cs s (e : MessageKey * Z) :
  e ∈ processedMessages (fst (run cs s)) ->
  e ∈ processedMessages s
  ∨ ∃ user opts message now,
      CallMessage user opts message now ∈ cs
      ∧ e = (messageKey user message (messageType message), now).
Proof.
  revert s. induction cs as [|c cs IH]; intros s He; [by left|].
  rewrite run_cons in He. cbn [fst] in He.
  destruct (IH _ He) as [He'|(user & opts & message & now & Hin & ->)].
  - destruct (step_cache_sources c s e He')
      as [?|(user & opts & message & now & -> & ->)]; [by left|].
    right. exists user, opts, message, now. split; [left|done].
  - right. exists user, opts, message, now. split; [by right|done].
Qed.

(** X6. The dedup filter has no false positives: in a run from the
    initial state, an event is discarded as a repetition only if a
    message event of the same account, with the same message identifier
    and of the same kind, was handled earlier in the run. *)
Theorem duplicate_only_after_same_event cs user message type :
  pm_has (messageKey user message type) (processedMessages (fst (run cs init))) = true ->
  ∃ user' opts message' now,
    CallMessage user' opts message' now ∈ cs
    ∧ phoneNumber user' = phoneNumber user
    ∧ id message' = id message
    ∧ messageType message' = type.
Proof.
  intros Hhas. apply pm_has_true, list_elem_of_fmap in Hhas as ([k t] & Hk & He).
  cbn in Hk. subst k.
  destruct (run_cache_sources cs init _ He)
    as [Hinit|(user' & opts & message' & now & Hin & Heq)].
  - cbn in Hinit. by apply elem_of_nil in Hinit.
  - exists user', opts, message', now. split; [done|].
    unfold messageKey in Heq. by simplify_eq.
Qed.

Lemma duplicate_only_after_same_event_witness :
  pm_has (messageKey alice (plain_message 2) T_message)
    (processedMessages (fst (run steady_run init))) = true
  ∧ ∃ user' opts message' now,
      CallMessage user' opts message' now ∈ steady_run
      ∧ phoneNumber user' = phoneNumber alice
      ∧ id message' = id (plain_message 2)
      ∧ messageType message' = T_message.
Proof.
  assert (H : pm_has (messageKey alice (plain_message 2) T_message)
                (processedMessages (fst (run steady_run init))) = true)
    by (vm_compute; reflexivity).
  split; [exact H|].
  exact (duplicate_only_after_same_event steady_run alice (plain_message 2) T_message H).
Defined.

Lemma cache_insert_length k now m :
  NoDup (map fst m) -> pm_has k m = false ->
  (length m <= MAX_CACHE_SIZE)%nat ->
  (length (cache_insert k now m) <= MAX_CACHE_SIZE)%nat.
Proof.
  intros Hnd Hfresh Hlen. unfold cache_insert. cbv zeta. rewrite pm_set_fresh by done.
  destruct (MAX_CACHE_SIZE <? _)%nat eqn:Eover; [|by apply Nat.ltb_ge in Eover].
  unfold cleanupProcessedMessages.
  set (m2 := remove_expired now (m ++ [(k, now)])).
  assert (Hnd2 : NoDup (map fst m2)).
  { apply remove_expired_keys_NoDup. rewrite fmap_app. apply NoDup_app.
    split; [done|]. split; [|apply NoDup_singleton].
    intros x Hx Hx'. apply list_elem_of_singleton in Hx'. subst x.
    by apply pm_has_false in Hfresh. }
  destruct (decide (length m2 <= MAX_CACHE_SIZE)%nat) as [Hsmall|Hbig].
  - by rewrite remove_oldest_small.
  - rewrite (remove_oldest_perm m2 Hnd2) by lia.
    rewrite length_drop, sort_by_length. lia.
Qed.

(** X7. The dedup cache never holds more than [MAX_CACHE_SIZE] entries
    once a handler run has ended, and its keys are pairwise distinct. *)
Theorem cache_never_exceeds_capacity cs :
  (length (processedMessages (fst (run cs init))) <= MAX_CACHE_SIZE)%nat
  ∧ NoDup (map fst (processedMessages (fst (run cs init)))).
Proof.
  assert (H : ∀ cs s,
    (length (processedMessages s) <= MAX_CACHE_SIZE)%nat
    ∧ NoDup (map fst (processedMessages s)) ->
    (length (processedMessages (fst (run cs s))) <= MAX_CACHE_SIZE)%nat
    ∧ NoDup (map fst (processedMessages (fst (run cs s))))).
  { clear cs. induction cs as [|c cs IH]; intros s [Hlen Hnd]; [done|].
    rewrite run_cons. cbn [fst]. apply IH. split; [|by apply step_keys_NoDup].
    destruct (step_cache_shape c s) as [->|(k & now & _ & Hfresh & ->)]; [done|].
    by apply cache_insert_length. }
  apply H. cbn. split; [lia|constructor].
Qed.

(** ** Sequence numbers and buffers in reachable states *)

Section Counting.
Variable p : string.

Lemma clocks_for_cons q now calls :
  clocks_for p ((q, now) :: calls)
  = if bool_decide (q = p) then now :: clocks_for p calls else clocks_for p calls.
Proof. unfold clocks_for. cbn. by case_bool_decide. Qed.

(** Once the counter of [p] holds a positive number, the identifiers
    handed out for [p] count on from it, whatever the clock reads. *)
Lemma generateMany_from_counter calls s v :
  lastUpdateId s !! p = Some v -> 1 <= v ->
  ids_for p (snd (generateMany calls s))
  = map (fun i => v + 1 + Z.of_nat i) (seq 0 (length (clocks_for p calls))).
Proof.
  revert s v. induction calls as [|[q now] calls IH]; intros s v Hv Hpos; [done|].
  cbn [generateMany].
  destruct (generateUpdateId_value q now s) as [Hval Hlast].
  destruct (generateUpdateId q now s) as [s1 newId]. cbn [fst snd] in *.
  specialize (IH s1).
  destruct (generateMany calls s1) as [s2 ids]. cbn [fst snd] in *.
  rewrite ids_for_cons, clocks_for_cons.
  destruct (decide (q = p)) as [->|Hq].
  - rewrite !bool_decide_eq_true_2 by done. rewrite Hv in Hval.
    replace (v =? 0) with false in Hval by (symmetry; apply Z.eqb_neq; lia).
    rewrite (IH (v + 1)); [|by rewrite Hlast, lookup_insert_eq, Hval|lia].
    cbn [length seq map]. rewrite Hval. f_equal; [lia|].
    rewrite <- seq_shift, map_map. apply map_ext. intros i. lia.
  - rewrite !bool_decide_eq_false_2 by done.
    apply (IH v); [by rewrite Hlast, lookup_insert_ne|done].
Qed.

(** Before the first call for [p] its counter is missing, and the first
    identifier is the clock reading of that call plus one. *)
Lemma generateMany_from_start calls s :
  Forall (fun c => 0 <= snd c) calls -> lastUpdateId s !! p = None ->
  ids_for p (snd (generateMany calls s))
  = match clocks_for p calls with
    | [] => []
    | now :: rest => map (fun i => now + 1 + Z.of_nat i) (seq 0 (S (length rest)))
    end.
Proof.
  revert s. induction calls as [|[q now] calls IH]; intros s Hclk Hnone; [done|].
  apply Forall_cons in Hclk as [Hc Hclk]. cbn [snd] in Hc.
  pose proof (generateMany_from_counter calls (fst (generateUpdateId q now s))) as Hcount.
  cbn [generateMany].
  destruct (generateUpdateId_value q now s) as [Hval Hlast].
  destruct (generateUpdateId q now s) as [s1 newId]. cbn [fst snd] in *.
  specialize (IH s1 Hclk).
  destruct (generateMany calls s1) as [s2 ids]. cbn [fst snd] in *.
  rewrite ids_for_cons, clocks_for_cons.
  destruct (decide (q = p)) as [->|Hq].
  - rewrite !bool_decide_eq_true_2 by done. rewrite Hnone in Hval.
    rewrite (Hcount (now + 1)); [|by rewrite Hlast, lookup_insert_eq, Hval|lia].
    cbn [length seq map]. rewrite Hval. f_equal; [lia|].
    rewrite <- seq_shift, map_map. apply map_ext. intros i. lia.
  - rewrite !bool_decide_eq_false_2 by done.
    apply IH. by rewrite Hlast, lookup_insert_ne.
Qed.

Lemma getBufferedUpdates_buffer q offset s :
  buffer_of p (fst (getBufferedUpdates q offset s)) = []
  ∨ buffer_of p (fst (getBufferedUpdates q offset s)) = buffer_of p s.
Proof.
  unfold getBufferedUpdates, buffer_of.
  assert (H : default [] (updateBuffers (set_updateBuffers (insert q []) s) !! p) = []
              ∨ default [] (updateBuffers (set_updateBuffers (insert q []) s) !! p)
                = default [] (updateBuffers s !! p)).
  { cbn. destruct (decide (q = p)) as [->|Hne].
    - left. by rewrite lookup_insert_eq.
    - right. by rewrite lookup_insert_ne. }
  destruct (offset_falsy offset); [done|]. destruct (findIndex _ _); [done|by right].
Qed.

Lemma getBufferedUpdates_buffer_other q offset s :
  q ≠ p -> buffer_of p (fst (getBufferedUpdates q offset s)) = buffer_of p s.
Proof.
  intros Hne. unfold getBufferedUpdates, buffer_of.
  destruct (offset_falsy offset); cbn; [by rewrite lookup_insert_ne|].
  destruct (findIndex _ _); cbn; [by rewrite lookup_insert_ne|done].
Qed.

Lemma bufferUpdate_buffers q update s0 s :
  buffer_of p s = buffer_of p s0 ->
  buffers p s0 (bufferUpdate q update s).
Proof.
  intros Hb. unfold buffers. rewrite bufferUpdate_produced, <- Hb.
  unfold bufferUpdate. cbn [updateHandlers set_updateBuffers].
  set (s1 := set_updateBuffers
               (insert q (default [] (updateBuffers s !! q) ++ [update])) s).
  assert (H1 : buffer_of p s1
               = if bool_decide (q = p) then buffer_of p s ++ [update] else buffer_of p s).
  { unfold buffer_of, s1. cbn. case_bool_decide as Hq.
    - subst q. by rewrite lookup_insert_eq.
    - by rewrite lookup_insert_ne. }
  destruct (updateHandlers s !! q) as [hd|].
  - pose proof (getBufferedUpdates_buffer q (offset hd) s1) as Hg.
    pose proof (getBufferedUpdates_buffer_other q (offset hd) s1) as Hother.
    destruct (getBufferedUpdates q (offset hd) s1) as [s2 ups]. cbn [fst] in *.
    assert (H2 : buffer_of p s2 = []
                 ∨ buffer_of p s2
                   = if bool_decide (q = p) then buffer_of p s ++ [update]
                     else buffer_of p s).
    { destruct Hg as [Hg|Hg]; [by left|right]. by rewrite Hg. }
    destruct (0 <? length ups)%nat; cbn [fst snd].
    + change (buffer_of p (set_updateHandlers (delete q)
                             (clearTimeout (timeoutHandle hd) s2)))
        with (buffer_of p s2).
      destruct H2 as [H2|H2]; [by left|].
      rewrite H2. case_bool_decide; [right; right; eauto|by right; left].
    + destruct H2 as [H2|H2]; [by left|].
      rewrite H2. case_bool_decide; [right; right; eauto|by right; left].
  - cbn [fst snd]. rewrite H1. case_bool_decide; [right; right; eauto|by right; left].
Qed.

Lemma emit_buffers user now pl s0 s :
  buffer_of p s = buffer_of p s0 ->
  buffers p s0
    (let '(s1, newId) := generateUpdateId (phoneNumber user) now s in
     processUpdate user {| update_id := newId; payload := pl |} s1).
Proof.
  intros Hb. cbv zeta. unfold processUpdate. destruct (_ && _).
  - right. left. cbn. exact Hb.
  - by apply bufferUpdate_buffers.
Qed.

Lemma handleMessageUpdate_buffers user message type now s :
  buffers p s (handleMessageUpdate user message type now s).
Proof.
  unfold handleMessageUpdate. cbv zeta.
  destruct (pm_has _ _); [by right; left|].
  match goal with |- context [handleMediaAlbum message ?s2] =>
    assert (H2 : updateBuffers s2 = updateBuffers s) by (by case_match);
    pose proof (handleMediaAlbum_frame message s2) as (_ & _ & F & _);
    destruct (handleMediaAlbum message s2) as [s3 messages]
  end.
  cbn [fst] in F. rewrite H2 in F.
  assert (Hb : buffer_of p s3 = buffer_of p s) by (unfold buffer_of; by rewrite F).
  destruct (length messages =? 0)%nat; [by right; left|].
  destruct (_ && _); by apply emit_buffers.
Qed.

Lemma rawEventHandler_buffers user opts update now s :
  buffers p s (rawEventHandler user opts update now s).
Proof.
  unfold rawEventHandler.
  destruct (className update); cbv zeta;
    repeat match goal with
           | |- context [if ?b then _ else _] => destruct b
           end;
    first [by right; left | by apply emit_buffers].
Qed.

Lemma clearHandlers_buffers q s :
  buffer_of p (clearHandlers q s) = [] ∨ buffer_of p (clearHandlers q s) = buffer_of p s.
Proof.
  unfold buffer_of. destruct (decide (p = q)) as [->|Hne].
  - left. by rewrite clearHandlers_buffer.
  - right. by destruct (clearHandlers_other q p s Hne) as [-> _].
Qed.

Lemma getUpdates_buffers user off limit timeout opts s :
  buffer_of p (fst (getUpdates user off limit timeout opts s)) = []
  ∨ buffer_of p (fst (getUpdates user off limit timeout opts s)) = buffer_of p s.
Proof.
  destruct (decide (updateMode user = ModeWebhook)) as [Hm|Hm].
  - unfold getUpdates. rewrite Hm. by right.
  - rewrite getUpdates_polling by done. cbv zeta.
    set (s2 := fst (getBufferedUpdates (phoneNumber user) off
                      (clearHandlers (phoneNumber user) s))).
    assert (H2 : buffer_of p s2 = [] ∨ buffer_of p s2 = buffer_of p s).
    { destruct (getBufferedUpdates_buffer (phoneNumber user) off
                  (clearHandlers (phoneNumber user) s)) as [H|H]; [by left|].
      fold s2 in H. rewrite H. apply clearHandlers_buffers. }
    destruct (timeout =? 0); done.
Qed.

Lemma step_buffers c s : buffers p s (step c s).
Proof.
  destruct c as [user options|user options update now|user options message now
                |user offset limit timeout options|h]; cbn [step].
  - unfold buffers, setupEventHandling. cbn [fst snd].
    destruct (clearHandlers_buffers (phoneNumber user) s); [by left|by right; left].
  - apply rawEventHandler_buffers.
  - unfold messageEventHandler. destruct (shouldIncludeUpdate _ _);
      [apply handleMessageUpdate_buffers|by right; left].
  - unfold buffers. cbn [fst snd].
    destruct (getUpdates_buffers user offset limit timeout options s);
      [by left|by right; left].
  - unfold fireTimer. destruct (timers s !! h) as [t|]; [|by right; left].
    destruct (callback t); by right; left.
Qed.

Lemma step_buffer_ok c s :
  clock_ok c ->
  (∀ v, lastUpdateId s !! p = Some v -> 1 <= v) ->
  buffer_ok p s ->
  buffer_ok p (fst (step c s))
  ∧ ∀ v, lastUpdateId (fst (step c s)) !! p = Some v -> 1 <= v.
Proof.
  intros Hc Hpos [Hs Hle].
  assert (Hnow : 0 <= default 0 (clock_of c)).
  { unfold clock_ok in Hc. destruct (clock_of c); cbn; [done|lia]. }
  destruct (generateUpdateId_grows p _ s Hnow Hpos) as [Hone Hgt].
  pose proof (step_issues p c s) as Hi. pose proof (step_buffers c s) as Hb.
  unfold issues, buffers in *.
  assert (Hlast : ∀ v, lastUpdateId s !! p = Some v ->
            ∃ v', lastUpdateId (fst (step c s)) !! p = Some v' ∧ v <= v').
  { intros v Hv. destruct Hi as [[_ ->]|(u & _ & -> & Hid)]; [eauto with lia|].
    exists (update_id u). split; [done|]. rewrite Hid. specialize (Hgt v Hv). lia. }
  assert (Hpos' : ∀ v, lastUpdateId (fst (step c s)) !! p = Some v -> 1 <= v).
  { intros v Hv. destruct Hi as [[_ Hl]|(u & _ & Hl & Hid)]; rewrite Hl in Hv.
    - by apply Hpos.
    - injection Hv as <-. by rewrite Hid. }
  split; [|exact Hpos'].
  destruct Hb as [Hb|[Hb|(u & Hu & Hb)]]; unfold buffer_ok; rewrite Hb.
  - split; [constructor|]. intros u Hu. by apply elem_of_nil in Hu.
  - split; [done|]. intros u Hu. destruct (Hle u Hu) as (v & Hv & Hle').
    destruct (Hlast v Hv) as (v' & Hv' & Hvv'). exists v'. split; [done|lia].
  - destruct Hi as [[He _]|(u' & He & Hl & Hid)]; rewrite He in Hu; [done|].
    injection Hu as <-. split.
    + rewrite fmap_app. apply StronglySorted_app_2; [|done|repeat constructor].
      intros x y Hx Hy. apply list_elem_of_singleton in Hy. subst y.
      apply list_elem_of_fmap in Hx as (w & -> & Hw).
      destruct (Hle w Hw) as (v & Hv & Hle'). specialize (Hgt v Hv).
      cbn. rewrite Hid. lia.
    + intros w Hw. exists (update_id u'). split; [done|].
      apply elem_of_app in Hw as [Hw|Hw].
      * destruct (Hle w Hw) as (v & Hv & Hle'). specialize (Hgt v Hv).
        rewrite Hid. lia.
      * apply list_elem_of_singleton in Hw. by subst w.
Qed.

Lemma run_buffer_ok cs s :
  Forall clock_ok cs ->
  (∀ v, lastUpdateId s !! p = Some v -> 1 <= v) ->
  buffer_ok p s ->
  buffer_ok p (fst (run cs s)).
Proof.
  revert s. induction cs as [|c cs IH]; intros s Hclk Hpos Hok; [done|].
  apply Forall_cons in Hclk as [Hc Hclk]. rewrite run_cons. cbn [fst].
  destruct (step_buffer_ok c s Hc Hpos Hok) as [Hok1 Hpos1]. by apply IH.
Qed.
End Counting.

(** X8. As long as the clock does not read a negative time, the
    identifiers [generateUpdateId] hands out for one account from the
    start of the process are consecutive: the first is the clock reading
    of the first call for the account plus one, and every later one is
    its predecessor plus one, whatever the clock reads later and
    whatever calls for other accounts come in between. *)
Theorem issued_ids_consecutive phone calls :
  Forall (fun c => 0 <= snd c) calls ->
  ids_for phone (snd (generateMany calls init))
  = match clocks_for phone calls with
    | [] => []
    | now :: rest => map (fun i => now + 1 + Z.of_nat i) (seq 0 (S (length rest)))
    end.
Proof. intros Hclk. by apply generateMany_from_start. Qed.

Lemma issued_ids_consecutive_witness :
  Forall (fun c => 0 <= snd c) example_calls
  ∧ ids_for (phoneNumber alice) (snd (generateMany example_calls init))
    = [1700000000001; 1700000000002; 1700000000003].
Proof.
  assert (H : Forall (fun c : string * Z => 0 <= snd c) example_calls)
    by (repeat constructor; cbn; lia).
  split; [exact H|].
  rewrite (issued_ids_consecutive (phoneNumber alice) example_calls H). reflexivity.
Defined.

(** X9. As long as the clock does not read a negative time, the buffer
    of an account holds, in every state reached from the initial one,
    updates with strictly increasing identifiers, none of them above the
    last identifier issued for the account. *)
Theorem buffer_strictly_increasing p cs :
  Forall clock_ok cs ->
  StronglySorted Z.lt (map update_id (buffer_of p (fst (run cs init))))
  ∧ ∀ u, u ∈ buffer_of p (fst (run cs init)) ->
      ∃ v, lastUpdateId (fst (run cs init)) !! p = Some v ∧ update_id u <= v.
Proof.
  intros Hclk. apply (run_buffer_ok p cs init Hclk); [done|].
  split; [constructor|]. intros u Hu. by apply elem_of_nil in Hu.
Qed.

Lemma buffer_strictly_increasing_witness :
  Forall clock_ok mixed_run
  ∧ StronglySorted Z.lt
      (map update_id (buffer_of (phoneNumber alice) (fst (run mixed_run init))))
  ∧ length (buffer_of (phoneNumber alice) (fst (run mixed_run init))) = 3%nat.
Proof.
  assert (H : Forall clock_ok mixed_run)
    by (repeat constructor; unfold clock_ok; cbn; lia).
  split; [exact H|].
  split; [exact (proj1 (buffer_strictly_increasing (phoneNumber alice) mixed_run H))|].
  reflexivity.
Defined.

(** ** [getBufferedUpdates] *)

Lemma findIndex_sorted_filter (o : Z) (b : list Update) :
  StronglySorted Z.lt (map update_id b) ->
  match findIndex (fun u => o <? update_id u) b with
  | Some i => drop i b = List.filter (fun u => o <? update_id u) b
              ∧ List.filter (fun u => o <? update_id u) b ≠ []
  | None => List.filter (fun u => o <? update_id u) b = []
  end.
Proof.
  induction b as [|x b IH]; intros Hs; cbn; [done|].
  apply StronglySorted_inv in Hs as [Hs Hx].
  destruct (o <? update_id x) eqn:E.
  - cbn. split; [|done]. f_equal. symmetry. apply filter_every.
    intros y Hy. rewrite Forall_forall in Hx. apply Z.ltb_lt in E. apply Z.ltb_lt.
    assert (update_id x < update_id y); [|lia].
    apply Hx. rewrite <- ?list_elem_of_In. apply list_elem_of_fmap. eauto.
  - specialize (IH Hs). destruct (findIndex _ b) as [i|]; cbn; done.
Qed.

(** X10. On a buffer with increasing identifiers, [getBufferedUpdates]
    with an offset other than 0 returns exactly the buffered updates
    whose identifier exceeds the offset. When it returns some, it
    forgets the whole buffer, the updates at or below the offset
    included; when it returns none, it leaves the buffer as it is.
    Without an offset, or with offset 0, it returns and forgets
    everything. *)
Theorem getBufferedUpdates_above_offset p offset s :
  StronglySorted Z.lt (map update_id (buffer_of p s)) ->
  let r := getBufferedUpdates p offset s in
  (offset_falsy offset = true ->
     snd r = buffer_of p s ∧ buffer_of p (fst r) = [])
  ∧ (offset_falsy offset = false ->
       snd r = List.filter (fun u => default 0 offset <? update_id u) (buffer_of p s)
       ∧ buffer_of p (fst r) = match snd r with
                               | [] => buffer_of p s
                               | _ :: _ => []
                               end).
Proof.
  intros Hs r. subst r. unfold getBufferedUpdates. fold (buffer_of p s). split.
  - intros ->. cbn. split; [done|]. unfold buffer_of. cbn. by rewrite lookup_insert_eq.
  - intros ->. pose proof (findIndex_sorted_filter (default 0 offset) _ Hs) as H.
    destruct (findIndex _ _) as [i|]; cbn [fst snd].
    + destruct H as [-> Hne]. split; [done|].
      destruct (List.filter _ _); [done|].
      unfold buffer_of. cbn. by rewrite lookup_insert_eq.
    + rewrite H. done.
Qed.

Lemma getBufferedUpdates_above_offset_witness :
  StronglySorted Z.lt (map update_id (buffer_of (phoneNumber alice) buffered_3_to_7))
  ∧ offset_falsy (Some 5) = false
  ∧ map update_id (snd (getBufferedUpdates (phoneNumber alice) (Some 5) buffered_3_to_7))
    = [6; 7]
  ∧ buffer_of (phoneNumber alice)
      (fst (getBufferedUpdates (phoneNumber alice) (Some 5) buffered_3_to_7)) = [].
Proof.
  assert (H : StronglySorted Z.lt
                (map update_id (buffer_of (phoneNumber alice) buffered_3_to_7)))
    by (vm_compute; repeat first [lia | constructor]).
  assert (H2 : offset_falsy (Some 5) = false) by reflexivity.
  split; [exact H|]. split; [exact H2|].
  destruct (proj2 (getBufferedUpdates_above_offset (phoneNumber alice) (Some 5)
                     buffered_3_to_7 H) H2) as [Hr Hb].
  split; [by rewrite Hr|]. rewrite Hb, Hr. reflexivity.
Defined.

(** ** Webhook sender: every outcome *)

Lemma sendWebhook_loop_outcome fetch random fuel attempt :
  (attempt + fuel = S maxRetries)%nat -> (0 < fuel)%nat ->
  ∃ k : nat, (attempt <= k <= maxRetries)%nat
       ∧ fst (sendWebhook_loop fetch random fuel attempt)
         = failing_trace random attempt (k - attempt) ++ [Attempt k]
       ∧ (∀ n, (attempt <= n < k)%nat -> fetch n ≠ FetchOk)
       ∧ ((fetch k = FetchOk
           ∧ snd (sendWebhook_loop fetch random fuel attempt) = Delivered k)
          ∨ (fetch k ≠ FetchOk ∧ k = maxRetries
             ∧ snd (sendWebhook_loop fetch random fuel attempt) = Exhausted)).
Proof.
  revert attempt. induction fuel as [|fuel IH]; intros attempt Hsum Hpos; [lia|].
  cbn [sendWebhook_loop].
  replace (attempt <=? maxRetries)%nat with true by (symmetry; apply Nat.leb_le; lia).
  destruct (fetch attempt) eqn:E.
  { exists attempt. rewrite Nat.sub_diag. cbn.
    split; [lia|]. split; [done|]. split; [intros; lia|]. by left. }
  all: assert (Hfail : fetch attempt ≠ FetchOk) by (by rewrite E).
  all: destruct (attempt =? maxRetries)%nat eqn:Elast;
    [ apply Nat.eqb_eq in Elast; exists attempt; rewrite Nat.sub_diag; cbn;
      split; [lia|]; split; [done|]; split; [intros; lia|]; by right
    | apply Nat.eqb_neq in Elast;
      destruct (IH (S attempt)) as (k & Hk & Htr & Hbefore & Hend); [lia|lia|];
      exists k; destruct (sendWebhook_loop fetch random fuel (S attempt)) as [tr r];
      cbn [fst snd] in *; split; [lia|]; split;
      [ rewrite Htr; replace (k - attempt)%nat with (S (k - S attempt)) by lia;
        reflexivity
      | split; [|done]; intros n Hn;
        destruct (decide (n = attempt)) as [->|Hne]; [done|]; apply Hbefore; lia ] ].
Qed.

(** The whole loop: the trace up to the attempt it stops at. *)
Lemma sendWebhook_stops fetch random :
  ∃ k : nat, (k <= maxRetries)%nat
       ∧ fst (sendWebhook fetch random) = failing_trace random 0 k ++ [Attempt k]
       ∧ (∀ n, (n < k)%nat -> fetch n ≠ FetchOk)
       ∧ ((fetch k = FetchOk ∧ snd (sendWebhook fetch random) = Delivered k)
          ∨ (fetch k ≠ FetchOk ∧ k = maxRetries
             ∧ snd (sendWebhook fetch random) = Exhausted)).
Proof.
  destruct (sendWebhook_loop_outcome fetch random (S maxRetries) 0)
    as (k & Hk & Htr & Hbefore & Hend); [lia|lia|].
  rewrite Nat.sub_0_r in Htr. exists k. unfold sendWebhook.
  split; [lia|]. split; [done|]. split; [|done].
  intros n Hn. apply Hbefore. lia.
Qed.

(** X11. Whatever the target does, [sendWebhook] returns: it tries
    attempts 0, 1, 2, ... in order, waiting after each failure, and
    stops at the first attempt that succeeds (delivered) or after
    attempt [maxRetries] has failed (given up); it makes no attempt
    after a success and never throws. *)
Theorem sendWebhook_outcome fetch random :
  ∃ k : nat, (k <= maxRetries)%nat
       ∧ attempts_of (fst (sendWebhook fetch random)) = seq 0 (S k)
       ∧ waits_of (fst (sendWebhook fetch random)) = map (backoffTime random) (seq 0 k)
       ∧ (∀ n, (n < k)%nat -> fetch n ≠ FetchOk)
       ∧ ((fetch k = FetchOk ∧ snd (sendWebhook fetch random) = Delivered k)
          ∨ (fetch k ≠ FetchOk ∧ k = maxRetries
             ∧ snd (sendWebhook fetch random) = Exhausted)).
Proof.
  destruct (sendWebhook_stops fetch random) as (k & Hk & Htr & Hbefore & Hend).
  exists k. split; [done|]. split; [|split; [|done]].
  - rewrite Htr. unfold attempts_of. rewrite omap_app_list.
    fold (attempts_of (failing_trace random 0 k)).
    rewrite attempts_of_failing_trace. cbn [omap].
    replace (S k) with (k + 1)%nat by lia. by rewrite seq_app.
  - rewrite Htr. unfold waits_of. rewrite omap_app_list.
    fold (waits_of (failing_trace random 0 k)).
    rewrite waits_of_failing_trace. cbn [omap]. apply app_nil_r.
Qed.

Lemma total_app l1 l2 : total (l1 ++ l2) = total l1 + total l2.
Proof. unfold total. induction l1 as [|x l1 IH]; cbn; lia. Qed.

Lemma total_le l1 l2 : Forall2 Z.le l1 l2 -> total l1 <= total l2.
Proof. unfold total. induction 1; cbn; lia. Qed.

Lemma total_nonneg l : Forall (Z.le 0) l -> 0 <= total l.
Proof. unfold total. induction 1; cbn; lia. Qed.

Lemma longest_wait_bound random n :
  (∀ i, 0 <= random i < 200) ->
  1000 <= backoffTime random n <= longest_wait n.
Proof.
  intros Hr. unfold backoffTime, longest_wait, maxBackoffTime. pose proof (Hr n).
  assert (0 < 2 ^ Z.of_nat n) by (apply Z.pow_pos_nonneg; lia).
  lia.
Qed.

(** X12. With a jitter in [0, 200), every wait of [sendWebhook] lasts
    between 1000 and 30000 ms, and all the waits of one call add up to
    at most 1381995 ms, whatever the target does. *)
Theorem sendWebhook_total_wait fetch random :
  (∀ n, 0 <= random n < 200) ->
  Forall (fun w => 1000 <= w <= maxBackoffTime) (waits_of (fst (sendWebhook fetch random)))
  ∧ total (waits_of (fst (sendWebhook fetch random))) <= 1381995.
Proof.
  intros Hr. destruct (sendWebhook_stops fetch random) as (k & Hk & Htr & _).
  assert (Hw : waits_of (fst (sendWebhook fetch random))
               = map (backoffTime random) (seq 0 k)).
  { rewrite Htr. unfold waits_of. rewrite omap_app_list.
    fold (waits_of (failing_trace random 0 k)).
    rewrite waits_of_failing_trace. cbn [omap]. apply app_nil_r. }
  rewrite Hw. split.
  - apply Forall_forall. intros w Hw'. rewrite <- ?list_elem_of_In in Hw'.
    apply list_elem_of_fmap in Hw' as (n & -> & _).
    pose proof (longest_wait_bound random n Hr).
    unfold backoffTime in *. unfold maxBackoffTime in *. lia.
  - assert (H1 : total (map (backoffTime random) (seq 0 k))
                 <= total (map longest_wait (seq 0 k))).
    { apply total_le. apply Forall2_fmap, Forall2_same_length_lookup.
      split; [done|]. intros i x y Hx Hy. rewrite Hx in Hy. injection Hy as <-.
      apply longest_wait_bound, Hr. }
    assert (H2 : total (map longest_wait (seq 0 k))
                 <= total (map longest_wait (seq 0 maxRetries))).
    { replace maxRetries with (k + (maxRetries - k))%nat at 1 by lia.
      rewrite seq_app, map_app, total_app.
      assert (0 <= total (map longest_wait (seq (0 + k) (maxRetries - k)))); [|lia].
      apply total_nonneg, Forall_forall. intros w Hw'.
      rewrite <- ?list_elem_of_In in Hw'.
      apply list_elem_of_fmap in Hw' as (n & -> & _).
      unfold longest_wait, maxBackoffTime.
      assert (0 < 2 ^ Z.of_nat n) by (apply Z.pow_pos_nonneg; lia). lia. }
    assert (H3 : total (map longest_wait (seq 0 maxRetries)) = 1381995)
      by (vm_compute; reflexivity).
    lia.
Qed.

Lemma sendWebhook_total_wait_witness :
  (∀ n, 0 <= jitter_example n < 200)
  ∧ total (waits_of (fst (sendWebhook third_time_lucky jitter_example))) <= 1381995
  ∧ snd (sendWebhook third_time_lucky jitter_example) = Delivered 2.
Proof.
  assert (Hr : ∀ n, 0 <= jitter_example n < 200)
    by (intros n; unfold jitter_example; apply Z.mod_pos_bound; lia).
  split; [exact Hr|].
  split; [exact (proj2 (sendWebhook_total_wait third_time_lucky jitter_example Hr))|].
  reflexivity.
Defined.

(** ** Albums when a poll excludes them *)

(** X13. Two fragments of one group, as for an album, but offered while
    a poll is pending whose options exclude the album kind: the first
    run emits nothing, and the second creates exactly one update, a
    single message of the second fragment's kind holding the second
    fragment alone. The first fragment appears in no update, and the
    group is no longer pending. *)
Theorem album_excluded_keeps_last_fragment
    user (m1 m2 : ApiMessage) t1 t2 now1 now2 g s s1 :
  groupedId m1 = Some g -> groupedId m2 = Some g ->
  pendingAlbums s !! g = None ->
  pm_has (messageKey user m1 t1) (processedMessages s) = false ->
  let first := handleMessageUpdate user m1 t1 now1 s in
  pendingAlbums s1 !! g = pendingAlbums (fst first) !! g ->
  pm_has (messageKey user m2 t2) (processedMessages s1) = false ->
  shouldIncludeUpdate T_album (updateHandlers s1 !! phoneNumber user ≫= options) = false ->
  let second := handleMessageUpdate user m2 t2 now2 s1 in
  snd first = []
  ∧ (∃ u, produced (phoneNumber user) (snd first ++ snd second) = [u]
          ∧ payload u = P_message t2 (convertToMessage now2 m2))
  ∧ pendingAlbums (fst second) !! g = None.
Proof.
  intros Hg1 Hg2 Hnone Hfresh1 first Hpending Hfresh2 Halbum second.
  destruct (lone_fragment_dropped user m1 t1 now1 g s Hg1 Hnone Hfresh1)
    as (Hfirst & Hentry & _).
  fold first in Hfirst, Hentry. rewrite Hentry in Hpending.
  destruct (handleMessageUpdate_fresh user m2 t2 now2 s1 Hfresh2)
    as (s2 & Ha & Hh & _ & _ & _ & _ & Heq).
  rewrite <- Ha in Hpending.
  destruct (handleMediaAlbum_second m1 m2 g _ s2 Hg2 Hpending) as (Hm & Hp).
  pose proof (handleMediaAlbum_frame m2 s2) as (_ & Fh & _). cbv zeta in Fh.
  fold second in Heq.
  destruct (handleMediaAlbum m2 s2) as [s3 messages]. cbn [fst snd] in *.
  assert (Hlen : length messages = 2%nat) by (by rewrite Hm, sort_by_length).
  rewrite Hlen, Fh, Hh, Halbum in Heq. cbn [Nat.eqb Nat.ltb Nat.leb andb] in Heq.
  split; [exact Hfirst|]. rewrite Hfirst. cbn [app]. split.
  - eexists. rewrite Heq. split.
    + etrans; [apply processUpdate_produced|]. by rewrite bool_decide_eq_true_2.
    + reflexivity.
  - rewrite Heq. destruct (emit_frame user now2
      (P_message t2 (convertToMessage now2 m2)) s3) as (_ & -> & _). exact Hp.
Qed.

Lemma album_excluded_keeps_last_fragment_witness :
  let s := fst (getUpdates alice None 100 30 (Some no_albums) init) in
  let first := handleMessageUpdate alice (album_fragment 11 77) T_message 1000 s in
  let second := handleMessageUpdate alice (album_fragment 10 77) T_message 1100 (fst first) in
  pendingAlbums s !! 77 = None
  ∧ pm_has (messageKey alice (album_fragment 11 77) T_message) (processedMessages s)
    = false
  ∧ pm_has (messageKey alice (album_fragment 10 77) T_message)
      (processedMessages (fst first)) = false
  ∧ shouldIncludeUpdate T_album
      (updateHandlers (fst first) !! phoneNumber alice ≫= options) = false
  ∧ ∃ u, produced (phoneNumber alice) (snd first ++ snd second) = [u]
         ∧ payload u = P_message T_message (convertToMessage 1100 (album_fragment 10 77)).
Proof.
  intros s first second.
  assert (H1 : pendingAlbums s !! 77 = None) by reflexivity.
  assert (H2 : pm_has (messageKey alice (album_fragment 11 77) T_message)
                 (processedMessages s) = false) by reflexivity.
  assert (H3 : pm_has (messageKey alice (album_fragment 10 77) T_message)
                 (processedMessages (fst first)) = false) by (vm_compute; reflexivity).
  assert (H4 : shouldIncludeUpdate T_album
                 (updateHandlers (fst first) !! phoneNumber alice ≫= options) = false)
    by (vm_compute; reflexivity).
  split; [exact H1|]. split; [exact H2|]. split; [exact H3|]. split; [exact H4|].
  exact (proj1 (proj2 (album_excluded_keeps_last_fragment alice
           (album_fragment 11 77) (album_fragment 10 77) T_message T_message
           1000 1100 77 s (fst first) eq_refl eq_refl H1 H2 eq_refl H3 H4))).
Defined.

(** ** Raw events are not deduplicated *)

Lemma rawEventHandler_produced user options update now s :
  produced (phoneNumber user) (snd (rawEventHandler user options update now s)) = []
  ∨ ∃ pl, raw_of pl = Some update
      ∧ (∀ now' s',
           produced (phoneNumber user) (snd (rawEventHandler user options update now' s'))
           = [{| update_id := snd (generateUpdateId (phoneNumber user) now' s');
                 payload := match pl with
                            | P_deleted_message raw _ => P_deleted_message raw (now' / 1000)
                            | _ => pl
                            end |}]).
Proof.
  unfold rawEventHandler.
  destruct (className update); cbv zeta;
    repeat match goal with
           | |- context [if ?b then _ else _] => destruct b
           end;
    try (by left); right.
  - exists (P_user_status update). split; [done|]. intros. cbn [snd].
    etrans; [apply processUpdate_produced|]. by rewrite bool_decide_eq_true_2.
  - exists (P_typing_status update). split; [done|]. intros.
    etrans; [apply processUpdate_produced|]. by rewrite bool_decide_eq_true_2.
  - exists (P_typing_status update). split; [done|]. intros.
    etrans; [apply processUpdate_produced|]. by rewrite bool_decide_eq_true_2.
  - exists (P_chat_action update). split; [done|]. intros.
    etrans; [apply processUpdate_produced|]. by rewrite bool_decide_eq_true_2.
  - exists (P_chat_action update). split; [done|]. intros.
    etrans; [apply processUpdate_produced|]. by rewrite bool_decide_eq_true_2.
  - exists (P_chat_action update). split; [done|]. intros.
    etrans; [apply processUpdate_produced|]. by rewrite bool_decide_eq_true_2.
  - exists (P_deleted_message update 0). split; [done|]. intros.
    etrans; [apply processUpdate_produced|]. by rewrite bool_decide_eq_true_2.
  - exists (P_reaction update). split; [done|]. intros.
    etrans; [apply processUpdate_produced|]. by rewrite bool_decide_eq_true_2.
Qed.

(** X14. Raw events pass no dedup filter: when the raw handler creates
    an update for an event, handling the same event once more (as a
    second handler installed for the account does) creates a second
    update for it, with a larger identifier. *)
Theorem raw_event_not_deduplicated user options update now1 now2 s u1 :
  0 <= now2 ->
  let first := rawEventHandler user options update now1 s in
  let second := rawEventHandler user options update now2 (fst first) in
  produced (phoneNumber user) (snd first) = [u1] ->
  ∃ u2, produced (phoneNumber user) (snd second) = [u2]
        ∧ update_id u1 < update_id u2
        ∧ raw_of (payload u1) = Some update
        ∧ raw_of (payload u2) = Some update.
Proof.
  intros Hnow first second Hu1.
  destruct (rawEventHandler_produced user options update now1 s)
    as [Hnil|(pl & Hraw & Hall)].
  { fold first in Hnil. by rewrite Hnil in Hu1. }
  pose proof (Hall now1 s) as H1. fold first in H1. rewrite Hu1 in H1.
  injection H1 as ->.
  pose proof (Hall now2 (fst first)) as H2. fold second in H2.
  eexists. split; [exact H2|]. cbn [update_id payload].
  destruct (rawEventHandler_issues (phoneNumber user) user options update now1 s)
    as [[Hnil _]|(u & Hu & Hl & Hid)].
  { fold first in Hnil. by rewrite Hnil in Hu1. }
  fold first in Hu, Hl. rewrite Hu1 in Hu. injection Hu as <-. cbn [update_id] in Hl.
  destruct (generateUpdateId_value (phoneNumber user) now2 (fst first)) as [-> _].
  rewrite Hl. split; [|split; by destruct pl].
  destruct (_ =? 0) eqn:E; [apply Z.eqb_eq in E; lia|lia].
Qed.

Lemma raw_event_not_deduplicated_witness :
  let first := rawEventHandler alice None reaction_raw 1700000000000 init in
  let second := rawEventHandler alice None reaction_raw 1700000000000 (fst first) in
  0 <= 1700000000000
  ∧ produced (phoneNumber alice) (snd first) = [update_numbered 1700000000001]
  ∧ ∃ u2, produced (phoneNumber alice) (snd second) = [u2]
          ∧ update_id (update_numbered 1700000000001) < update_id u2.
Proof.
  intros first second.
  assert (H0 : 0 <= 1700000000000) by lia.
  assert (H1 : produced (phoneNumber alice) (snd first) = [update_numbered 1700000000001])
    by reflexivity.
  split; [exact H0|]. split; [exact H1|].
  destruct (raw_event_not_deduplicated alice None reaction_raw
              1700000000000 1700000000000 init _ H0 H1) as (u2 & Hu & Hlt & _).
  exists u2. split; [exact Hu|exact Hlt].
Defined.

(** ** Option filter *)

Lemma includes_elem_of (t : UpdateType) (l : list UpdateType) :
  includes t l = true ↔ t ∈ l.
Proof.
  unfold includes. rewrite existsb_exists. split.
  - intros (x & Hin & Hx). apply bool_decide_eq_true in Hx as ->.
    by apply list_elem_of_In.
  - intros Hin. exists t. split; [by apply list_elem_of_In|by apply bool_decide_eq_true].
Qed.

(** X15. In the option filter, for a kind other than [all]: an
    exclusion wins over any allowance; [all] in the allowed list admits
    every kind that is not excluded; and [all] in the excluded list
    excludes no other kind: two excluded lists that differ only in [all]
    give the same answer, and a list holding nothing but [all] is as
    good as no list. *)
Theorem shouldIncludeUpdate_all type allowed excluded :
  type ≠ T_all ->
  (type ∈ excluded ->
     shouldIncludeUpdate type
       (Some {| allowed_updates := allowed; exclude_updates := Some excluded |}) = false)
  ∧ (∀ al, allowed = Some al -> T_all ∈ al -> type ∉ excluded ->
       shouldIncludeUpdate type
         (Some {| allowed_updates := allowed; exclude_updates := Some excluded |}) = true)
  ∧ (∀ excluded', (∀ t, t ≠ T_all -> t ∈ excluded ↔ t ∈ excluded') ->
       shouldIncludeUpdate type
         (Some {| allowed_updates := allowed; exclude_updates := Some excluded |})
       = shouldIncludeUpdate type
           (Some {| allowed_updates := allowed; exclude_updates := Some excluded' |}))
  ∧ (Forall (fun t => t = T_all) excluded ->
       shouldIncludeUpdate type
         (Some {| allowed_updates := allowed; exclude_updates := Some excluded |})
       = shouldIncludeUpdate type
           (Some {| allowed_updates := allowed; exclude_updates := None |})).
Proof.
  intros Hne. unfold shouldIncludeUpdate. cbn [allowed_updates exclude_updates].
  split; [|split; [|split]].
  - intros Hin. apply includes_elem_of in Hin. by rewrite Hin.
  - intros al -> Hall Hnot. apply includes_elem_of in Hall.
    destruct (includes type excluded) eqn:E; [by apply includes_elem_of in E|].
    rewrite Hall. apply orb_true_r.
  - intros excluded' Hsame.
    assert (Heq : includes type excluded = includes type excluded').
    { destruct (includes type excluded) eqn:E, (includes type excluded') eqn:E';
        try done.
      - apply includes_elem_of, (Hsame type Hne), includes_elem_of in E. congruence.
      - apply includes_elem_of, (Hsame type Hne), includes_elem_of in E'. congruence. }
    by rewrite Heq.
  - intros Hall. destruct (includes type excluded) eqn:E; [|done].
    apply includes_elem_of in E. rewrite Forall_forall in Hall.
    rewrite <- ?list_elem_of_In in Hall. by apply Hall in E.
Qed.

Lemma shouldIncludeUpdate_all_witness :
  T_typing ≠ T_all
  ∧ shouldIncludeUpdate T_typing
      (Some {| allowed_updates := Some [T_all]; exclude_updates := Some [T_typing] |})
    = false
  ∧ shouldIncludeUpdate T_reaction
      (Some {| allowed_updates := Some [T_all]; exclude_updates := Some [T_typing] |})
    = true
  ∧ shouldIncludeUpdate T_typing
      (Some {| allowed_updates := None; exclude_updates := Some [T_all; T_delete] |})
    = shouldIncludeUpdate T_typing
        (Some {| allowed_updates := None; exclude_updates := Some [T_delete] |})
  ∧ shouldIncludeUpdate T_typing
      (Some {| allowed_updates := None; exclude_updates := Some [T_all] |}) = true.
Proof.
  assert (H : T_typing ≠ T_all) by discriminate.
  split; [exact H|]. split; [|split; [|split]].
  - apply (shouldIncludeUpdate_all T_typing (Some [T_all]) [T_typing] H).
    apply list_elem_of_singleton. reflexivity.
  - reflexivity.
  - reflexivity.
  - reflexivity.
Defined.

(** ** A timer left over from a completed album *)

(** X16. The timer started when the second fragment completes an album
    is never cancelled and names only the group. When a third fragment
    of the group arrives and is held back, that timer, once it fires,
    removes the third fragment although the fragment's own timer is
    still pending; a fourth fragment arriving after that starts over
    and is held back too. *)
Theorem leftover_album_timer_drops_fragment (m1 m2 m3 m4 : ApiMessage) g s :
  groupedId m1 = Some g -> groupedId m2 = Some g ->
  groupedId m3 = Some g -> groupedId m4 = Some g ->
  pendingAlbums s !! g = None ->
  let s1 := fst (handleMediaAlbum m1 s) in
  let s2 := fst (handleMediaAlbum m2 s1) in
  let s3 := fst (handleMediaAlbum m3 s2) in
  let leftover := S (nextTimer s) in
  let s4 := fst (fireTimer leftover s3) in
  snd (handleMediaAlbum m2 s1) = sort_by id [m1; m2]
  ∧ timers s3 !! leftover = Some {| delay := 500; callback := AlbumSubsequent g |}
  ∧ pendingAlbums s3 !! g
    = Some {| album_messages := [m3]; album_timer := S (S (nextTimer s)) |}
  ∧ snd (fireTimer leftover s3) = []
  ∧ pendingAlbums s4 !! g = None
  ∧ timers s4 !! S (S (nextTimer s))
    = Some {| delay := 300; callback := AlbumInitial g |}
  ∧ snd (handleMediaAlbum m4 s4) = [].
Proof.
  intros Hg1 Hg2 Hg3 Hg4 Hnone s1 s2 s3 leftover s4.
  assert (E1 : s1 = set_pendingAlbums
                      (insert g {| album_messages := [m1]; album_timer := nextTimer s |})
                      (fst (setTimeout (AlbumInitial g) 300 s))).
  { subst s1. unfold handleMediaAlbum. by rewrite Hg1, Hnone. }
  assert (P1 : pendingAlbums s1 !! g
               = Some {| album_messages := [m1]; album_timer := nextTimer s |}).
  { rewrite E1. cbn. apply lookup_insert_eq. }
  assert (N1 : nextTimer s1 = S (nextTimer s)) by (by rewrite E1).
  assert (E2 : handleMediaAlbum m2 s1
               = (set_pendingAlbums (delete g)
                    (set_pendingAlbums
                       (insert g {| album_messages := sort_by id [m1; m2];
                                    album_timer := nextTimer s1 |})
                       (fst (setTimeout (AlbumSubsequent g) 500
                               (clearTimeout (nextTimer s) s1)))),
                  sort_by id [m1; m2])).
  { unfold handleMediaAlbum. rewrite Hg2, P1. cbn [album_messages album_timer app].
    cbn [setTimeout]. 
    assert (Hlen : length (sort_by id [m1; m2]) = 2%nat) by by rewrite sort_by_length.
    rewrite Hlen. reflexivity. }
  assert (P2 : pendingAlbums s2 !! g = None).
  { subst s2. rewrite E2. cbn. apply lookup_delete_eq. }
  assert (N2 : nextTimer s2 = S (S (nextTimer s))).
  { subst s2. rewrite E2. cbn. by rewrite N1. }
  assert (T2 : timers s2 !! leftover
               = Some {| delay := 500; callback := AlbumSubsequent g |}).
  { subst s2 leftover. rewrite E2. cbn. rewrite N1. apply lookup_insert_eq. }
  assert (E3 : s3 = set_pendingAlbums
                      (insert g {| album_messages := [m3]; album_timer := nextTimer s2 |})
                      (fst (setTimeout (AlbumInitial g) 300 s2))).
  { subst s3. unfold handleMediaAlbum. by rewrite Hg3, P2. }
  assert (T3 : timers s3 !! leftover
               = Some {| delay := 500; callback := AlbumSubsequent g |}).
  { rewrite E3. cbn. rewrite lookup_insert_ne; [exact T2|]. subst leftover. lia. }
  assert (E4 : fireTimer leftover s3
               = (set_pendingAlbums (delete g) (clearTimeout leftover s3), [])).
  { unfold fireTimer. by rewrite T3. }
  split; [by rewrite E2|]. split; [exact T3|]. split.
  { rewrite E3. cbn. rewrite N2. apply lookup_insert_eq. }
  split; [by rewrite E4|].
  assert (P4 : pendingAlbums s4 !! g = None).
  { subst s4. rewrite E4. cbn. apply lookup_delete_eq. }
  split; [exact P4|]. split.
  - subst s4. rewrite E4. cbn. rewrite lookup_delete_ne by (subst leftover; lia).
    rewrite E3. cbn. rewrite N2. apply lookup_insert_eq.
  - unfold handleMediaAlbum. by rewrite Hg4, P4.
Qed.

Lemma leftover_album_timer_drops_fragment_witness :
  let s1 := fst (handleMediaAlbum (album_fragment 1 77) init) in
  let s2 := fst (handleMediaAlbum (album_fragment 2 77) s1) in
  let s3 := fst (handleMediaAlbum (album_fragment 3 77) s2) in
  pendingAlbums init !! 77 = None
  ∧ pendingAlbums (fst (fireTimer 1 s3)) !! 77 = None
  ∧ snd (handleMediaAlbum (album_fragment 4 77) (fst (fireTimer 1 s3))) = [].
Proof.
  intros s1 s2 s3.
  assert (H : pendingAlbums init !! 77 = None) by reflexivity.
  split; [exact H|].
  destruct (leftover_album_timer_drops_fragment
              (album_fragment 1 77) (album_fragment 2 77)
              (album_fragment 3 77) (album_fragment 4 77) 77 init
              eq_refl eq_refl eq_refl eq_refl H)
    as (_ & _ & _ & _ & H4 & _ & H5).
  split; [exact H4|exact H5].
Defined.

(** ** Chat actions *)

(** X17. [getChatAction] compares how many rights a participant has, not
    which: a participant event whose administrator rights and whose
    banned rights are as many after as before yields no action, also
    when the rights themselves differ, and the raw handler then creates
    no update for it. *)
Theorem rights_change_of_equal_size_unnoticed update user options now s :
  event_className update = UpdateChannelParticipant ->
  length (rights_keys adminRights (newParticipant update))
  = length (rights_keys adminRights (prevParticipant update)) ->
  length (rights_keys bannedRights (newParticipant update))
  = length (rights_keys bannedRights (prevParticipant update)) ->
  getChatAction update = None
  ∧ rawEventHandler user options (raw_update_of update) now s = (s, []).
Proof.
  intros Hc Ha Hb.
  assert (Hnone : getChatAction update = None).
  { unfold getChatAction. rewrite Hc. cbv zeta. rewrite Ha, Hb.
    by rewrite !Nat.eqb_refl. }
  split; [exact Hnone|].
  unfold rawEventHandler, raw_update_of. cbn [className hasChatAction].
  rewrite Hc, Hnone. by destruct (shouldIncludeUpdate _ _).
Qed.

Lemma rights_change_of_equal_size_unnoticed_witness :
  event_className rights_swapped = UpdateChannelParticipant
  ∧ rights_keys adminRights (newParticipant rights_swapped)
    ≠ rights_keys adminRights (prevParticipant rights_swapped)
  ∧ getChatAction rights_swapped = None
  ∧ rawEventHandler alice None (raw_update_of rights_swapped) 1000 init = (init, []).
Proof.
  split; [reflexivity|]. split; [discriminate|].
  apply (rights_change_of_equal_size_unnoticed rights_swapped alice None 1000 init);
    reflexivity.
Defined.

(** X18. [getChatAction] finds an action only in a new channel message
    that carries a service action and in a participant event: an
    [UpdateChannel] event never yields one, so the raw handler creates
    no update for it. The kinds it reports are title, photo change and
    deletion, join, leave, pin and the two rights changes; it never
    reports an invitation, a description change, an unpinning or a
    permissions change. *)
Theorem getChatAction_kinds update r :
  getChatAction update = Some r ->
  (event_className update = UpdateNewChannelMessage
     ∧ (∃ message_id action, event_message update = Some (message_id, Some action))
     ∧ action_type r ∈ [A_title_changed; A_photo_changed; A_photo_deleted;
                        A_join; A_leave; A_message_pinned])
  ∨ (event_className update = UpdateChannelParticipant
     ∧ action_type r ∈ [A_admin_rights_changed; A_member_rights_changed]).
Proof.
  unfold getChatAction. intros H.
  destruct (event_className update) eqn:Hc; try done.
  - right. split; [done|]. cbv zeta in H.
    repeat match type of H with
           | context [if ?b then _ else _] => destruct b
           end; simplify_eq; cbn; set_solver.
  - left. split; [done|].
    destruct (event_message update) as [[message_id [action|]]|]; try done.
    split; [eauto|]. destruct action; simplify_eq; cbn; set_solver.
Qed.

Lemma getChatAction_kinds_witness :
  getChatAction pin_event
  = Some {| action_type := A_message_pinned; action_data := Some (D_message_id 9) |}
  ∧ event_className pin_event = UpdateNewChannelMessage.
Proof.
  assert (H : getChatAction pin_event
              = Some {| action_type := A_message_pinned;
                        action_data := Some (D_message_id 9) |}) by reflexivity.
  split; [exact H|].
  destruct (getChatAction_kinds pin_event _ H) as [(Hc & _)|(Hc & _)];
    [exact Hc|discriminate Hc].
Defined.

(** ** Media of a message *)

Lemma find_as_Some {A B} (guard : A -> option B) (l : list A) b :
  find_as guard l = Some b -> ∃ x, x ∈ l ∧ guard x = Some b.
Proof.
  unfold find_as. intros H.
  assert (Hb : b ∈ omap guard l).
  { destruct (omap guard l) as [|y r]; [done|]. cbn in H. simplify_eq. set_solver. }
  apply list_elem_of_omap in Hb. exact Hb.
Qed.

Lemma find_as_None {A B} (guard : A -> option B) (l : list A) x :
  find_as guard l = None -> x ∈ l -> guard x = None.
Proof.
  unfold find_as. intros H Hx. destruct (guard x) as [b|] eqn:E; [|done].
  assert (Hb : b ∈ omap guard l) by (apply list_elem_of_omap; eauto).
  destruct (omap guard l); [by apply elem_of_nil in Hb|done].
Qed.

(** A document that is not empty is reported, never as a photo and
    never with a file size of 0. *)
Lemma document_kind_shape doc_id accessHash size mimeType attrs :
  ∃ r, getMediaFromMessage
         (Some (MessageMediaDocument
                  (Some (Document doc_id accessHash size mimeType attrs)))) = Some r
       ∧ file_size r ≠ Some 0
       ∧ media_type r ≠ M_photo.
Proof.
  assert (Hsize : size_or_undefined size ≠ Some 0).
  { unfold size_or_undefined. destruct (size =? 0) eqn:E; [done|].
    apply Z.eqb_neq in E. congruence. }
  unfold getMediaFromMessage.
  destruct (find_as as_video _) as [[[w h] d]|]; [by eexists|].
  destruct (find_as as_audio _) as [[[[[] d] title] performer]|]; [by eexists|by eexists|].
  destruct (find_as as_sticker _) as [[]|]; [by eexists|].
  destruct (find_as as_animated _) as [[]|]; by eexists.
Qed.

(** X19. A document that is not empty is always reported, and its kind
    follows a fixed precedence of its attributes, whatever their order:
    any video attribute makes it a video, also when it is animated or a
    sticker; it is an animation only if it has an animated attribute and
    neither a video, an audio nor a sticker attribute; and it is a plain
    document only if it has none of the four. The reported file size is
    never 0. *)
Theorem document_kind_precedence doc_id accessHash size mimeType attrs :
  ∃ r, getMediaFromMessage
         (Some (MessageMediaDocument
                  (Some (Document doc_id accessHash size mimeType (Some attrs))))) = Some r
       ∧ file_size r ≠ Some 0
       ∧ ((∃ a, a ∈ attrs ∧ is_Some (as_video a)) -> media_type r = M_video)
       ∧ (media_type r = M_animation ->
            DocumentAttributeAnimated ∈ attrs
            ∧ ∀ a, a ∈ attrs ->
                as_video a = None ∧ as_audio a = None ∧ as_sticker a = None)
       ∧ (media_type r = M_document ->
            ∀ a, a ∈ attrs ->
              as_video a = None ∧ as_audio a = None
              ∧ as_sticker a = None ∧ as_animated a = None).
Proof.
  assert (Hsize : size_or_undefined size ≠ Some 0).
  { unfold size_or_undefined. destruct (size =? 0) eqn:E; [done|].
    apply Z.eqb_neq in E. congruence. }
  unfold getMediaFromMessage. cbn [default from_option Datatypes.id].
  destruct (find_as as_video attrs) as [[[w h] d]|] eqn:Ev.
  { eexists. split; [reflexivity|]. cbn. split; [done|]. split; [done|]. split; done. }
  destruct (find_as as_audio attrs) as [[[[voice d] title] performer]|] eqn:Ea.
  { eexists. split; [reflexivity|]. cbn. split; [done|]. split; [|split].
    - intros (a & Ha & [v Hv]). by rewrite (find_as_None _ _ _ Ev Ha) in Hv.
    - by destruct voice.
    - by destruct voice. }
  destruct (find_as as_sticker attrs) as [[]|] eqn:Es.
  { eexists. split; [reflexivity|]. cbn. split; [done|]. split; [|split; done].
    intros (a & Ha & [v Hv]). by rewrite (find_as_None _ _ _ Ev Ha) in Hv. }
  destruct (find_as as_animated attrs) as [[]|] eqn:En.
  { eexists. split; [reflexivity|]. cbn. split; [done|]. split; [|split; [|done]].
    - intros (a & Ha & [v Hv]). by rewrite (find_as_None _ _ _ Ev Ha) in Hv.
    - intros _. split.
      + apply find_as_Some in En as (x & Hx & Hg). by destruct x.
      + intros a Ha. by rewrite (find_as_None _ _ _ Ev Ha),
          (find_as_None _ _ _ Ea Ha), (find_as_None _ _ _ Es Ha). }
  eexists. split; [reflexivity|]. cbn. split; [done|]. split; [|split; [done|]].
  - intros (a & Ha & [v Hv]). by rewrite (find_as_None _ _ _ Ev Ha) in Hv.
  - intros _ a Ha. by rewrite (find_as_None _ _ _ Ev Ha),
      (find_as_None _ _ _ Ea Ha), (find_as_None _ _ _ Es Ha), (find_as_None _ _ _ En Ha).
Qed.

(** X20. A photo is reported only when its sizes hold an entry of class
    [PhotoSize], and then with the dimensions of the first such entry;
    media of an unknown class, empty media, an empty photo and an empty
    document are not reported. Whatever is reported as a photo came
    from photo media, and its file size is never 0. *)
Theorem photo_reported_with_first_size media r :
  getMediaFromMessage media = Some r ->
  file_size r ≠ Some 0
  ∧ ((∃ document, media = Some (MessageMediaDocument (Some document))
                  ∧ document ≠ DocumentEmpty ∧ media_type r ≠ M_photo)
     ∨ (∃ photo_id accessHash sizes before size w h after,
          media = Some (MessageMediaPhoto (Some (Photo photo_id accessHash (Some sizes))))
          ∧ sizes = before ++ PhotoSize size w h :: after
          ∧ Forall (fun x => as_PhotoSize x = None) before
          ∧ media_type r = M_photo
          ∧ width r = Some w ∧ height r = Some h
          ∧ file_size r = size_or_undefined size)).
Proof.
  assert (Hsize : ∀ size, size_or_undefined size ≠ Some 0).
  { intros size. unfold size_or_undefined. destruct (size =? 0) eqn:E; [done|].
    apply Z.eqb_neq in E. congruence. }
  destruct media as [[|[[|photo_id accessHash sizes]|]|[[|doc_id accessHash size mimeType attrs]|]|]|];
    try done.
  - cbn [getMediaFromMessage].
    destruct (find_as as_PhotoSize (default [] sizes)) as [[[size w] h]|] eqn:E; [|done].
    intros [= <-]. cbn. split; [apply Hsize|]. right.
    destruct sizes as [sizes|]; [|done]. cbn [default from_option Datatypes.id] in E.
    assert (∃ before after, sizes = before ++ PhotoSize size w h :: after
                            ∧ Forall (fun x => as_PhotoSize x = None) before)
      as (before & after & Hs & Hb).
    { clear -E. unfold find_as in E. induction sizes as [|e sizes IH]; [done|].
      destruct e as [size' w' h'|]; cbn in E.
      - simplify_eq. by exists [], sizes.
      - destruct (IH E) as (before & after & -> & Hb).
        exists (PhotoSizeOther :: before), after. split; [done|]. by constructor. }
    exists photo_id, accessHash, sizes, before, size, w, h, after. done.
  - intros H.
    destruct (document_kind_shape doc_id accessHash size mimeType attrs) as (r' & Hr & Ht).
    rewrite H in Hr. injection Hr as <-. split; [apply Ht|].
    left. eexists. split; [done|]. split; [done|apply Ht].
Qed.

Lemma photo_reported_with_first_size_witness :
  ∃ r, getMediaFromMessage (Some holiday_photo) = Some r
       ∧ file_size r ≠ Some 0
       ∧ width r = Some 320 ∧ height r = Some 240.
Proof.
  eexists. split; [reflexivity|].
  split; [|split; reflexivity].
  apply (photo_reported_with_first_size (Some holiday_photo)). reflexivity.
Defined.

(** ** One update per poll *)

Section OnePerPoll.
Variable h : nat.

Lemma bufferUpdate_short p update s0 s :
  waiters_ok s0 ->
  updateHandlers s = updateHandlers s0 -> updateBuffers s = updateBuffers s0 ->
  at_most_one h (snd (bufferUpdate p update s)).
Proof.
  intros W Hh Hb. unfold at_most_one, resolutions, bufferUpdate.
  cbn [updateHandlers set_updateBuffers].
  destruct (updateHandlers s !! p) as [hd|] eqn:Hp; [|by constructor].
  rewrite Hh in Hp. specialize (W p hd Hp). rewrite <- Hb in W.
  unfold getBufferedUpdates. cbn [updateBuffers set_updateBuffers].
  rewrite lookup_insert_eq. cbn [default from_option Datatypes.id].
  destruct (offset_falsy (offset hd)) eqn:Hf.
  - assert (Hnil : default [] (updateBuffers s !! p) = []).
    { destruct (default [] (updateBuffers s !! p)) as [|u l]; [done|].
      apply Forall_cons in W as [Hu _]. unfold passes_offset in Hu.
      by rewrite Hf in Hu. }
    rewrite Hnil. cbn. case_bool_decide; repeat constructor.
  - assert (Hfail : Forall (fun u => (default 0 (offset hd) <? update_id u) = false)
                      (default [] (updateBuffers s !! p))).
    { eapply Forall_impl; [exact W|]. intros u Hu.
      unfold passes_offset in Hu. by apply orb_false_iff in Hu as [_ Hu]. }
    destruct (default 0 (offset hd) <? update_id update) eqn:Hlt.
    + rewrite (findIndex_last _ _ update) by done.
      rewrite drop_app_length. cbn. case_bool_decide; repeat constructor.
    + rewrite findIndex_none; [by constructor|].
      apply Forall_app. split; [done|]. by repeat constructor.
Qed.

Lemma emit_short user now pl s0 s :
  waiters_ok s0 ->
  updateHandlers s = updateHandlers s0 -> updateBuffers s = updateBuffers s0 ->
  at_most_one h (snd (let '(s1, newId) := generateUpdateId (phoneNumber user) now s in
              processUpdate user {| update_id := newId; payload := pl |} s1)).
Proof.
  intros W Hh Hb. cbv zeta. unfold processUpdate. destruct (_ && _); [by constructor|].
  by apply (bufferUpdate_short _ _ s0).
Qed.

Lemma handleMessageUpdate_short user message type now s :
  waiters_ok s -> at_most_one h (snd (handleMessageUpdate user message type now s)).
Proof.
  intros W. unfold handleMessageUpdate. cbv zeta.
  destruct (pm_has _ _); [by constructor|].
  match goal with |- context [handleMediaAlbum message ?s2] =>
    assert (H2 : updateHandlers s2 = updateHandlers s) by (by case_match);
    assert (B2 : updateBuffers s2 = updateBuffers s) by (by case_match);
    pose proof (handleMediaAlbum_frame message s2) as (_ & F & G & _);
    destruct (handleMediaAlbum message s2) as [s3 messages]
  end.
  cbn [fst] in F, G. rewrite H2 in F. rewrite B2 in G.
  destruct (length messages =? 0)%nat; [by constructor|].
  destruct (_ && _); by apply (emit_short _ _ _ s).
Qed.

Lemma rawEventHandler_short user opts update now s :
  waiters_ok s -> at_most_one h (snd (rawEventHandler user opts update now s)).
Proof.
  intros W. unfold rawEventHandler.
  destruct (className update); cbv zeta;
    repeat match goal with
           | |- context [if ?b then _ else _] => destruct b
           end;
    first [by constructor | by apply (emit_short _ _ _ s)].
Qed.

Lemma fireTimer_short h' s : at_most_one h (snd (fireTimer h' s)).
Proof.
  unfold at_most_one, resolutions, fireTimer. destruct (timers s !! h') as [t|]; [|by constructor].
  destruct (callback t); cbn; try (by constructor).
  case_bool_decide; repeat constructor.
Qed.

Lemma step_short c s : waiters_ok s -> at_most_one h (snd (step c s)).
Proof.
  intros W.
  destruct c as [user options|user options update now|user options message now
                |user offset limit timeout options|h']; cbn [step snd].
  - by constructor.
  - by apply rawEventHandler_short.
  - unfold messageEventHandler. destruct (shouldIncludeUpdate _ _); [|by constructor].
    by apply handleMessageUpdate_short.
  - by constructor.
  - apply fireTimer_short.
Qed.

Lemma run_short cs s : waiters_ok s -> at_most_one h (snd (run cs s)).
Proof.
  revert s. induction cs as [|c cs IH]; intros s W; [by constructor|].
  rewrite run_cons. cbn [snd]. unfold at_most_one. rewrite resolutions_app.
  apply Forall_app. split.
  - by apply step_short.
  - by apply IH, waiters_ok_step.
Qed.

End OnePerPoll.

(** X21. In every run of the engine from its initial state, a waiting
    [getUpdates] call is never handed more than one update: its promise
    is resolved with the one update that reached the account and passed
    the offset, or with none when the timer fired, whatever limit it
    asked for. *)
Theorem poll_resolved_with_at_most_one_update cs h :
  Forall (fun ups : list Update => (length ups <= 1)%nat)
    (resolutions h (snd (run cs init))).
Proof.
  apply run_short. intros q hq Hq. cbn in Hq. by rewrite lookup_empty in Hq.
Qed.
